(** * Timestepping engine of the Stokesian Dynamics simulator

    A shallow embedding of [functions_timestepping.py] and the properties of
    its integrator, rotation updater, diagnostics, ETA estimator, periodic
    wrap and solve orchestrator.

    Number model.  NumPy's float64 arithmetic is idealised as exact arithmetic
    on the real numbers [R]: [+], [*], [/], [** 0.5], [sin], [cos], [arccos],
    [arctan2], [np.mod] and [np.round] denote their mathematical meaning.
    Where NumPy would produce a NaN out of [0/0], or raise an exception, the
    model says so explicitly (type [fvec3], type [failure]); it never relies
    on the value Rocq gives to a division by zero. *)

From Stdlib Require Import String.
From Stdlib Require Import Reals Lra Lia Psatz ZArith Bool List.
Import ListNotations.

Open Scope R_scope.

(** ** Exceptions *)

(** The Python exceptions the modelled functions can raise. *)
Inductive failure : Type :=
| IndexError
| ZeroDivisionError
| LinAlgError
| ValueError
| TypeError
| UnboundLocalError
| ConfigurationError.

Inductive outcome (A : Type) : Type :=
| Ok (a : A)
| Raise (e : failure).

Arguments Ok {A} a.
Arguments Raise {A} e.

Definition bind {A B : Type} (m : outcome A) (k : A -> outcome B) : outcome B :=
  match m with
  | Ok a => k a
  | Raise e => Raise e
  end.

Declare Scope py_scope.
Delimit Scope py_scope with py.
Notation "x <- m ;; k" := (bind m (fun x => k))
  (at level 61, m at next level, right associativity) : py_scope.
Notation "' p <- m ;; k" := (bind m (fun x => let p := x in k))
  (at level 61, p pattern, m at next level, right associativity) : py_scope.
Open Scope py_scope.

(** [l[i]] for a natural index: [IndexError] past the end. *)
Definition index {A : Type} (l : list A) (i : nat) : outcome A :=
  match nth_error l i with
  | Some a => Ok a
  | None => Raise IndexError
  end.

(** [l[i] = a] for a natural index. *)
Fixpoint store {A : Type} (l : list A) (i : nat) (a : A) : outcome (list A) :=
  match l, i with
  | [], _ => Raise IndexError
  | _ :: t, O => Ok (a :: t)
  | h :: t, S j => t' <- store t j a ;; Ok (h :: t')
  end.

(** ** Comparisons of reals as booleans *)

Definition Rltb (x y : R) : bool := if Rlt_dec x y then true else false.
Definition Rleb (x y : R) : bool := if Rle_dec x y then true else false.
Definition Reqb (x y : R) : bool := if Req_dec_T x y then true else false.

(** ** Three-component vectors and 3x3 matrices *)

Record vec3 : Type := V3 { vx : R; vy : R; vz : R }.

Definition vzero : vec3 := V3 0 0 0.
Definition vadd (a b : vec3) : vec3 := V3 (vx a + vx b) (vy a + vy b) (vz a + vz b).
Definition vsub (a b : vec3) : vec3 := V3 (vx a - vx b) (vy a - vy b) (vz a - vz b).
Definition vscale (k : R) (a : vec3) : vec3 := V3 (k * vx a) (k * vy a) (k * vz a).
Definition vdiv (a : vec3) (k : R) : vec3 := V3 (vx a / k) (vy a / k) (vz a / k).
Definition vabs (a : vec3) : vec3 := V3 (Rabs (vx a)) (Rabs (vy a)) (Rabs (vz a)).
Definition vmap (f : R -> R) (a : vec3) : vec3 := V3 (f (vx a)) (f (vy a)) (f (vz a)).

(** [np.dot] of two vectors, [np.cross], [np.linalg.norm]. *)
Definition dot (a b : vec3) : R := vx a * vx b + vy a * vy b + vz a * vz b.
Definition cross (a b : vec3) : vec3 :=
  V3 (vy a * vz b - vz a * vy b)
     (vz a * vx b - vx a * vz b)
     (vx a * vy b - vy a * vx b).
Definition norm (a : vec3) : R := sqrt (dot a a).

(** [np.array_equal] of two vectors. *)
Definition vec3_eqb (a b : vec3) : bool :=
  Reqb (vx a) (vx b) && Reqb (vy a) (vy b) && Reqb (vz a) (vz b).

(** A 3x3 array, by rows. *)
Record mat3 : Type := M3 { row0 : vec3; row1 : vec3; row2 : vec3 }.

Definition identity3 : mat3 := M3 (V3 1 0 0) (V3 0 1 0) (V3 0 0 1).
(** [np.diag(v)]. *)
Definition diag3 (v : vec3) : mat3 :=
  M3 (V3 (vx v) 0 0) (V3 0 (vy v) 0) (V3 0 0 (vz v)).
(** [m.transpose()]. *)
Definition transpose3 (m : mat3) : mat3 :=
  M3 (V3 (vx (row0 m)) (vx (row1 m)) (vx (row2 m)))
     (V3 (vy (row0 m)) (vy (row1 m)) (vy (row2 m)))
     (V3 (vz (row0 m)) (vz (row1 m)) (vz (row2 m))).
(** [np.dot(m, v)]: matrix times column vector. *)
Definition mat_vec3 (m : mat3) (v : vec3) : vec3 :=
  V3 (dot (row0 m) v) (dot (row1 m) v) (dot (row2 m) v).
(** [np.dot(v, m)]: row vector times matrix. *)
Definition vec_mat3 (v : vec3) (m : mat3) : vec3 :=
  mat_vec3 (transpose3 m) v.

Definition det3 (m : mat3) : R := dot (row0 m) (cross (row1 m) (row2 m)).

(** [np.linalg.inv] on a 3x3 array: the inverse (written with the adjugate),
    or [LinAlgError] for a singular matrix. *)
Definition inv3 (m : mat3) : outcome mat3 :=
  let d := det3 m in
  if Reqb d 0 then Raise LinAlgError
  else Ok (transpose3 (M3 (vdiv (cross (row1 m) (row2 m)) d)
                          (vdiv (cross (row2 m) (row0 m)) d)
                          (vdiv (cross (row0 m) (row1 m)) d))).


(** A [for i in range(start, start + n)] loop threading a state. *)
Fixpoint for_range {St : Type} (start n : nat) (body : nat -> St -> outcome St)
  (s : St) : outcome St :=
  match n with
  | O => Ok s
  | S k => s' <- body start s ;; for_range (S start) k body s'
  end.

(** ** Integrator *)

(** [euler_timestep(x, u, timestep)]. *)
Definition euler_timestep (x u timestep : R) : R := x + timestep * u.

(** [ab2_timestep(x, u, u_previous, timestep)]. *)
Definition ab2_timestep (x u u_previous timestep : R) : R :=
  x + timestep * (1.5 * u - 0.5 * u_previous).

(** ** Python lists of input quantities *)

(** One component of a prescribed or computed quantity: a number, the
    token ['pippa'] of an input that is not set, or the token ['chen'] the
    orchestrator fills its output lists with. *)
Inductive entry : Type :=
| Num (r : R)
| Pippa
| Chen.

(** A list of per-particle rows ([Fa_in], [Ua_in], ...); a row holds the
    components of the particle's vector or tensor. *)
Definition row : Type := list entry.
Definition table : Type := list row.

(** Float arrays of one and two dimensions. *)
Definition vector : Type := list R.
Definition matrix : Type := list vector.

(** ** What the functions print *)

(** An element of the configuration as [do_we_have_all_size_ratios] names it. *)
Inductive element_label : Type :=
| LabelSphere (i : nat)
| LabelDumbbell (i : nat).

(** A float that may be the outcome of a division by zero. *)
Inductive float : Type :=
| Fin (r : R)
| NotFinite.

(** The [print] calls, one constructor per block of lines; the values
    interpolated into the text are kept as they are. *)
Inductive message : Type :=
| MsgCodePointH (i : nat) (old_deltax new_deltax : vec3)
| MsgDumbbellLength (i : nat) (len : R)
| MsgSizeRatio (lam inv_lam : float) (e0 e1 : element_label)
| MsgSeparations (element_positions dumbbell_deltax : list vec3)
    (distance_matrix : list (list R))
    (distance_over_average_size : list (list float))
| MsgWarning (text : string)
| MsgQuantities (Ua Ub HalfDUb Oa Fa Fb DFb Ta Ea Sa : table).

(** ** Safety and diagnostics *)

(** [np.round(x, decimals)]: scale, round half to even, scale back. *)
Definition rint (y : R) : Z :=
  let n := Int_part y in
  let f := frac_part y in
  if Rltb f (1 / 2) then n
  else if Rltb (1 / 2) f then (n + 1)%Z
  else if Z.even n then n else (n + 1)%Z.

Definition np_round (x : R) (decimals : nat) : R :=
  IZR (rint (x * 10 ^ decimals)) / 10 ^ decimals.

(** The test of line 48,
    [arccos(round(dot(old, new) / (norm(old) * norm(new)), 4)) > pi / 2].
    With a zero vector the quotient is [0/0], a NaN, and a comparison with a
    NaN is false. *)
Definition rotated_too_far (old new : vec3) : bool :=
  let d := norm old * norm new in
  if Reqb d 0 then false
  else Rltb (PI / 2) (acos (np_round (dot old new / d) 4)).

(** Lines 48-60: the body of the loop, on the log and the error flag. *)
Definition check_dumbbell (dumbbell_deltax new_dumbbell_deltax : list vec3)
  (explosion_protection : bool) (i : nat) (state : list message * bool)
  : outcome (list message * bool) :=
  let '(log, error) := state in
  old <- index dumbbell_deltax i ;;
  new <- index new_dumbbell_deltax i ;;
  let log :=
    if rotated_too_far old new
    then log ++ [MsgCodePointH i old new] else log in
  if explosion_protection && Rltb 5 (norm new)
  then Ok (log ++ [MsgDumbbellLength i (norm new)], true)
  else Ok (log, error).

Definition did_something_go_wrong_with_dumbells
  (error : bool) (dumbbell_deltax new_dumbbell_deltax : list vec3)
  (explosion_protection : bool) : outcome (list message * bool) :=
  for_range 0 (length new_dumbbell_deltax)
    (check_dumbbell dumbbell_deltax new_dumbbell_deltax explosion_protection)
    ([], error).

(** The test of line 53 on the length of a dumbbell. *)
Definition too_long (new_deltax : vec3) : bool := Rltb 5 (norm new_deltax).

(** Float division: [x / 0] is an infinity or a NaN. *)
Definition fdiv (x y : R) : float :=
  if Reqb y 0 then NotFinite else Fin (x / y).

(** Equality test of [np.in1d]; an infinity or a NaN is taken to equal
    nothing (sizes and lookup values are positive radii ratios). *)
Definition float_eqb (a b : float) : bool :=
  match a, b with
  | Fin x, Fin y => Reqb x y
  | _, _ => false
  end.

Definition in1d (x : float) (l : list float) : bool := existsb (float_eqb x) l.

(** Indices [(row, column)] of the [False] entries, in row-major order:
    [np.where(m == 0)]. *)
Definition where_false_row (i : nat) (row : list bool) : list (nat * nat) :=
  map (fun j => (i, j))
      (filter (fun j => negb (nth j row true)) (seq 0 (length row))).

Definition where_false (m : list (list bool)) : list (nat * nat) :=
  concat (map (fun i => where_false_row i (nth i m [])) (seq 0 (length m))).

(** [element_sizes / element_sizes[:, None]]. *)
Definition lambda_matrix (element_sizes : list R) : list (list float) :=
  map (fun si => map (fun sj => fdiv sj si) element_sizes) element_sizes.

Definition offending_elements (element_sizes lam_range : list R) : list (nat * nat) :=
  let lam_range_including_reciprocals :=
    map Fin lam_range ++ map (fun l => fdiv 1 l) lam_range in
  let do_we_have_it_matrix :=
    map (map (fun x => in1d x lam_range_including_reciprocals))
        (lambda_matrix element_sizes) in
  where_false do_we_have_it_matrix.

Definition float_inv (x : float) : float :=
  match x with
  | Fin r => fdiv 1 r
  | NotFinite => NotFinite
  end.

Definition do_we_have_all_size_ratios
  (error : bool) (element_sizes lam_range : list R) (num_spheres : nat)
  : outcome (list message * bool) :=
  let offending := offending_elements element_sizes lam_range in
  let offending_0 := map fst offending in
  if (0 <? length offending_0)%nat then
    i0 <- index offending_0 0 ;;
    i1 <- index offending_0 1 ;;
    row <- index (lambda_matrix element_sizes) i0 ;;
    offending_lambda_1 <- index row i1 ;;
    let label i :=
      if (num_spheres <=? i)%nat then LabelDumbbell (i - num_spheres)
      else LabelSphere i in
    Ok ([MsgSizeRatio offending_lambda_1 (float_inv offending_lambda_1)
           (label i0) (label i1)], true)
  else Ok ([], error).

(** Element-wise operation on two arrays of rows; NumPy raises [ValueError]
    when the row counts differ (broadcasting of a one-row array is left out:
    the arrays of a configuration hold one row per particle). *)
Definition zip_rows {A B C : Type} (f : A -> B -> C) (a : list A) (b : list B)
  : outcome (list C) :=
  if (length a =? length b)%nat
  then Ok (map (fun p => f (fst p) (snd p)) (combine a b))
  else Raise ValueError.

Definition are_some_of_the_particles_too_close
  (error : bool) (printout : Z) (s_dash_range : list R)
  (sphere_positions dumbbell_positions dumbbell_deltax : list vec3)
  (sphere_sizes dumbbell_sizes : list R) (element_positions : list vec3)
  : outcome (list message * bool) :=
  bead1 <- zip_rows (fun x dx => vadd x (vscale 0.5 dx))
             dumbbell_positions dumbbell_deltax ;;
  bead2 <- zip_rows (fun x dx => vsub x (vscale 0.5 dx))
             dumbbell_positions dumbbell_deltax ;;
  let sphere_and_bead_positions := sphere_positions ++ bead1 ++ bead2 in
  let sphere_and_bead_sizes := sphere_sizes ++ dumbbell_sizes ++ dumbbell_sizes in
  let distance_matrix :=
    map (fun xi => map (fun xj => norm (vsub xj xi)) sphere_and_bead_positions)
        sphere_and_bead_positions in
  let average_size :=
    map (fun si => map (fun sj => 0.5 * (sj + si)) sphere_and_bead_sizes)
        sphere_and_bead_sizes in
  distance_over_average_size <-
    zip_rows (fun drow arow => map (fun p => fdiv (fst p) (snd p)) (combine drow arow))
      distance_matrix average_size ;;
  let log :=
    if (0 <? printout)%Z
    then [MsgSeparations element_positions dumbbell_deltax distance_matrix
            distance_over_average_size]
    else [] in
  Ok (log, error).

(** ** Rotation updater *)

(** A marker position as the updater leaves it: a vector, or the all-NaN
    vector NumPy computes when the marker sits on the sphere centre
    ([z0 / r0] is then [0/0]). *)
Inductive fvec3 : Type :=
| Finite (v : vec3)
| NaN3.

(** [np.allclose(a, b)] with NumPy's default tolerances. *)
Definition rtol : R := 1 / 100000.
Definition atol : R := 1 / 100000000.

Definition isclose (a b : R) : bool := Rleb (Rabs (a - b)) (atol + rtol * Rabs b).

Definition allclose (a b : vec3) : bool :=
  isclose (vx a) (vx b) && isclose (vy a) (vy b) && isclose (vz a) (vz b).

(** [np.arctan2(y, x)]. *)
Definition arctan2 (y x : R) : R :=
  if Rltb 0 x then atan (y / x)
  else if Rltb x 0 then
         if Rleb 0 y then atan (y / x) + PI else atan (y / x) - PI
  else if Rltb 0 y then PI / 2
  else if Rltb y 0 then - (PI / 2)
  else 0.

(** Line 74: the angular speed [O]. *)
Definition angular_speed (Oa : vec3) : R :=
  sqrt (vx Oa ^ 2 + vy Oa ^ 2 + vz Oa ^ 2).

(** Lines 93: the helper axis [perp1]. *)
Definition perp1 (Oa : vec3) : vec3 :=
  let O := angular_speed Oa in
  let Otest := vabs (vdiv Oa O) in
  if allclose Otest (V3 1 0 0) then V3 0 0 1 else V3 1 0 0.

(** Lines 89-97: [rot_matrix]. *)
Definition rot_matrix (Oa : vec3) : mat3 :=
  let O := angular_speed Oa in
  if vec3_eqb Oa (V3 0 0 0) then identity3
  else
    transpose3 (M3 (vdiv (cross Oa (perp1 Oa)) O)
                   (vdiv (cross Oa (cross Oa (perp1 Oa))) (O ^ 2))
                   (vdiv Oa O)).

(** Lines 108-123 and the product of line 125: the marker's new offset from
    the sphere centre, [np.dot(rot_matrix, rbdashdash_xyz)]. *)
Definition rotated_offset (rot_matrix : mat3) (O timestep : R)
  (R0 rb0 : vec3) : outcome fvec3 :=
  inv_rot <- inv3 rot_matrix ;;
  let rbdashdash0_xyz := mat_vec3 inv_rot (vsub rb0 R0) in
  let x0 := vx rbdashdash0_xyz in
  let y0 := vy rbdashdash0_xyz in
  let z0 := vz rbdashdash0_xyz in
  let r0 := sqrt (x0 ^ 2 + y0 ^ 2 + z0 ^ 2) in
  if Reqb r0 0 then Ok NaN3
  else
    let t0 := acos (z0 / r0) in
    let p0 := if Reqb x0 0 && Reqb y0 0 then 0 else arctan2 y0 x0 in
    let r := r0 in
    let t := t0 in
    let p := euler_timestep p0 O timestep in
    let x := r * sin t * cos p in
    let y := r * sin t * sin p in
    let z := r * cos t in
    let rbdashdash_xyz := V3 x y z in
    Ok (Finite (mat_vec3 rot_matrix rbdashdash_xyz)).

(** [R + offset]; a NaN stays a NaN. *)
Definition translate (R : vec3) (offset : fvec3) : fvec3 :=
  match offset with
  | Finite v => Finite (vadd R v)
  | NaN3 => NaN3
  end.

(** Row [i] of an array of shape (N, 2, 3): the two markers of sphere [i]. *)
Definition marker {A : Type} (pair : A * A) (j : nat) : outcome A :=
  match j with
  | 0%nat => Ok (fst pair)
  | 1%nat => Ok (snd pair)
  | _ => Raise IndexError
  end.

Definition set_marker {A : Type} (pair : A * A) (j : nat) (a : A) : outcome (A * A) :=
  match j with
  | 0%nat => Ok (a, snd pair)
  | 1%nat => Ok (fst pair, a)
  | _ => Raise IndexError
  end.

(** Lines 103-126: the body of the loop on the two markers of sphere [i]. *)
Definition update_marker (sphere_rotations : list (vec3 * vec3))
  (new_sphere_positions : list vec3) (timestep : R)
  (i : nat) (R0 : vec3) (O : R) (rot_matrix : mat3)
  (j : nat) (new_sphere_rotations : list (fvec3 * fvec3))
  : outcome (list (fvec3 * fvec3)) :=
  markers <- index sphere_rotations i ;;
  rb0 <- marker markers j ;;
  offset <- rotated_offset rot_matrix O timestep R0 rb0 ;;
  R <- index new_sphere_positions i ;;
  let rb := translate R offset in
  new_markers <- index new_sphere_rotations i ;;
  new_markers <- set_marker new_markers j rb ;;
  store new_sphere_rotations i new_markers.

(** Lines 73-126: the body of the loop on the spheres. *)
Definition update_sphere (sphere_positions : list vec3)
  (sphere_rotations : list (vec3 * vec3)) (new_sphere_positions : list vec3)
  (Oa_out : list vec3) (timestep : R)
  (i : nat) (new_sphere_rotations : list (fvec3 * fvec3))
  : outcome (list (fvec3 * fvec3)) :=
  R0 <- index sphere_positions i ;;
  Oa <- index Oa_out i ;;
  let O := angular_speed Oa in
  let rot := rot_matrix Oa in
  for_range 0 2
    (update_marker sphere_rotations new_sphere_positions timestep i R0 O rot)
    new_sphere_rotations.

Definition euler_timestep_rotation
  (sphere_positions : list vec3) (sphere_rotations : list (vec3 * vec3))
  (new_sphere_positions : list vec3) (new_sphere_rotations : list (fvec3 * fvec3))
  (Oa_out : list vec3) (timestep : R) : outcome (list (fvec3 * fvec3)) :=
  for_range 0 (length sphere_positions)
    (update_sphere sphere_positions sphere_rotations new_sphere_positions
       Oa_out timestep)
    new_sphere_rotations.

Definition ab2_timestep_rotation
  (sphere_positions : list vec3) (sphere_rotations : list (vec3 * vec3))
  (new_sphere_positions : list vec3) (new_sphere_rotations : list (fvec3 * fvec3))
  (Oa_out Oa_out_previous : list vec3) (timestep : R)
  : outcome (list (fvec3 * fvec3)) :=
  combined_Oa_for_ab2 <-
    zip_rows (fun o op => vsub (vscale 1.5 o) (vscale 0.5 op))
      Oa_out Oa_out_previous ;;
  euler_timestep_rotation sphere_positions sphere_rotations
    new_sphere_positions new_sphere_rotations combined_Oa_for_ab2 timestep.

(** ** ETA estimator *)

(** [range(a, b)] on integers. *)
Definition range (a b : Z) : list Z :=
  map (fun k => (a + Z.of_nat k)%Z) (seq 0 (Z.to_nat (b - a))).

(** [i % n] on integers: Python's remainder has the sign of the divisor, as
    [Z.modulo] has, and raises on a zero divisor. *)
Definition py_mod (i n : Z) : outcome Z :=
  if (n =? 0)%Z then Raise ZeroDivisionError else Ok (i mod n)%Z.

(** [l[i]] for an integer index: a negative index counts from the end. *)
Definition py_index {A : Type} (l : list A) (i : Z) : outcome A :=
  let n := Z.of_nat (length l) in
  if (0 <=? i)%Z then index l (Z.to_nat i)
  else if (0 <=? i + n)%Z then index l (Z.to_nat (i + n))
  else Raise IndexError.

(** [[body(i) for i in l if cond(i)]]. *)
Fixpoint comprehension {A B : Type} (body : A -> outcome B)
  (cond : A -> outcome bool) (l : list A) : outcome (list B) :=
  match l with
  | [] => Ok []
  | i :: rest =>
      c <- cond i ;;
      if c then
        b <- body i ;;
        bs <- comprehension body cond rest ;;
        Ok (b :: bs)
      else comprehension body cond rest
  end.

(** [sum(l)] of floats. *)
Definition sum (l : list R) : R := fold_left Rplus l 0.

(** [len(l)] used as a float. *)
Definition len {A : Type} (l : list A) : R := INR (length l).

(** [calculate_time_left]; [DISABLE_JIT] is [numba.config.DISABLE_JIT]. *)
Definition calculate_time_left (DISABLE_JIT : bool)
  (times : list R) (frameno num_frames invert_m_every
   checkpoint_start_from_frame : Z) : outcome (R * string) :=
  longtimes <-
    comprehension (py_index times)
      (fun i => m <- py_mod i invert_m_every ;;
                Ok ((m =? 0)%Z || (i =? checkpoint_start_from_frame)%Z))
      (range checkpoint_start_from_frame (frameno + 1)) ;;
  let '(numba_compilation_time_not_discounted_flag, longtimeaverage) :=
    if negb DISABLE_JIT then
      if (2 <=? length longtimes)%nat then
        (EmptyString, sum (tl longtimes) / len (tl longtimes))
      else if (length longtimes =? 1)%nat then
        ("<"%string, hd 0 longtimes)
      else (EmptyString, 0)
    else
      if (0 <? length longtimes)%nat then
        (EmptyString, sum longtimes / len longtimes)
      else (EmptyString, 0) in
  shorttimes <-
    comprehension (py_index times)
      (fun i => m <- py_mod i invert_m_every ;;
                Ok (negb (m =? 0)%Z && negb (i =? checkpoint_start_from_frame)%Z))
      (range checkpoint_start_from_frame (frameno + 1)) ;;
  let shorttimeaverage :=
    if negb (length shorttimes =? 0)%nat
    then sum shorttimes / len shorttimes
    else longtimeaverage in
  left_long <-
    comprehension (fun i => Ok i)
      (fun i => m <- py_mod i invert_m_every ;; Ok (m =? 0)%Z)
      (range (frameno + 1) num_frames) ;;
  let numberoflongtimesleft := length left_long in
  left_short <-
    comprehension (fun i => Ok i)
      (fun i => m <- py_mod i invert_m_every ;; Ok (negb (m =? 0)%Z))
      (range (frameno + 1) num_frames) ;;
  let numberofshorttimesleft := length left_short in
  let timeleft :=
    (INR numberofshorttimesleft * shorttimeaverage
     + INR numberoflongtimesleft * longtimeaverage) * 1.03 in
  let no_short_times_yet_flag :=
    if (frameno - checkpoint_start_from_frame =? 0)%Z
       && (0 <? numberofshorttimesleft)%nat
    then "<"%string else EmptyString in
  let flags :=
    (numba_compilation_time_not_discounted_flag ++ no_short_times_yet_flag)%string in
  Ok (timeleft, flags).

(** ** Periodic box *)

(** [np.mod(x, 1)] on a float: [x - floor(x)]. *)
Definition np_mod1 (x : R) : R := x - IZR (Int_part x).

(** Default values of the keyword arguments of [wrap_around]. *)
Definition default_Ot_infinity : vec3 := V3 0 0 0.
Definition default_Et_infinity : mat3 := M3 (V3 1 0 0) (V3 0 1 0) (V3 0 0 1).

(** [wrap_around].  [shear_basis_vectors] is imported from
    [functions_shared], which is not part of the sources at hand: it is a
    parameter of the model, called with the arguments of line 600. *)
Definition wrap_around
  (shear_basis_vectors : mat3 -> vec3 -> vec3 -> mat3 -> mat3)
  (new_sphere_positions : list vec3) (box_bottom_left box_top_right : vec3)
  (Ot_infinity : vec3) (Et_infinity : mat3) : outcome (list vec3) :=
  let box_dimensions := vsub box_top_right box_bottom_left in
  let basis_canonical := diag3 box_dimensions in
  let sheared_basis_vectors :=
    shear_basis_vectors basis_canonical box_dimensions Ot_infinity Et_infinity in
  inv_basis <- inv3 sheared_basis_vectors ;;
  Ok (map (fun x =>
             vec_mat3
               (vmap (fun c => c - 0.5)
                  (vmap np_mod1
                     (vmap (fun c => c + 0.5) (vec_mat3 x inv_basis))))
               sheared_basis_vectors)
          new_sphere_positions).

(** A coordinate axis, and the coordinate of a vector along it. *)
Inductive axis : Type := AxisX | AxisY | AxisZ.

Definition coord (a : axis) (v : vec3) : R :=
  match a with
  | AxisX => vx v
  | AxisY => vy v
  | AxisZ => vz v
  end.

(** ** Dense linear algebra *)

(** [np.dot] of two one-dimensional arrays. *)
Fixpoint dotv (a b : vector) : R :=
  match a, b with
  | x :: a', y :: b' => x * y + dotv a' b'
  | _, _ => 0
  end.

(** [np.dot(m, v)]. *)
Definition mat_vec (m : matrix) (v : vector) : vector :=
  map (fun r => dotv r v) m.

Definition scalev (k : R) (a : vector) : vector := map (Rmult k) a.

Fixpoint subv (a b : vector) : vector :=
  match a, b with
  | x :: a', y :: b' => (x - y) :: subv a' b'
  | _, _ => []
  end.

(** One equation of a linear system: coefficients and right-hand side. *)
Definition equation : Type := (vector * R)%type.

Definition lead (e : equation) : R := hd 0 (fst e).

(** The first equation whose leading coefficient is not zero, and the
    other equations. *)
Fixpoint find_pivot (eqs : list equation) : option (equation * list equation) :=
  match eqs with
  | [] => None
  | e :: rest =>
      if Reqb (lead e) 0 then
        match find_pivot rest with
        | Some (p, others) => Some (p, e :: others)
        | None => None
        end
      else Some (e, rest)
  end.

(** Subtract from [e] the multiple of the pivot equation that cancels its
    leading coefficient, and drop that coefficient. *)
Definition eliminate (pivot e : equation) : equation :=
  let k := lead e / lead pivot in
  (subv (tl (fst e)) (scalev k (tl (fst pivot))), snd e - k * snd pivot).

(** Gaussian elimination with row exchange on [n] unknowns, then back
    substitution. [None] when a column has no pivot. *)
Fixpoint gauss (n : nat) (eqs : list equation) : option vector :=
  match n with
  | O => Some []
  | S k =>
      match find_pivot eqs with
      | None => None
      | Some (pivot, others) =>
          match gauss k (map (eliminate pivot) others) with
          | None => None
          | Some xs =>
              Some ((snd pivot - dotv (tl (fst pivot)) xs) / lead pivot :: xs)
          end
      end
  end.

(** [np.linalg.solve(a, b)] for a one-dimensional [b] (LAPACK [gesv]: LU
    factorisation with row exchanges).  In exact arithmetic the solution of a
    non-singular system does not depend on the choice of the pivots; the
    model takes the first non-zero one.  A matrix that is not square or is
    singular raises [LinAlgError], a right-hand side of the wrong length
    [ValueError]. *)
Definition linalg_solve (a : matrix) (b : vector) : outcome vector :=
  let n := length a in
  if negb (forallb (fun r => (length r =? n)%nat) a) then Raise LinAlgError
  else if negb (length b =? n)%nat then Raise ValueError
  else match gauss n (combine a b) with
       | Some x => Ok x
       | None => Raise LinAlgError
       end.

(** Column [j] of the identity matrix of size [n]. *)
Definition unit_vector (n j : nat) : vector :=
  map (fun i => if (i =? j)%nat then 1 else 0) (seq 0 n).

(** [m.transpose()] for [n] columns. *)
Definition transpose (n : nat) (m : matrix) : matrix :=
  map (fun j => map (fun r => nth j r 0) m) (seq 0 n).

(** Sequence a list of computations. *)
Fixpoint sequence {A : Type} (l : list (outcome A)) : outcome (list A) :=
  match l with
  | [] => Ok []
  | m :: rest => a <- m ;; r <- sequence rest ;; Ok (a :: r)
  end.

(** [np.linalg.inv(a)]: column [j] of the inverse solves [a x = e_j]. *)
Definition linalg_inv (a : matrix) : outcome matrix :=
  let n := length a in
  columns <- sequence (map (fun j => linalg_solve a (unit_vector n j)) (seq 0 n)) ;;
  Ok (transpose n columns).

(** [np.dot(m, v)] with NumPy's shape check. *)
Definition np_dot (m : matrix) (v : vector) : outcome vector :=
  if forallb (fun r => (length r =? length v)%nat) m
  then Ok (mat_vec m v) else Raise ValueError.

(** A matrix is square of size [n]. *)
Definition square (n : nat) (m : matrix) : Prop :=
  length m = n /\ Forall (fun r => length r = n) m.

(** A square matrix is non-singular when only the zero vector is mapped to
    zero. *)
Definition nonsingular (m : matrix) : Prop :=
  square (length m) m /\
  forall v, length v = length m ->
            mat_vec m v = repeat 0 (length m) -> v = repeat 0 (length m).

(** ** Solve orchestrator *)

(** Modelled from the spec: [posdata] and [posdata_data] belong to
    [functions_shared], which is not part of the sources at hand; the
    particle set of the data model (spheres with size, position and two
    rotation markers, dumbbells with bead size, centre and displacement). *)
Record posdata : Type := {
  sphere_sizes : list R;
  sphere_positions : list vec3;
  sphere_rotations : list (vec3 * vec3);
  dumbbell_sizes : list R;
  dumbbell_positions : list vec3;
  dumbbell_deltax : list vec3
}.

(** The tuple [input_ftsuoe] returns. *)
Record inputs : Type := {
  Fa_in : table; Ta_in : table; Sa_in : table; Sa_c_in : table;
  Fb_in : table; DFb_in : table;
  Ua_in : table; Oa_in : table; Ea_in : table; Ea_c_in : table;
  Ub_in : table; HalfDUb_in : table;
  input_description : string;
  U_infinity : vec3; O_infinity : vec3; centre_of_background_flow : vec3;
  Ot_infinity : vec3; Et_infinity : mat3;
  box_bottom_left : vec3; box_top_right : vec3;
  mu : R
}.

(** The five arrays [deconstruct_velocity_vector_for_fts] returns. *)
Definition velocities : Type := (matrix * matrix * matrix * matrix * matrix)%type.

(** The tuple the matrix generators return:
    [(grand_resistance_matrix, heading, last_generated_Minfinity_inverse,
      gen_times)]. *)
Definition generated : Type := (matrix * string * matrix * list R)%type.

(** The functions [generate_output_FTSUOE] calls that live in other modules
    of the repository ([input_setups], [functions_simulation_tools],
    [functions_generate_grand_resistance_matrix]), with their arguments in the
    order of the calls (a keyword argument a call leaves out is [None]), and
    the duration the two readings of [time.time()] measure. *)
Record collaborators : Type := {
  input_ftsuoe :
    forall (input_number : Z) (p : posdata) (frameno : Z) (timestep : R)
           (last_velocities : list matrix) (input_form : string)
           (skip_computation : option bool)
           (grand_resistance_matrix_fte : option matrix), outcome inputs;
  generate_grand_resistance_matrix_periodic :
    forall (p : posdata) (last_generated_Minfinity_inverse : matrix)
           (box_bottom_left box_top_right : vec3)
           (regenerate_Minfinity : bool) (cutoff_factor : R) (printout : Z)
           (use_drag_Minfinity use_Minfinity_only : bool) (frameno : Z)
           (mu : R) (O_infinity : vec3) (E_infinity : row) (timestep : R)
           (centre_of_background_flow Ot_infinity : vec3)
           (Et_infinity : mat3), outcome generated;
  generate_grand_resistance_matrix :
    forall (p : posdata) (last_generated_Minfinity_inverse : matrix)
           (regenerate_Minfinity : bool) (cutoff_factor : R) (printout : Z)
           (use_drag_Minfinity use_Minfinity_only : bool) (frameno : Z)
           (mu : R), outcome generated;
  construct_force_vector_from_fts :
    posdata -> table -> table -> table -> table -> table -> outcome vector;
  deconstruct_velocity_vector_for_fts : posdata -> vector -> outcome velocities;
  fts_to_fte_matrix : posdata -> matrix -> outcome matrix;
  fte_to_ufte_matrix : nat -> posdata -> matrix -> outcome matrix;
  ufte_to_ufteu_matrix : nat -> nat -> posdata -> matrix -> outcome matrix;
  fts_to_duf_matrix : nat -> posdata -> matrix -> outcome matrix;
  elapsed_solve_time : R
}.

(** What [force_on_wall_due_to_dumbbells] can hold: the integer it is
    initialised with, or the array of the UFTE extraction. *)
Inductive wall_force : Type :=
| WallInt (z : Z)
| WallArray (a : matrix).

(** The tuple [generate_output_FTSUOE] returns.  An output quantity is a
    Python list or a float array ([of_array]), as the mode leaves it. *)
Record output : Type := {
  Fa_out : table; Ta_out : table; Sa_out : table;
  Fb_out : table; DFb_out : table;
  Ua_out : table; Oa_out : table; Ea_out : table;
  Ub_out : table; HalfDUb_out : table;
  out_last_generated_Minfinity_inverse : matrix;
  gen_times : list R;
  out_U_infinity : vec3; out_O_infinity : vec3;
  out_centre_of_background_flow : vec3;
  out_Ot_infinity : vec3; out_Et_infinity : mat3;
  force_on_wall_due_to_dumbbells : wall_force;
  out_last_velocity_vector : vector
}.

(** A float array seen as a list of rows. *)
Definition of_array (a : matrix) : table := map (map Num) a.

(** The numbers of a list of rows; [e] is raised at a token. *)
Definition entry_float (e : failure) (x : entry) : outcome R :=
  match x with
  | Num r => Ok r
  | Pippa | Chen => Raise e
  end.

Definition numbers (e : failure) (t : table) : outcome matrix :=
  sequence (map (fun r => sequence (map (entry_float e) r)) t).

(** [np.asarray(t, float)]: a token cannot be converted, and the rows must
    have one length. *)
Definition asarray_float (t : table) : outcome matrix :=
  a <- numbers ValueError t ;;
  if forallb (fun r => (length r =? length (hd [] a))%nat) a
  then Ok a else Raise ValueError.

Definition entry_is_pippa (e : entry) : bool :=
  match e with
  | Pippa => true
  | _ => false
  end.

(** [r == ['pippa', 'pippa', 'pippa']]. *)
Definition row_is_pippa (r : row) : bool :=
  (length r =? 3)%nat && forallb entry_is_pippa r.

(** [t.count(['pippa', 'pippa', 'pippa'])]. *)
Definition count_pippa (t : table) : nat := length (filter row_is_pippa t).

(** [l[a:b]] and [l[a:b] = t] for natural bounds. *)
Definition slice {A : Type} (l : list A) (a b : nat) : list A :=
  firstn (b - a) (skipn a l).

Definition slice_assign {A : Type} (l : list A) (a b : nat) (t : list A) : list A :=
  firstn a l ++ t ++ skipn (Nat.max a b) l.

(** [[['chen', 'chen', 'chen'] for i in range(n)]]. *)
Definition chen_rows (n : nat) : table := repeat [Chen; Chen; Chen] n.

(** The [try: ... except: throw_error(...)] around the construction of the
    force vector.  Modelled from the spec: [throw_error] belongs to
    [functions_shared], which is not part of the sources at hand; the spec
    has the mode fail with a [ConfigurationError]. *)
Definition or_throw_error {A : Type} (m : outcome A) : outcome A :=
  match m with
  | Ok a => Ok a
  | Raise _ => Raise ConfigurationError
  end.

(** The assignments of lines 353-358, 395-400, 402-413 and 431-442: an output
    list whose first [k] rows come from [head] and whose other rows, up to
    [n], come from [rest]. *)
Definition spliced (n k : nat) (head rest : table) : table :=
  let out := chen_rows n in
  let out := slice_assign out 0 k (slice head 0 k) in
  slice_assign out k n (slice rest k n).

(** The local variables a mode assigns: the inputs in force and the output
    quantities. *)
Record locals : Type := {
  l_inputs : inputs;
  l_Fa_out : table; l_Ta_out : table; l_Sa_out : table;
  l_Fb_out : table; l_DFb_out : table;
  l_Ua_out : table; l_Oa_out : table; l_Ea_out : table;
  l_Ub_out : table; l_HalfDUb_out : table;
  l_log : list message
}.

Definition warning_ufteu : string :=
  "WARNING: Cannot extract force on wall due to dumbbells in UFTEU mode. Use UFTE mode instead.".

(** Lines 293-302. *)
Definition mode_fts (c : collaborators) (p : posdata) (i : inputs)
  (grand_resistance_matrix : matrix) (num_spheres : nat) : outcome locals :=
  force_vector <-
    or_throw_error
      (construct_force_vector_from_fts c p
         (Fa_in i) (Ta_in i) (Sa_in i) (Fb_in i) (DFb_in i)) ;;
  velocity_vector <- linalg_solve grand_resistance_matrix force_vector ;;
  ' (Ua, Oa, Ea, Ub, HalfDUb) <-
    deconstruct_velocity_vector_for_fts c p velocity_vector ;;
  Ok {| l_inputs := i;
        l_Fa_out := Fa_in i; l_Ta_out := Ta_in i; l_Sa_out := Sa_in i;
        l_Fb_out := Fb_in i; l_DFb_out := DFb_in i;
        l_Ua_out := of_array Ua; l_Oa_out := of_array Oa;
        l_Ea_out := if (num_spheres =? 0)%nat then Ea_in i else of_array Ea;
        l_Ub_out := of_array Ub; l_HalfDUb_out := of_array HalfDUb;
        l_log := [] |}.

(** Lines 304-331. *)
Definition mode_fte (c : collaborators) (p : posdata)
  (input_number frameno : Z) (timestep : R) (last_velocities : list matrix)
  (input_form : string)
  (grand_resistance_matrix : matrix) (num_spheres : nat) : outcome locals :=
  grand_resistance_matrix <- fts_to_fte_matrix c p grand_resistance_matrix ;;
  i <- input_ftsuoe c input_number p frameno timestep last_velocities
         input_form None (Some grand_resistance_matrix) ;;
  force_vector <-
    or_throw_error
      (construct_force_vector_from_fts c p
         (Fa_in i) (Ta_in i) (Ea_in i) (Fb_in i) (DFb_in i)) ;;
  velocity_vector <- linalg_solve grand_resistance_matrix force_vector ;;
  ' (Ua, Oa, Sa, Ub, HalfDUb) <-
    deconstruct_velocity_vector_for_fts c p velocity_vector ;;
  Ok {| l_inputs := i;
        l_Fa_out := Fa_in i; l_Ta_out := Ta_in i; l_Sa_out := of_array Sa;
        l_Fb_out := Fb_in i; l_DFb_out := DFb_in i;
        l_Ua_out := of_array Ua; l_Oa_out := of_array Oa;
        l_Ea_out := Ea_in i;
        l_Ub_out := of_array Ub; l_HalfDUb_out := of_array HalfDUb;
        l_log := [] |}.

(** Lines 333-368.  With the extraction requested no output list is
    assigned, and line 368 passes the float [len(...)/3] to [reshape]. *)
Definition mode_ufte (c : collaborators) (p : posdata) (i : inputs)
  (grand_resistance_matrix : matrix) (num_spheres : nat)
  (extract_force_on_wall_due_to_dumbbells : bool) : outcome locals :=
  let num_fixed_velocity_spheres := (num_spheres - count_pippa (Ua_in i))%nat in
  force_vector <-
    or_throw_error
      (construct_force_vector_from_fts c p
         (slice (Ua_in i) 0 num_fixed_velocity_spheres
          ++ slice (Fa_in i) num_fixed_velocity_spheres num_spheres)
         (Ta_in i) (Ea_in i) (Fb_in i) (DFb_in i)) ;;
  grand_resistance_matrix_fte <- fts_to_fte_matrix c p grand_resistance_matrix ;;
  grand_resistance_matrix_ufte <-
    fte_to_ufte_matrix c num_fixed_velocity_spheres p grand_resistance_matrix_fte ;;
  if extract_force_on_wall_due_to_dumbbells then
    grand_mobility_matrix_ufte <- linalg_inv grand_resistance_matrix_ufte ;;
    velocity_vector <- np_dot grand_mobility_matrix_ufte force_vector ;;
    let force_on_wall_due_to_dumbbells_matrix :=
      map (skipn (11 * num_spheres))
          (firstn (num_fixed_velocity_spheres * 3) grand_mobility_matrix_ufte) in
    let dumbbell_forces := skipn (11 * num_spheres) force_vector in
    force_on_wall_due_to_dumbbells_flat <-
      np_dot force_on_wall_due_to_dumbbells_matrix dumbbell_forces ;;
    Raise TypeError
  else
    velocity_vector <- linalg_solve grand_resistance_matrix_ufte force_vector ;;
    ' (FUa, Oa, Sa, Ub, HalfDUb) <-
      deconstruct_velocity_vector_for_fts c p velocity_vector ;;
    Ok {| l_inputs := i;
          l_Fa_out := spliced num_spheres num_fixed_velocity_spheres
                        (of_array FUa) (Fa_in i);
          l_Ta_out := Ta_in i; l_Sa_out := of_array Sa;
          l_Fb_out := Fb_in i; l_DFb_out := DFb_in i;
          l_Ua_out := spliced num_spheres num_fixed_velocity_spheres
                        (Ua_in i) (of_array FUa);
          l_Oa_out := of_array Oa;
          l_Ea_out := Ea_in i;
          l_Ub_out := of_array Ub; l_HalfDUb_out := of_array HalfDUb;
          l_log := [] |}.

(** Lines 370-415. *)
Definition mode_ufteu (c : collaborators) (p : posdata) (i : inputs)
  (grand_resistance_matrix : matrix) (num_spheres num_dumbbells : nat)
  (extract_force_on_wall_due_to_dumbbells : bool) : outcome locals :=
  let num_fixed_velocity_spheres := (num_spheres - count_pippa (Ua_in i))%nat in
  let num_fixed_velocity_dumbbells := (num_dumbbells - count_pippa (Ub_in i))%nat in
  force_vector <-
    or_throw_error
      (construct_force_vector_from_fts c p
         (slice (Ua_in i) 0 num_fixed_velocity_spheres
          ++ slice (Fa_in i) num_fixed_velocity_spheres num_spheres)
         (Ta_in i) (Ea_in i)
         (slice (Ub_in i) 0 num_fixed_velocity_dumbbells
          ++ slice (Fb_in i) num_fixed_velocity_dumbbells num_dumbbells)
         (slice (HalfDUb_in i) 0 num_fixed_velocity_dumbbells
          ++ slice (DFb_in i) num_fixed_velocity_dumbbells num_dumbbells)) ;;
  grand_resistance_matrix_fte <- fts_to_fte_matrix c p grand_resistance_matrix ;;
  grand_resistance_matrix_ufte <-
    fte_to_ufte_matrix c num_fixed_velocity_spheres p grand_resistance_matrix_fte ;;
  grand_resistance_matrix_ufteu <-
    ufte_to_ufteu_matrix c num_fixed_velocity_dumbbells num_fixed_velocity_spheres
      p grand_resistance_matrix_ufte ;;
  velocity_vector <- linalg_solve grand_resistance_matrix_ufteu force_vector ;;
  ' (FUa, Oa, Sa, FUb, DFUb) <-
    deconstruct_velocity_vector_for_fts c p velocity_vector ;;
  Ok {| l_inputs := i;
        l_Fa_out := spliced num_spheres num_fixed_velocity_spheres
                      (of_array FUa) (Fa_in i);
        l_Ta_out := Ta_in i; l_Sa_out := of_array Sa;
        l_Fb_out := spliced num_dumbbells num_fixed_velocity_dumbbells
                      (of_array FUb) (Fb_in i);
        l_DFb_out := spliced num_dumbbells num_fixed_velocity_dumbbells
                       (of_array DFUb) (DFb_in i);
        l_Ua_out := spliced num_spheres num_fixed_velocity_spheres
                      (Ua_in i) (of_array FUa);
        l_Oa_out := of_array Oa;
        l_Ea_out := Ea_in i;
        l_Ub_out := spliced num_dumbbells num_fixed_velocity_dumbbells
                      (Ub_in i) (of_array FUb);
        l_HalfDUb_out := spliced num_dumbbells num_fixed_velocity_dumbbells
                           (HalfDUb_in i) (of_array DFUb);
        l_log := if extract_force_on_wall_due_to_dumbbells
                 then [MsgWarning warning_ufteu] else [] |}.

(** Lines 417-444. *)
Definition mode_duf (c : collaborators) (p : posdata) (i : inputs)
  (grand_resistance_matrix : matrix) (num_dumbbells : nat) : outcome locals :=
  let num_fixed_velocity_dumbbells := (num_dumbbells - count_pippa (Ub_in i))%nat in
  force_vector <-
    or_throw_error
      (construct_force_vector_from_fts c p (Fa_in i) (Ta_in i) (Ea_in i)
         (slice (Ub_in i) 0 num_fixed_velocity_dumbbells
          ++ slice (Fb_in i) num_fixed_velocity_dumbbells num_dumbbells)
         (slice (HalfDUb_in i) 0 num_fixed_velocity_dumbbells
          ++ slice (DFb_in i) num_fixed_velocity_dumbbells num_dumbbells)) ;;
  grand_resistance_matrix_duf <-
    fts_to_duf_matrix c num_fixed_velocity_dumbbells p grand_resistance_matrix ;;
  velocity_vector <- linalg_solve grand_resistance_matrix_duf force_vector ;;
  ' (Fa, Oa, Sa, FUb, DFUb) <-
    deconstruct_velocity_vector_for_fts c p velocity_vector ;;
  Ok {| l_inputs := i;
        l_Fa_out := Fa_in i; l_Ta_out := Ta_in i; l_Sa_out := of_array Sa;
        l_Fb_out := spliced num_dumbbells num_fixed_velocity_dumbbells
                      (of_array FUb) (Fb_in i);
        l_DFb_out := spliced num_dumbbells num_fixed_velocity_dumbbells
                       (of_array DFUb) (DFb_in i);
        l_Ua_out := []; l_Oa_out := [];
        l_Ea_out := Ea_in i;
        l_Ub_out := spliced num_dumbbells num_fixed_velocity_dumbbells
                      (Ub_in i) (of_array FUb);
        l_HalfDUb_out := spliced num_dumbbells num_fixed_velocity_dumbbells
                           (HalfDUb_in i) (of_array DFUb);
        l_log := [] |}.

(** Lines 247-260.  [Nbeads/2] is a float, which a slice bound cannot be:
    line 258 raises whenever it is reached. *)
Definition mode_stokes_drag_dumbbells_only (p : posdata) (i : inputs)
  : outcome locals :=
  Fb <- numbers TypeError (Fb_in i) ;;
  DFb <- numbers TypeError (DFb_in i) ;;
  sums <- zip_rows (fun a b => map (fun q => fst q + snd q) (combine a b)) Fb DFb ;;
  a <- index (dumbbell_sizes p) 0 ;;
  Raise TypeError.

(** Lines 263-287: the grand resistance matrix of the frame, periodic when
    the two corners of the box differ. *)
Definition generate_matrix (c : collaborators) (p : posdata) (i : inputs)
  (frameno : Z) (timestep : R)
  (last_generated_Minfinity_inverse : matrix) (regenerate_Minfinity : bool)
  (cutoff_factor : R) (printout : Z)
  (use_drag_Minfinity use_Minfinity_only : bool) : outcome generated :=
  if negb (vec3_eqb (vsub (box_bottom_left i) (box_top_right i)) (V3 0 0 0))
  then
    E_infinity <- index (Ea_in i) 0 ;;
    generate_grand_resistance_matrix_periodic c p
      last_generated_Minfinity_inverse
      (box_bottom_left i) (box_top_right i)
      regenerate_Minfinity cutoff_factor printout
      use_drag_Minfinity use_Minfinity_only frameno (mu i)
      (O_infinity i) E_infinity timestep
      (centre_of_background_flow i) (Ot_infinity i) (Et_infinity i)
  else
    generate_grand_resistance_matrix c p
      last_generated_Minfinity_inverse
      regenerate_Minfinity cutoff_factor printout
      use_drag_Minfinity use_Minfinity_only frameno (mu i).

(** Lines 293-444: the branch of the mode. A mode of another name leaves the
    output variables unassigned, and line 446 fails on them. *)
Definition solve_mode (c : collaborators) (p : posdata) (i : inputs)
  (input_number frameno : Z) (timestep : R) (last_velocities : list matrix)
  (input_form : string) (grand_resistance_matrix : matrix)
  (num_spheres num_dumbbells : nat)
  (extract_force_on_wall_due_to_dumbbells : bool) : outcome locals :=
  if (input_form =? "fts")%string then
    mode_fts c p i grand_resistance_matrix num_spheres
  else if (input_form =? "fte")%string then
    mode_fte c p input_number frameno timestep last_velocities
      input_form grand_resistance_matrix num_spheres
  else if (input_form =? "ufte")%string then
    mode_ufte c p i grand_resistance_matrix num_spheres
      extract_force_on_wall_due_to_dumbbells
  else if (input_form =? "ufteu")%string then
    mode_ufteu c p i grand_resistance_matrix num_spheres num_dumbbells
      extract_force_on_wall_due_to_dumbbells
  else if (input_form =? "duf")%string then
    mode_duf c p i grand_resistance_matrix num_dumbbells
  else Raise UnboundLocalError.

(** Lines 446-452: seven of the outputs are converted to float arrays. *)
Definition convert_outputs (l : locals) : outcome locals :=
  Fa_out <- asarray_float (l_Fa_out l) ;;
  Ta_out <- asarray_float (l_Ta_out l) ;;
  Ea_out <- asarray_float (l_Ea_out l) ;;
  Ua_out <- asarray_float (l_Ua_out l) ;;
  Oa_out <- asarray_float (l_Oa_out l) ;;
  Ub_out <- asarray_float (l_Ub_out l) ;;
  HalfDUb_out <- asarray_float (l_HalfDUb_out l) ;;
  Ok {| l_inputs := l_inputs l;
        l_Fa_out := of_array Fa_out; l_Ta_out := of_array Ta_out;
        l_Sa_out := l_Sa_out l;
        l_Fb_out := l_Fb_out l; l_DFb_out := l_DFb_out l;
        l_Ua_out := of_array Ua_out; l_Oa_out := of_array Oa_out;
        l_Ea_out := of_array Ea_out;
        l_Ub_out := of_array Ub_out;
        l_HalfDUb_out := of_array HalfDUb_out;
        l_log := l_log l |}.

Definition generate_output_FTSUOE (c : collaborators)
  (p : posdata) (frameno : Z) (timestep : R) (input_number : Z)
  (last_generated_Minfinity_inverse : matrix) (regenerate_Minfinity : bool)
  (input_form : string) (cutoff_factor : R) (printout : Z)
  (use_drag_Minfinity use_Minfinity_only
   extract_force_on_wall_due_to_dumbbells : bool)
  (last_velocities : list matrix) (last_velocity_vector : vector)
  (box_bottom_left_arg box_top_right_arg : vec3)
  (feed_every_n_timesteps : Z) : outcome (list message * output) :=
  i <- input_ftsuoe c input_number p frameno timestep last_velocities
         input_form (Some true) None ;;
  let force_on_wall_due_to_dumbbells := WallInt 0 in
  ' (l, last_generated_Minfinity_inverse, gen_times) <-
    (if (input_form =? "stokes_drag_dumbbells_only")%string then
       l <- mode_stokes_drag_dumbbells_only p i ;;
       Ok (l, last_generated_Minfinity_inverse, [0; 0; 0])
     else
       ' (grand_resistance_matrix, heading, last_generated_Minfinity_inverse,
          gen_times) <-
         generate_matrix c p i frameno timestep last_generated_Minfinity_inverse
           regenerate_Minfinity cutoff_factor printout
           use_drag_Minfinity use_Minfinity_only ;;
       let num_spheres := length (Ua_in i) in
       let num_dumbbells := length (Ub_in i) in
       l <- solve_mode c p i input_number frameno timestep last_velocities
              input_form grand_resistance_matrix num_spheres num_dumbbells
              extract_force_on_wall_due_to_dumbbells ;;
       l <- convert_outputs l ;;
       Ok (l, last_generated_Minfinity_inverse, gen_times)) ;;
  let gen_times := gen_times ++ [elapsed_solve_time c] in
  let log :=
    l_log l ++
    (if (0 <? printout)%Z then
       [MsgQuantities
          (slice (l_Ua_out l) 0 10) (slice (l_Ub_out l) 0 10)
          (slice (l_HalfDUb_out l) 0 10) (slice (l_Oa_out l) 0 10)
          (slice (l_Fa_out l) 0 10) (slice (l_Fb_out l) 0 10)
          (slice (l_DFb_out l) 0 10) (slice (l_Ta_out l) 0 10)
          (l_Ea_out l) (slice (l_Sa_out l) 0 10)]
     else []) in
  Ok (log,
      {| Fa_out := l_Fa_out l; Ta_out := l_Ta_out l; Sa_out := l_Sa_out l;
         Fb_out := l_Fb_out l; DFb_out := l_DFb_out l;
         Ua_out := l_Ua_out l; Oa_out := l_Oa_out l; Ea_out := l_Ea_out l;
         Ub_out := l_Ub_out l; HalfDUb_out := l_HalfDUb_out l;
         out_last_generated_Minfinity_inverse := last_generated_Minfinity_inverse;
         gen_times := gen_times;
         out_U_infinity := U_infinity (l_inputs l);
         out_O_infinity := O_infinity (l_inputs l);
         out_centre_of_background_flow := centre_of_background_flow (l_inputs l);
         out_Ot_infinity := Ot_infinity (l_inputs l);
         out_Et_infinity := Et_infinity (l_inputs l);
         force_on_wall_due_to_dumbbells := force_on_wall_due_to_dumbbells;
         out_last_velocity_vector := last_velocity_vector |}).

(** ** Background flow *)

(** [a + b] on two arrays of shape (rows, 3), with NumPy's broadcasting of
    the first dimension: the row counts are equal, or one of them is 1;
    otherwise [ValueError]. *)
Definition broadcast_add (a b : list vec3) : outcome (list vec3) :=
  if (length a =? length b)%nat then
    Ok (map (fun q => vadd (fst q) (snd q)) (combine a b))
  else if (length a =? 1)%nat then Ok (map (fun y => vadd (hd vzero a) y) b)
  else if (length b =? 1)%nat then Ok (map (fun x => vadd x (hd vzero b)) a)
  else Raise ValueError.

(** [a + v] for an array of shape (rows, 3) and a vector. *)
Definition add_vector (a : list vec3) (v : vec3) : list vec3 :=
  map (fun x => vadd x v) a.

(** [add_background_flow_spheres].  The arrays of velocities and positions
    have the shape (rows, 3); [Ea_out_k1] holds one 3x3 array per sphere. *)
Definition add_background_flow_spheres
  (Ua_out_k1 Oa_out_k1 : list vec3) (Ea_out_k1 : list mat3)
  (U_infinity_k1 O_infinity_k1 : vec3)
  (sphere_positions : list vec3) (centre_of_background_flow : vec3)
  : outcome (list vec3 * list vec3) :=
  let num_spheres := length sphere_positions in
  let O_infinity_cross_x_k1 :=
    map (fun x => cross O_infinity_k1 (vsub x centre_of_background_flow))
        sphere_positions in
  E_infinity_dot_x_k1 <-
    sequence
      (map (fun i =>
              E <- index Ea_out_k1 i ;;
              x <- index sphere_positions i ;;
              Ok (mat_vec3 E (vsub x centre_of_background_flow)))
           (seq 0 num_spheres)) ;;
  s <- broadcast_add (add_vector Ua_out_k1 U_infinity_k1) O_infinity_cross_x_k1 ;;
  Ua_out_plus_infinities_k1 <- broadcast_add s E_infinity_dot_x_k1 ;;
  let Oa_out_plus_infinities_k1 := add_vector Oa_out_k1 O_infinity_k1 in
  Ok (Ua_out_plus_infinities_k1, Oa_out_plus_infinities_k1).

(** [add_background_flow_dumbbells]: the strain rate of every dumbbell is
    [Ea_out_k1[0]]. *)
Definition add_background_flow_dumbbells
  (Ub_out_k1 HalfDUb_out_k1 : list vec3) (Ea_out_k1 : list mat3)
  (U_infinity_k1 O_infinity_k1 : vec3)
  (dumbbell_positions dumbbell_deltax : list vec3)
  (centre_of_background_flow : vec3)
  : outcome (list vec3 * list vec3) :=
  let num_dumbbells := length dumbbell_positions in
  let O_infinity_cross_xbar_k1 :=
    map (fun x => cross O_infinity_k1 (vsub x centre_of_background_flow))
        dumbbell_positions in
  let O_infinity_cross_deltax_k1 :=
    map (fun d => cross O_infinity_k1 d) dumbbell_deltax in
  rows <-
    sequence
      (map (fun i =>
              E <- index Ea_out_k1 0 ;;
              x <- index dumbbell_positions i ;;
              let xbar_row := mat_vec3 E (vsub x centre_of_background_flow) in
              E <- index Ea_out_k1 0 ;;
              d <- index dumbbell_deltax i ;;
              Ok (xbar_row, mat_vec3 E d))
           (seq 0 num_dumbbells)) ;;
  let E_infinity_dot_xbar_k1 := map fst rows in
  let E_infinity_dot_deltax_k1 := map snd rows in
  s <- broadcast_add (add_vector Ub_out_k1 U_infinity_k1) O_infinity_cross_xbar_k1 ;;
  Ub_out_plus_infinities_k1 <- broadcast_add s E_infinity_dot_xbar_k1 ;;
  t <- broadcast_add O_infinity_cross_deltax_k1 E_infinity_dot_deltax_k1 ;;
  HalfDUb_out_plus_infinities_k1 <-
    broadcast_add HalfDUb_out_k1 (map (vscale 0.5) t) ;;
  Ok (Ub_out_plus_infinities_k1, HalfDUb_out_plus_infinities_k1).

(** * Notions the statements use *)

(** ** Rotation of the markers *)

(** The rotation by the angle [delta] about the third axis. *)
Definition turn (delta : R) (q : vec3) : vec3 :=
  V3 (vx q * cos delta - vy q * sin delta)
     (vx q * sin delta + vy q * cos delta)
     (vz q).

(** The adjugate: the inverse before the division by the determinant. *)
Definition adjugate3 (m : mat3) : mat3 :=
  transpose3 (M3 (cross (row1 m) (row2 m))
                 (cross (row2 m) (row0 m))
                 (cross (row0 m) (row1 m))).

(** Columns of a 3x3 array. *)
Definition col0 (m : mat3) : vec3 := row0 (transpose3 m).

Definition col1 (m : mat3) : vec3 := row1 (transpose3 m).

Definition col2 (m : mat3) : vec3 := row2 (transpose3 m).

(** The squared length of the first two columns of [rot_matrix]: the squared
    sine of the angle between the angular velocity and the helper axis. *)
Definition frame_scale (Oa : vec3) : R :=
  dot (cross Oa (perp1 Oa)) (cross Oa (perp1 Oa)) / angular_speed Oa ^ 2.

(** Euclidean distance between two points. *)
Definition distance (a b : vec3) : R := norm (vsub a b).

(** What the step leaves in row [i] of the markers. *)
Definition sphere_updated (sphere_positions : list vec3)
  (sphere_rotations : list (vec3 * vec3)) (new_sphere_positions Oa_out : list vec3)
  (timestep : R) (i : nat) (new_markers : fvec3 * fvec3) : Prop :=
  exists R0 Oa rb0 rb1 R offset0 offset1,
    nth_error sphere_positions i = Some R0 /\
    nth_error Oa_out i = Some Oa /\
    nth_error sphere_rotations i = Some (rb0, rb1) /\
    nth_error new_sphere_positions i = Some R /\
    rotated_offset (rot_matrix Oa) (angular_speed Oa) timestep R0 rb0 = Ok offset0 /\
    rotated_offset (rot_matrix Oa) (angular_speed Oa) timestep R0 rb1 = Ok offset1 /\
    new_markers = (translate R offset0, translate R offset1).

(** Two explicit vectors differ in some coordinate. *)
Ltac vec3_neq :=
  let H := fresh "H" in
  intros H;
  first [ apply (f_equal vx) in H; simpl in H; lra
        | apply (f_equal vy) in H; simpl in H; lra
        | apply (f_equal vz) in H; simpl in H; lra ].

(** ** Periodic box *)

(** The reduction of one coordinate to [[-0.5, 0.5)]. *)
Definition reduce (c : R) : R := np_mod1 (c + 0.5) - 0.5.

(** The image of one position. *)
Definition wrap_position (basis inv_basis : mat3) (x : vec3) : vec3 :=
  vec_mat3 (vmap reduce (vec_mat3 x inv_basis)) basis.

(** Along each axis, the wrap in a box that is not sheared. *)
Definition wrap_coordinate (c L : R) : R := reduce (c / L) * L.

(** Coordinates, in units of the basis vectors, of the cell centred on the
    origin. *)
Definition in_centred_cell (q : vec3) : Prop :=
  -0.5 <= vx q < 0.5 /\ -0.5 <= vy q < 0.5 /\ -0.5 <= vz q < 0.5.

(** ** Time left *)

(** The estimate in the words of the specification: long frames are those
    whose index is divisible by [invert_m_every], and the frame the run
    started from; short frames are the rest. *)
Definition is_long_frame (invert_m_every checkpoint_start_from_frame i : Z) : bool :=
  (i mod invert_m_every =? 0)%Z || (i =? checkpoint_start_from_frame)%Z.

Definition is_short_frame (invert_m_every checkpoint_start_from_frame i : Z) : bool :=
  negb (is_long_frame invert_m_every checkpoint_start_from_frame i).

Definition time_of (times : list R) (i : Z) : R := nth (Z.to_nat i) times 0.

Definition mean (l : list R) : R := sum l / len l.

(** The average of the long times; with the JIT compiler on, the first one
    is left out as soon as there is another. *)
Definition long_average (DISABLE_JIT : bool) (longtimes : list R) : R :=
  if DISABLE_JIT then
    match longtimes with
    | [] => 0
    | _ => mean longtimes
    end
  else
    match longtimes with
    | [] => 0
    | [t] => t
    | _ :: rest => mean rest
    end.

Definition eta_estimate (DISABLE_JIT : bool) (times : list R)
  (frameno num_frames invert_m_every checkpoint_start_from_frame : Z) : R :=
  let long := is_long_frame invert_m_every checkpoint_start_from_frame in
  let short := is_short_frame invert_m_every checkpoint_start_from_frame in
  let done := range checkpoint_start_from_frame (frameno + 1) in
  let left := range (frameno + 1) num_frames in
  let longtimeaverage :=
    long_average DISABLE_JIT (map (time_of times) (filter long done)) in
  let shorttimes := map (time_of times) (filter short done) in
  let shorttimeaverage :=
    match shorttimes with
    | [] => longtimeaverage
    | _ => mean shorttimes
    end in
  (INR (length (filter short left)) * shorttimeaverage
   + INR (length (filter long left)) * longtimeaverage) * 1.03.

(** ** Linear systems *)

(** A vector satisfies an equation. *)
Definition satisfies (x : vector) (e : equation) : Prop := dotv (fst e) x = snd e.

(** A vector is annihilated by the coefficients of an equation. *)
Definition annihilates (x : vector) (e : equation) : Prop := dotv (fst e) x = 0.

(** ** Mode [fts] *)

(** A two-dimensional float array: its rows have one length. *)
Definition is_array (a : matrix) : Prop :=
  exists k, Forall (fun r => length r = k) a.

(** A list of rows that holds numbers only, as many in every row: the
    quantity is prescribed for every particle. *)
Definition prescribed (t : table) : Prop :=
  exists a, is_array a /\ t = of_array a.

(** One sphere in an unbounded fluid, pushed by the force (4, 7, 0), with a
    resistance that couples the first two directions. *)
Definition one_sphere : posdata :=
  {| sphere_sizes := [1]; sphere_positions := [V3 0 0 0];
     sphere_rotations := [(V3 1 0 0, V3 0 0 1)];
     dumbbell_sizes := []; dumbbell_positions := []; dumbbell_deltax := [] |}.

Definition one_sphere_inputs : inputs :=
  {| Fa_in := [[Num 4; Num 7; Num 0]];
     Ta_in := [[Num 0; Num 0; Num 0]];
     Sa_in := [[Num 0; Num 0; Num 0; Num 0; Num 0]];
     Sa_c_in := [];
     Fb_in := []; DFb_in := [];
     Ua_in := [[Pippa; Pippa; Pippa]];
     Oa_in := [[Pippa; Pippa; Pippa]];
     Ea_in := [[Num 0; Num 0; Num 0; Num 0; Num 0]];
     Ea_c_in := [];
     Ub_in := []; HalfDUb_in := [];
     input_description := "one sphere";
     U_infinity := V3 0 0 0; O_infinity := V3 0 0 0;
     centre_of_background_flow := V3 0 0 0;
     Ot_infinity := V3 0 0 0; Et_infinity := M3 (V3 0 0 0) (V3 0 0 0) (V3 0 0 0);
     box_bottom_left := V3 0 0 0; box_top_right := V3 0 0 0;
     mu := 1 |}.

Definition one_sphere_matrix : matrix := [[2; 1; 0]; [1; 3; 0]; [0; 0; 1]].

(** Collaborators that keep the translational part of the problem only: the
    force vector is the force on the spheres, the velocity vector their
    velocity. *)
Definition translation_only : collaborators :=
  {| input_ftsuoe := fun _ _ _ _ _ _ _ _ => Ok one_sphere_inputs;
     generate_grand_resistance_matrix_periodic :=
       fun _ _ _ _ _ _ _ _ _ _ _ _ _ _ _ _ _ => Raise ValueError;
     generate_grand_resistance_matrix :=
       fun _ cache _ _ _ _ _ _ _ => Ok (one_sphere_matrix, "R"%string, cache, [0; 0]);
     construct_force_vector_from_fts :=
       fun _ Fa _ _ _ _ => a <- numbers ValueError Fa ;; Ok (concat a);
     deconstruct_velocity_vector_for_fts :=
       fun _ v => Ok ([v], [[0; 0; 0]], [[0; 0; 0; 0; 0]], [], []);
     fts_to_fte_matrix := fun _ m => Ok m;
     fte_to_ufte_matrix := fun _ _ m => Ok m;
     ufte_to_ufteu_matrix := fun _ _ _ m => Ok m;
     fts_to_duf_matrix := fun _ _ m => Ok m;
     elapsed_solve_time := 0 |}.

(** ** Mode [ufteu] *)

(** The locals of a mode with another log. *)
Definition with_log (l : locals) (log : list message) : locals :=
  {| l_inputs := l_inputs l;
     l_Fa_out := l_Fa_out l; l_Ta_out := l_Ta_out l; l_Sa_out := l_Sa_out l;
     l_Fb_out := l_Fb_out l; l_DFb_out := l_DFb_out l;
     l_Ua_out := l_Ua_out l; l_Oa_out := l_Oa_out l; l_Ea_out := l_Ea_out l;
     l_Ub_out := l_Ub_out l; l_HalfDUb_out := l_HalfDUb_out l;
     l_log := log |}.

(** What a computation leaves when its log is replaced. *)
Definition relog (m : outcome locals) (log : list message) : outcome locals :=
  match m with
  | Ok l => Ok (with_log l log)
  | Raise e => Raise e
  end.

Ltac step :=
  match goal with
  | |- context [bind ?m _] =>
      lazymatch m with
      | context [bind _ _] => fail
      | _ => destruct m as [?|?]; cbn [bind relog]; [|reflexivity]
      end
  end.

(** ** Rotation about the angular velocity *)

(** The rotation of [d] by the angle [theta] about the unit vector [e]
    (Rodrigues' formula). *)
Definition rodrigues (e : vec3) (theta : R) (d : vec3) : vec3 :=
  vadd (vadd (vscale (cos theta) d) (vscale (sin theta) (cross e d)))
       (vscale ((1 - cos theta) * dot e d) e).

(** ** Modes of the orchestrator *)

(** The names of the modes the function knows. *)
Definition input_forms : list string :=
  ["fts"; "fte"; "ufte"; "ufteu"; "duf"; "stokes_drag_dumbbells_only"]%string.

(** ** Background flow *)

(** The velocity of sphere [i] with the background flow added. *)
Definition sphere_in_flow (Ua_out_k1 : list vec3) (Ea_out_k1 : list mat3)
  (U_infinity_k1 O_infinity_k1 : vec3) (sphere_positions : list vec3)
  (centre_of_background_flow : vec3) (i : nat) : vec3 :=
  let arm := vsub (nth i sphere_positions vzero) centre_of_background_flow in
  vadd (vadd (vadd (nth i Ua_out_k1 vzero) U_infinity_k1)
             (cross O_infinity_k1 arm))
       (mat_vec3 (nth i Ea_out_k1 identity3) arm).

(** The zero 3x3 array and the sum of two. *)
Definition zero3 : mat3 := M3 vzero vzero vzero.

Definition madd3 (a b : mat3) : mat3 :=
  M3 (vadd (row0 a) (row0 b)) (vadd (row1 a) (row1 b)) (vadd (row2 a) (row2 b)).

(** The mean velocity and the half difference of velocities of dumbbell
    [i] with the background flow added. *)
Definition dumbbell_in_flow (Ub_out_k1 : list vec3) (E : mat3)
  (U_infinity_k1 O_infinity_k1 : vec3) (dumbbell_positions : list vec3)
  (centre_of_background_flow : vec3) (i : nat) : vec3 :=
  let arm := vsub (nth i dumbbell_positions vzero) centre_of_background_flow in
  vadd (vadd (vadd (nth i Ub_out_k1 vzero) U_infinity_k1)
             (cross O_infinity_k1 arm))
       (mat_vec3 E arm).

Definition half_difference_in_flow (HalfDUb_out_k1 : list vec3) (E : mat3)
  (O_infinity_k1 : vec3) (dumbbell_deltax : list vec3) (i : nat) : vec3 :=
  let d := nth i dumbbell_deltax vzero in
  vadd (nth i HalfDUb_out_k1 vzero)
       (vscale 0.5 (vadd (cross O_infinity_k1 d) (mat_vec3 E d))).

(** * Properties *)

(** ** Booleans, vectors, lists *)

Lemma Rltb_true x y : Rltb x y = true <-> x < y.
Proof. unfold Rltb; destruct (Rlt_dec x y); split; intros; try easy. Qed.

Lemma Rltb_false x y : Rltb x y = false <-> ~ x < y.
Proof. unfold Rltb; destruct (Rlt_dec x y); split; intros; try easy. Qed.

Lemma Rleb_true x y : Rleb x y = true <-> x <= y.
Proof. unfold Rleb; destruct (Rle_dec x y); split; intros; try easy. Qed.

Lemma Rleb_false x y : Rleb x y = false <-> ~ x <= y.
Proof. unfold Rleb; destruct (Rle_dec x y); split; intros; try easy. Qed.

Lemma Reqb_true x y : Reqb x y = true <-> x = y.
Proof. unfold Reqb; destruct (Req_dec_T x y); split; intros; try easy. Qed.

Lemma Reqb_false x y : Reqb x y = false <-> x <> y.
Proof. unfold Reqb; destruct (Req_dec_T x y); split; intros; try easy. Qed.

Lemma Reqb_refl x : Reqb x x = true.
Proof. now apply Reqb_true. Qed.

Lemma vec3_eq (a b : vec3) :
  vx a = vx b -> vy a = vy b -> vz a = vz b -> a = b.
Proof. destruct a, b; simpl; intros; subst; reflexivity. Qed.

Lemma vec3_eqb_true a b : vec3_eqb a b = true <-> a = b.
Proof.
  unfold vec3_eqb; rewrite !andb_true_iff, !Reqb_true; split.
  - intros [[H1 H2] H3]; now apply vec3_eq.
  - intros ->; auto.
Qed.

Lemma vec3_eqb_false a b : vec3_eqb a b = false <-> a <> b.
Proof.
  split; intros H.
  - intros E; apply vec3_eqb_true in E; congruence.
  - destruct (vec3_eqb a b) eqn:E; auto. apply vec3_eqb_true in E; contradiction.
Qed.

Lemma dot_self_nonneg a : 0 <= dot a a.
Proof. unfold dot; nra. Qed.

Lemma norm_sqr a : norm a * norm a = dot a a.
Proof. apply sqrt_sqrt, dot_self_nonneg. Qed.

Lemma norm_nonneg a : 0 <= norm a.
Proof. apply sqrt_pos. Qed.

Lemma norm_zero_iff a : norm a = 0 <-> a = vzero.
Proof.
  split.
  - intros H. apply sqrt_eq_0 in H; [|apply dot_self_nonneg].
    unfold dot in H. apply vec3_eq; simpl; nra.
  - intros ->. unfold norm, dot; simpl.
    replace (0 * 0 + 0 * 0 + 0 * 0) with 0 by ring. apply sqrt_0.
Qed.

Lemma index_lt {A} (l : list A) i :
  (i < length l)%nat -> exists a, index l i = Ok a /\ nth_error l i = Some a.
Proof.
  intros H. unfold index. destruct (nth_error l i) eqn:E.
  - eauto.
  - apply nth_error_None in E. lia.
Qed.

(** ** Explosion check *)

Lemma skipn_nth_error {A} (l : list A) : forall i a,
  nth_error l i = Some a -> skipn i l = a :: skipn (S i) l.
Proof.
  induction l; intros [|i] x H; simpl in *; try discriminate.
  - now inversion H.
  - now apply IHl.
Qed.

Lemma for_range_S {St} i n (body : nat -> St -> outcome St) s :
  for_range i (S n) body s = (s' <- body i s ;; for_range (S i) n body s').
Proof. reflexivity. Qed.

Lemma check_dumbbell_step (old new : list vec3) prot i log e d :
  (i < length old)%nat -> nth_error new i = Some d ->
  exists log',
    check_dumbbell old new prot i (log, e) = Ok (log', e || (prot && too_long d)).
Proof.
  intros Ho Hd. unfold check_dumbbell.
  destruct (index_lt old i Ho) as (o & -> & _).
  unfold index at 1. rewrite Hd. cbn [bind]. fold (too_long d).
  destruct (prot && too_long d); eexists; [now rewrite orb_true_r|now rewrite orb_false_r].
Qed.

Lemma dumbbell_loop (old new : list vec3) (prot : bool) : forall n i log e,
  (i + n <= length old)%nat -> (i + n <= length new)%nat ->
  exists log',
    for_range i n (check_dumbbell old new prot) (log, e)
    = Ok (log', e || (prot && existsb too_long (firstn n (skipn i new)))).
Proof.
  induction n as [|n IH]; intros i log e Ho Hn.
  - simpl. exists log. now rewrite andb_false_r, orb_false_r.
  - rewrite for_range_S.
    destruct (index_lt new i) as (d & _ & Hd); [lia|].
    destruct (check_dumbbell_step old new prot i log e d) as [log1 ->]; [lia|exact Hd|].
    cbn [bind].
    destruct (IH (S i) log1 (e || (prot && too_long d))) as [log' ->]; try lia.
    exists log'. rewrite (skipn_nth_error _ _ _ Hd).
    cbn [firstn existsb]. do 2 f_equal.
    destruct e, prot, (too_long d); reflexivity.
Qed.

Lemma dumbbell_check_value error old new prot :
  (length new <= length old)%nat ->
  exists log,
    did_something_go_wrong_with_dumbells error old new prot =
    Ok (log, error || (prot && existsb too_long new)).
Proof.
  intros H. unfold did_something_go_wrong_with_dumbells.
  destruct (dumbbell_loop old new prot (length new) 0 [] error) as [log E]; try lia.
  exists log. rewrite E. simpl. now rewrite firstn_all.
Qed.

(** C4. [did_something_go_wrong_with_dumbells] returns [True] if and only if
    the error flag it is given is [True], or [explosion_protection] is on and
    some new displacement has a norm strictly above 5.  A displacement of
    norm 6 with the protection on gives [True]; displacements of norm 4 (and
    no previous error) give [False]; and the returned flag does not depend on
    the old displacements, on which the rotation-angle test works: that test
    only prints.  (The two arrays hold one row per dumbbell.) *)
Theorem explosion_check_result
  (error : bool) (dumbbell_deltax new_dumbbell_deltax : list vec3)
  (explosion_protection : bool) :
  (length new_dumbbell_deltax <= length dumbbell_deltax)%nat ->
  exists log b,
    did_something_go_wrong_with_dumbells error dumbbell_deltax
      new_dumbbell_deltax explosion_protection = Ok (log, b) /\
    (b = true <->
     error = true \/
     (explosion_protection = true /\
      exists d, In d new_dumbbell_deltax /\ 5 < norm d)) /\
    (explosion_protection = true ->
     (exists d, In d new_dumbbell_deltax /\ norm d = 6) -> b = true) /\
    (error = false ->
     (forall d, In d new_dumbbell_deltax -> norm d = 4) -> b = false) /\
    (forall other_deltax,
       (length new_dumbbell_deltax <= length other_deltax)%nat ->
       exists log',
         did_something_go_wrong_with_dumbells error other_deltax
           new_dumbbell_deltax explosion_protection = Ok (log', b)).
Proof.
  intros Hlen.
  destruct (dumbbell_check_value error _ _ explosion_protection Hlen) as [log E].
  exists log, (error || (explosion_protection && existsb too_long new_dumbbell_deltax)).
  assert (Hiff : error || (explosion_protection && existsb too_long new_dumbbell_deltax) = true <->
     error = true \/
     (explosion_protection = true /\
      exists d, In d new_dumbbell_deltax /\ 5 < norm d)).
  { rewrite orb_true_iff, andb_true_iff, existsb_exists.
    unfold too_long. split.
    - intros [H|[H (d & Hin & Hd)]]; auto. right. split; auto.
      exists d. split; auto. now apply Rltb_true.
    - intros [H|[H (d & Hin & Hd)]]; auto. right. split; auto.
      exists d. split; auto. now apply Rltb_true. }
  split; [exact E|]. split; [exact Hiff|]. split; [|split].
  - intros Hp (d & Hin & Hd). apply Hiff. right. split; auto.
    exists d. split; auto. lra.
  - intros He Hall.
    apply not_true_is_false. intros B.
    apply Hiff in B. destruct B as [B|[_ (d & Hin & Hd)]]; [congruence|].
    rewrite (Hall d Hin) in Hd. lra.
  - intros other Hlen'. apply dumbbell_check_value. exact Hlen'.
Qed.

(** The check on one dumbbell of length 6, then on one of length 4. *)
Lemma explosion_check_result_witness :
  exists log b,
    did_something_go_wrong_with_dumbells false [V3 1 0 0] [V3 6 0 0] true
    = Ok (log, b) /\ b = true.
Proof.
  destruct (explosion_check_result false [V3 1 0 0] [V3 6 0 0] true)
    as (log & b & E & _ & H6 & _).
  - simpl. lia.
  - exists log, b. split; [exact E|]. apply H6; [reflexivity|].
    exists (V3 6 0 0). split; [now left|].
    unfold norm, dot; simpl. apply sqrt_lem_1; lra.
Defined.

(** ** Size-ratio and proximity checks *)

Lemma where_false_row_fst i row p : In p (where_false_row i row) -> fst p = i.
Proof.
  unfold where_false_row. rewrite in_map_iff. intros (j & <- & _). reflexivity.
Qed.

Lemma where_false_rows (m : list (list bool)) p :
  In p (where_false m) -> (fst p < length m)%nat.
Proof.
  unfold where_false. rewrite in_concat. intros (l & Hl & Hp).
  apply in_map_iff in Hl as (i & <- & Hi).
  apply where_false_row_fst in Hp. apply in_seq in Hi. lia.
Qed.

Lemma offending_rows sizes lam p :
  In p (offending_elements sizes lam) -> (fst p < length sizes)%nat.
Proof.
  unfold offending_elements. intros H. apply where_false_rows in H.
  unfold lambda_matrix in H. now rewrite !length_map in H.
Qed.

Lemma lambda_matrix_entry sizes i j :
  (i < length sizes)%nat -> (j < length sizes)%nat ->
  exists row x, index (lambda_matrix sizes) i = Ok row /\ index row j = Ok x.
Proof.
  intros Hi Hj. unfold lambda_matrix, index.
  destruct (nth_error sizes i) as [si|] eqn:Ei; [|apply nth_error_None in Ei; lia].
  rewrite (map_nth_error _ _ _ Ei).
  destruct (nth_error sizes j) as [sj|] eqn:Ej; [|apply nth_error_None in Ej; lia].
  eexists. eexists. split; [reflexivity|].
  now rewrite (map_nth_error _ _ _ Ej).
Qed.

Lemma size_ratio_check_value error sizes lam num_spheres :
  length (offending_elements sizes lam) <> 1%nat ->
  exists log,
    do_we_have_all_size_ratios error sizes lam num_spheres =
    Ok (log, match offending_elements sizes lam with [] => error | _ => true end).
Proof.
  intros H. unfold do_we_have_all_size_ratios.
  pose proof (offending_rows sizes lam) as Hrows.
  destruct (offending_elements sizes lam) as [|p0 [|p1 rest]].
  - simpl. eauto.
  - simpl in H. congruence.
  - cbn [map length Nat.ltb Nat.leb]. unfold index at 1 2. cbn [nth_error bind].
    destruct (lambda_matrix_entry sizes (fst p0) (fst p1)) as (row & x & -> & E).
    + apply Hrows. now left.
    + apply Hrows. right. now left.
    + cbn [bind]. rewrite E. cbn [bind]. eauto.
Qed.

Lemma zip_rows_ok {A B C} (f : A -> B -> C) a b :
  length a = length b ->
  zip_rows f a b = Ok (map (fun p => f (fst p) (snd p)) (combine a b)).
Proof. intros H. unfold zip_rows. rewrite H, Nat.eqb_refl. reflexivity. Qed.

Lemma proximity_check_value error printout s_dash_range
  sphere_positions dumbbell_positions dumbbell_deltax sphere_sizes
  dumbbell_sizes element_positions :
  length dumbbell_positions = length dumbbell_deltax ->
  length sphere_positions = length sphere_sizes ->
  length dumbbell_positions = length dumbbell_sizes ->
  exists log,
    are_some_of_the_particles_too_close error printout s_dash_range
      sphere_positions dumbbell_positions dumbbell_deltax sphere_sizes
      dumbbell_sizes element_positions = Ok (log, error).
Proof.
  intros Hd Hs Hb. unfold are_some_of_the_particles_too_close.
  rewrite !zip_rows_ok by assumption. cbn [bind].
  rewrite zip_rows_ok.
  - cbn [bind]. eauto.
  - rewrite !length_map, !length_app, !length_map, !length_combine. lia.
Qed.

(** Where the checks return, the error flag is monotone through them: called
    with [error = True], each of [did_something_go_wrong_with_dumbells],
    [do_we_have_all_size_ratios] and [are_some_of_the_particles_too_close]
    returns [True]; and [are_some_of_the_particles_too_close] returns the
    flag it is given, whatever it is.  The arrays hold one row per particle,
    and the size-ratio check is taken away from the case of exactly one entry
    of the ratio matrix missing from the lookup. *)
Lemma error_flag_kept :
  (forall dumbbell_deltax new_dumbbell_deltax explosion_protection,
     (length new_dumbbell_deltax <= length dumbbell_deltax)%nat ->
     exists log,
       did_something_go_wrong_with_dumbells true dumbbell_deltax
         new_dumbbell_deltax explosion_protection = Ok (log, true)) /\
  (forall element_sizes lam_range num_spheres,
     length (offending_elements element_sizes lam_range) <> 1%nat ->
     exists log,
       do_we_have_all_size_ratios true element_sizes lam_range num_spheres
       = Ok (log, true)) /\
  (forall error printout s_dash_range sphere_positions dumbbell_positions
          dumbbell_deltax sphere_sizes dumbbell_sizes element_positions,
     length dumbbell_positions = length dumbbell_deltax ->
     length sphere_positions = length sphere_sizes ->
     length dumbbell_positions = length dumbbell_sizes ->
     exists log,
       are_some_of_the_particles_too_close error printout s_dash_range
         sphere_positions dumbbell_positions dumbbell_deltax sphere_sizes
         dumbbell_sizes element_positions = Ok (log, error)).
Proof.
  split; [|split].
  - intros old new prot H.
    destruct (dumbbell_check_value true old new prot H) as [log E].
    exists log. exact E.
  - intros sizes lam ns H.
    destruct (size_ratio_check_value true sizes lam ns H) as [log E].
    exists log. rewrite E. now destruct (offending_elements sizes lam).
  - intros. now apply proximity_check_value.
Qed.

Lemma fdiv_nonzero x y : y <> 0 -> fdiv x y = Fin (x / y).
Proof. intros H. unfold fdiv. now rewrite (proj2 (Reqb_false y 0) H). Qed.

(** The three checks on one dumbbell, one sphere of size 1 with the ratio 1
    in the lookup, and one sphere. *)
Lemma error_flag_kept_one_particle :
  (exists log,
     did_something_go_wrong_with_dumbells true [V3 1 0 0] [V3 6 0 0] true
     = Ok (log, true)) /\
  (exists log, do_we_have_all_size_ratios true [1] [1] 1 = Ok (log, true)) /\
  (exists log,
     are_some_of_the_particles_too_close false 0 [] [V3 0 0 0] [] [] [1] []
       [V3 0 0 0] = Ok (log, false)).
Proof.
  destruct error_flag_kept as (H1 & H2 & H3).
  split; [|split].
  - apply H1. simpl. lia.
  - apply H2. unfold offending_elements, lambda_matrix, where_false, where_false_row.
    cbn [map app length seq concat filter nth in1d existsb].
    rewrite !fdiv_nonzero by lra. cbn [float_eqb].
    replace (Reqb (1 / 1) 1) with true by (symmetry; apply Reqb_true; lra).
    simpl. lia.
  - apply H3; reflexivity.
Qed.

Lemma offending_elements_one_sphere :
  offending_elements [1] [2] = [(0%nat, 0%nat)].
Proof.
  unfold offending_elements, lambda_matrix, where_false, where_false_row.
  cbn [map app length seq concat filter nth in1d existsb].
  rewrite !fdiv_nonzero by lra. cbn [float_eqb].
  replace (Reqb (1 / 1) 2) with false by (symmetry; apply Reqb_false; lra).
  replace (Reqb (1 / 1) (1 / 2)) with false by (symmetry; apply Reqb_false; lra).
  reflexivity.
Qed.

(** C10.  With the error flag raised, one sphere of size 1 and a lookup of
    size ratios that holds 2 only, the one entry of the ratio matrix, 1, is
    missing from the lookup, and [do_we_have_all_size_ratios] does not return
    [True]: line 154 reads a second offending index,
    [offending_elements[0][1]], where there is one, and raises
    [IndexError]. *)
Theorem size_ratio_check_single_offender :
  length (offending_elements [1] [2]) = 1%nat /\
  do_we_have_all_size_ratios true [1] [2] 1 = Raise IndexError.
Proof.
  unfold do_we_have_all_size_ratios.
  rewrite offending_elements_one_sphere. split; reflexivity.
Qed.

(** ** Trigonometry of the spherical coordinates *)

Lemma sqrt_sum_pos x y : (x <> 0 \/ y <> 0) -> 0 < sqrt (x ^ 2 + y ^ 2).
Proof. intros H. apply sqrt_lt_R0. nra. Qed.

Lemma sqrt_1_plus_sqr_div x y :
  x <> 0 -> sqrt (1 + (y / x)²) = sqrt (x ^ 2 + y ^ 2) / Rabs x.
Proof.
  intros Hx.
  assert (Hax : 0 < Rabs x) by now apply Rabs_pos_lt.
  apply sqrt_lem_1.
  - unfold Rsqr. nra.
  - apply Rmult_le_pos; [apply sqrt_pos|]. apply Rlt_le, Rinv_0_lt_compat, Hax.
  - replace (sqrt (x ^ 2 + y ^ 2) / Rabs x * (sqrt (x ^ 2 + y ^ 2) / Rabs x))
      with ((sqrt (x ^ 2 + y ^ 2) * sqrt (x ^ 2 + y ^ 2)) / (Rabs x * Rabs x))
      by (field; lra).
    rewrite sqrt_sqrt by nra.
    replace (Rabs x * Rabs x) with (x * x).
    + unfold Rsqr. field. exact Hx.
    + pose proof (Rsqr_abs x) as Hs. unfold Rsqr in Hs. exact Hs.
Qed.

Lemma arctan2_cos_sin y x :
  (x <> 0 \/ y <> 0) ->
  sqrt (x ^ 2 + y ^ 2) * cos (arctan2 y x) = x /\
  sqrt (x ^ 2 + y ^ 2) * sin (arctan2 y x) = y.
Proof.
  intros Hxy. pose proof (sqrt_sum_pos x y Hxy) as Hrho.
  unfold arctan2.
  destruct (Rltb 0 x) eqn:Hpos.
  - apply Rltb_true in Hpos.
    rewrite cos_atan, sin_atan, sqrt_1_plus_sqr_div by lra.
    rewrite Rabs_right by lra. split; field; lra.
  - apply Rltb_false in Hpos.
    destruct (Rltb x 0) eqn:Hneg.
    + apply Rltb_true in Hneg.
      assert (Hc : sqrt (x ^ 2 + y ^ 2) * - cos (atan (y / x)) = x).
      { rewrite cos_atan, sqrt_1_plus_sqr_div by lra.
        rewrite Rabs_left by lra. field; lra. }
      assert (Hs : sqrt (x ^ 2 + y ^ 2) * - sin (atan (y / x)) = y).
      { rewrite sin_atan, sqrt_1_plus_sqr_div by lra.
        rewrite Rabs_left by lra. field; lra. }
      destruct (Rleb 0 y).
      * rewrite neg_cos, neg_sin. split; assumption.
      * replace (cos (atan (y / x) - PI)) with (- cos (atan (y / x)))
          by (unfold Rminus; rewrite cos_plus, cos_neg, sin_neg, cos_PI, sin_PI; ring).
        replace (sin (atan (y / x) - PI)) with (- sin (atan (y / x)))
          by (unfold Rminus; rewrite sin_plus, cos_neg, sin_neg, cos_PI, sin_PI; ring).
        split; assumption.
    + apply Rltb_false in Hneg.
      assert (x = 0) by lra. subst x.
      assert (Hy : y <> 0) by (destruct Hxy; [lra|assumption]).
      replace (0 ^ 2 + y ^ 2) with (y * y) in * by ring.
      destruct (Rltb 0 y) eqn:Hy1.
      * apply Rltb_true in Hy1. rewrite cos_PI2, sin_PI2, sqrt_square by lra.
        split; ring.
      * apply Rltb_false in Hy1.
        replace (Rltb y 0) with true by (symmetry; apply Rltb_true; lra).
        rewrite cos_neg, sin_neg, cos_PI2, sin_PI2.
        replace (y * y) with ((- y) * (- y)) by ring.
        rewrite sqrt_square by lra. split; ring.
Qed.

Lemma polar_radius x0 y0 z0 :
  sqrt (x0 ^ 2 + y0 ^ 2 + z0 ^ 2) <> 0 ->
  sqrt (x0 ^ 2 + y0 ^ 2 + z0 ^ 2) *
  sin (acos (z0 / sqrt (x0 ^ 2 + y0 ^ 2 + z0 ^ 2))) = sqrt (x0 ^ 2 + y0 ^ 2)
  /\
  sqrt (x0 ^ 2 + y0 ^ 2 + z0 ^ 2) *
  cos (acos (z0 / sqrt (x0 ^ 2 + y0 ^ 2 + z0 ^ 2))) = z0.
Proof.
  set (r0 := sqrt (x0 ^ 2 + y0 ^ 2 + z0 ^ 2)). intros Hr.
  assert (Hr1 : 0 <= r0) by apply sqrt_pos.
  assert (Hr0 : 0 < r0) by (destruct Hr1 as [Hlt|Heq]; [exact Hlt|now symmetry in Heq]).
  assert (Hrr : r0 * r0 = x0 ^ 2 + y0 ^ 2 + z0 ^ 2) by (apply sqrt_sqrt; nra).
  assert (Hq : (z0 / r0) * (z0 / r0) * (r0 * r0) = z0 * z0) by (field; lra).
  assert (Hb : -1 <= z0 / r0 <= 1).
  { assert (Hsq : (z0 / r0) * (z0 / r0) <= 1).
    { apply Rmult_le_reg_r with (r0 * r0); [nra|]. rewrite Hq. nra. }
    nra. }
  rewrite sin_acos, cos_acos by exact Hb. split.
  - symmetry. apply sqrt_lem_1.
    + nra.
    + apply Rmult_le_pos; [lra|apply sqrt_pos].
    + replace (r0 * sqrt (1 - (z0 / r0)²) * (r0 * sqrt (1 - (z0 / r0)²)))
        with (r0 * r0 * (sqrt (1 - (z0 / r0)²) * sqrt (1 - (z0 / r0)²))) by ring.
      rewrite sqrt_sqrt by (unfold Rsqr; nra). unfold Rsqr. nra.
  - field. lra.
Qed.

(** Lines 113-123 rotate the local coordinates about the third axis by the
    angle [timestep * O]. *)
Lemma spherical_step x0 y0 z0 O timestep :
  sqrt (x0 ^ 2 + y0 ^ 2 + z0 ^ 2) <> 0 ->
  let r0 := sqrt (x0 ^ 2 + y0 ^ 2 + z0 ^ 2) in
  let t0 := acos (z0 / r0) in
  let p0 := if Reqb x0 0 && Reqb y0 0 then 0 else arctan2 y0 x0 in
  let p := euler_timestep p0 O timestep in
  V3 (r0 * sin t0 * cos p) (r0 * sin t0 * sin p) (r0 * cos t0)
  = turn (timestep * O) (V3 x0 y0 z0).
Proof.
  intros Hr r0 t0 p0 p.
  destruct (polar_radius x0 y0 z0 Hr) as [Hs Hc].
  subst r0 t0 p. unfold turn, euler_timestep. cbn [vx vy vz].
  rewrite Hs, Hc, cos_plus, sin_plus.
  assert (Hp : sqrt (x0 ^ 2 + y0 ^ 2) * cos p0 = x0 /\
               sqrt (x0 ^ 2 + y0 ^ 2) * sin p0 = y0).
  { unfold p0. destruct (Reqb x0 0 && Reqb y0 0) eqn:E.
    - apply andb_true_iff in E as [Ex Ey].
      apply Reqb_true in Ex, Ey. subst.
      replace (0 ^ 2 + 0 ^ 2) with 0 by (simpl; lra). rewrite sqrt_0. split; lra.
    - apply arctan2_cos_sin.
      apply andb_false_iff in E as [E|E]; apply Reqb_false in E; auto. }
  destruct Hp as [Hx Hy].
  set (rho := sqrt (x0 ^ 2 + y0 ^ 2)) in *.
  apply vec3_eq; cbn [vx vy vz]; try reflexivity.
  - rewrite <- Hx, <- Hy. ring.
  - rewrite <- Hx, <- Hy. ring.
Qed.

(** ** 3x3 inverse *)

Lemma adjugate3_right m v :
  mat_vec3 m (mat_vec3 (adjugate3 m) v) = vscale (det3 m) v.
Proof.
  destruct m as [[a b c] [d e f] [g h i]], v as [x y z].
  apply vec3_eq;
    unfold adjugate3, mat_vec3, transpose3, vscale, det3, dot, cross;
    cbn [row0 row1 row2 vx vy vz]; ring.
Qed.

Lemma adjugate3_left m v :
  mat_vec3 (adjugate3 m) (mat_vec3 m v) = vscale (det3 m) v.
Proof.
  destruct m as [[a b c] [d e f] [g h i]], v as [x y z].
  apply vec3_eq;
    unfold adjugate3, mat_vec3, transpose3, vscale, det3, dot, cross;
    cbn [row0 row1 row2 vx vy vz]; ring.
Qed.

Lemma mat_vec3_scale m k v : mat_vec3 m (vscale k v) = vscale k (mat_vec3 m v).
Proof.
  apply vec3_eq; unfold mat_vec3, vscale, dot; cbn [vx vy vz]; ring.
Qed.

Lemma vscale_vscale k l v : vscale k (vscale l v) = vscale (k * l) v.
Proof. apply vec3_eq; unfold vscale; cbn [vx vy vz]; ring. Qed.

Lemma vscale_1 v : vscale 1 v = v.
Proof. apply vec3_eq; unfold vscale; cbn [vx vy vz]; ring. Qed.

Lemma transpose3_involutive m : transpose3 (transpose3 m) = m.
Proof. destruct m as [[a b c] [d e f] [g h i]]. reflexivity. Qed.

Lemma inv3_value m :
  det3 m <> 0 ->
  exists mi, inv3 m = Ok mi /\
             (forall v, mat_vec3 mi v = vscale (/ det3 m) (mat_vec3 (adjugate3 m) v)) /\
             (forall v, vec_mat3 v mi =
                        vscale (/ det3 m) (vec_mat3 v (adjugate3 m))).
Proof.
  intros Hd. unfold inv3. rewrite (proj2 (Reqb_false _ _) Hd).
  eexists. split; [reflexivity|].
  set (k := det3 m). clearbody k.
  destruct m as [[a b c] [d e f] [g h i]].
  split; intros [x y z]; apply vec3_eq;
    unfold adjugate3, vec_mat3, mat_vec3, transpose3, vscale, vdiv, dot, cross, Rdiv;
    cbn [row0 row1 row2 vx vy vz]; ring.
Qed.

Lemma vec_mat3_adjugate_right m v :
  vec_mat3 (vec_mat3 v m) (adjugate3 m) = vscale (det3 m) v.
Proof.
  destruct m as [[a b c] [d e f] [g h i]], v as [x y z].
  apply vec3_eq;
    unfold adjugate3, vec_mat3, mat_vec3, transpose3, vscale, det3, dot, cross;
    cbn [row0 row1 row2 vx vy vz]; ring.
Qed.

Lemma vec_mat3_adjugate_left m v :
  vec_mat3 (vec_mat3 v (adjugate3 m)) m = vscale (det3 m) v.
Proof.
  destruct m as [[a b c] [d e f] [g h i]], v as [x y z].
  apply vec3_eq;
    unfold adjugate3, vec_mat3, mat_vec3, transpose3, vscale, det3, dot, cross;
    cbn [row0 row1 row2 vx vy vz]; ring.
Qed.

Lemma vec_mat3_scale k v m : vec_mat3 (vscale k v) m = vscale k (vec_mat3 v m).
Proof.
  apply vec3_eq; unfold vec_mat3, mat_vec3, transpose3, vscale, dot;
    cbn [row0 row1 row2 vx vy vz]; ring.
Qed.

Lemma inv3_ok m :
  det3 m <> 0 ->
  exists mi, inv3 m = Ok mi /\
             (forall v, mat_vec3 m (mat_vec3 mi v) = v) /\
             (forall v, mat_vec3 mi (mat_vec3 m v) = v) /\
             (forall v, vec_mat3 (vec_mat3 v m) mi = v) /\
             (forall v, vec_mat3 (vec_mat3 v mi) m = v).
Proof.
  intros Hd. destruct (inv3_value m Hd) as (mi & Hi & Hm & Hv).
  exists mi. split; [exact Hi|].
  assert (Hk : / det3 m * det3 m = 1) by (field; exact Hd).
  repeat split; intros v.
  - now rewrite Hm, mat_vec3_scale, adjugate3_right, vscale_vscale, Hk, vscale_1.
  - now rewrite Hm, adjugate3_left, vscale_vscale, Hk, vscale_1.
  - now rewrite Hv, vec_mat3_adjugate_right, vscale_vscale, Hk, vscale_1.
  - now rewrite Hv, vec_mat3_scale, vec_mat3_adjugate_left, vscale_vscale, Hk, vscale_1.
Qed.

Lemma inv3_singular m : det3 m = 0 -> inv3 m = Raise LinAlgError.
Proof. intros H. unfold inv3. now rewrite (proj2 (Reqb_true _ _) H). Qed.

Lemma sqr_sum_zero x y z : sqrt (x ^ 2 + y ^ 2 + z ^ 2) = 0 <-> x = 0 /\ y = 0 /\ z = 0.
Proof.
  split.
  - intros H. apply sqrt_eq_0 in H; [|nra]. repeat split; nra.
  - intros (-> & -> & ->). replace (0 ^ 2 + 0 ^ 2 + 0 ^ 2) with 0 by (simpl; lra).
    apply sqrt_0.
Qed.

Lemma vsub_zero a b : vsub a b = vzero <-> a = b.
Proof.
  split.
  - intros H. apply vec3_eq.
    + apply (f_equal vx) in H. simpl in H. lra.
    + apply (f_equal vy) in H. simpl in H. lra.
    + apply (f_equal vz) in H. simpl in H. lra.
  - intros ->. apply vec3_eq; simpl; ring.
Qed.

Lemma mat_vec3_zero m : mat_vec3 m vzero = vzero.
Proof. apply vec3_eq; unfold mat_vec3, dot; simpl; ring. Qed.

(** The offset of a marker after the step: the old offset taken to the local
    frame, turned about the third axis, and taken back; a NaN for a marker
    on the centre. *)
Lemma rotated_offset_value rot mi O timestep R0 rb0 :
  inv3 rot = Ok mi ->
  (forall v, mat_vec3 rot (mat_vec3 mi v) = v) ->
  rotated_offset rot O timestep R0 rb0 =
  Ok (if vec3_eqb rb0 R0 then NaN3
      else Finite (mat_vec3 rot
                     (turn (timestep * O) (mat_vec3 mi (vsub rb0 R0))))).
Proof.
  intros Hi Hinv. unfold rotated_offset. rewrite Hi. cbn [bind].
  set (q := mat_vec3 mi (vsub rb0 R0)).
  destruct (vec3_eqb rb0 R0) eqn:E.
  - apply vec3_eqb_true in E. subst rb0.
    assert (Hq : q = vzero).
    { unfold q. rewrite (proj2 (vsub_zero R0 R0) eq_refl). apply mat_vec3_zero. }
    rewrite Hq. cbn [vx vy vz vzero].
    rewrite (proj2 (sqr_sum_zero 0 0 0)) by auto. now rewrite Reqb_refl.
  - apply vec3_eqb_false in E.
    assert (Hr : sqrt (vx q ^ 2 + vy q ^ 2 + vz q ^ 2) <> 0).
    { intros H. apply sqr_sum_zero in H as (Hx & Hy & Hz).
      assert (Hq : q = vzero) by (apply vec3_eq; assumption).
      apply E, vsub_zero. rewrite <- (Hinv (vsub rb0 R0)). fold q.
      rewrite Hq. apply mat_vec3_zero. }
    rewrite (proj2 (Reqb_false _ _) Hr).
    pose proof (spherical_step (vx q) (vy q) (vz q) O timestep Hr) as Hs.
    cbv zeta in Hs. rewrite Hs. destruct q; reflexivity.
Qed.

(** ** The frame built on the angular velocity *)

Lemma angular_speed_sqr w :
  angular_speed w * angular_speed w = vx w ^ 2 + vy w ^ 2 + vz w ^ 2.
Proof. unfold angular_speed. apply sqrt_sqrt. nra. Qed.

Lemma angular_speed_pos w : w <> V3 0 0 0 -> 0 < angular_speed w.
Proof.
  intros Hw. unfold angular_speed. apply sqrt_lt_R0.
  assert (H : ~ (vx w = 0 /\ vy w = 0 /\ vz w = 0)).
  { intros (Hx & Hy & Hz). apply Hw. apply vec3_eq; assumption. }
  assert (H2 : 0 <= vx w ^ 2 + vy w ^ 2 + vz w ^ 2) by nra.
  destruct H2 as [H2|H2]; [exact H2|].
  exfalso. apply H. repeat split; nra.
Qed.

Lemma perp1_cases w : perp1 w = V3 0 0 1 \/ perp1 w = V3 1 0 0.
Proof. unfold perp1. destruct (allclose _ _); auto. Qed.

(** The helper axis is never parallel to the angular velocity. *)
Lemma perp1_not_parallel w :
  w <> V3 0 0 0 -> cross w (perp1 w) <> vzero.
Proof.
  intros Hw. pose proof (angular_speed_pos w Hw) as HO.
  pose proof (angular_speed_sqr w) as HOO.
  unfold perp1. set (O := angular_speed w) in *.
  destruct (allclose (vabs (vdiv w O)) (V3 1 0 0)) eqn:E.
  - unfold allclose in E. apply andb_true_iff in E as [E _].
    apply andb_true_iff in E as [E _].
    unfold isclose in E. apply Rleb_true in E. cbn [vx vabs vdiv] in E.
    unfold rtol, atol in E. rewrite Rabs_R1 in E.
    intros H. apply (f_equal vy) in H. unfold cross in H. cbn [vx vy vz vzero] in H.
    assert (Ha : vx w = 0) by lra. rewrite Ha in E.
    unfold Rdiv in E. rewrite Rmult_0_l, Rabs_R0 in E.
    replace (0 - 1) with (-1) in E by ring. rewrite Rabs_left in E by lra. lra.
  - intros H.
    assert (Hb : vy w = 0).
    { apply (f_equal vz) in H. unfold cross in H. cbn [vx vy vz vzero] in H. lra. }
    assert (Hc : vz w = 0).
    { apply (f_equal vy) in H. unfold cross in H. cbn [vx vy vz vzero] in H. lra. }
    rewrite Hb, Hc in HOO.
    assert (HOa : O = Rabs (vx w)).
    { assert (Hsq : O * O = Rabs (vx w) * Rabs (vx w)).
      { rewrite HOO. pose proof (Rsqr_abs (vx w)) as Hs. unfold Rsqr in Hs.
        rewrite <- Hs. ring. }
      pose proof (Rabs_pos (vx w)). nra. }
    assert (Ex : Rabs (vx w / O) = 1).
    { unfold Rdiv. rewrite Rabs_mult, Rabs_inv, <- HOa, (Rabs_right O) by lra.
      field. lra. }
    unfold allclose, isclose in E. cbn [vx vy vz vabs vdiv] in E.
    rewrite Ex, Hb, Hc in E. unfold Rdiv in E.
    rewrite Rmult_0_l, Rabs_R0 in E.
    replace (1 - 1) with 0 in E by ring. replace (0 - 0) with 0 in E by ring.
    rewrite Rabs_R0, Rabs_R1 in E. unfold rtol, atol in E.
    replace (Rleb 0 (1 / 100000000 + 1 / 100000 * 1)) with true in E
      by (symmetry; apply Rleb_true; lra).
    replace (Rleb 0 (1 / 100000000 + 1 / 100000 * 0)) with true in E
      by (symmetry; apply Rleb_true; lra).
    discriminate.
Qed.

Lemma rot_matrix_nonzero w :
  w <> V3 0 0 0 ->
  rot_matrix w =
  transpose3 (M3 (vdiv (cross w (perp1 w)) (angular_speed w))
                 (vdiv (cross w (cross w (perp1 w))) (angular_speed w ^ 2))
                 (vdiv w (angular_speed w))).
Proof.
  intros H. unfold rot_matrix. now rewrite (proj2 (vec3_eqb_false _ _) H).
Qed.

Lemma rot_matrix_zero : rot_matrix (V3 0 0 0) = identity3.
Proof.
  unfold rot_matrix. now rewrite (proj2 (vec3_eqb_true _ _) eq_refl).
Qed.

Lemma frame_scale_pos w : w <> V3 0 0 0 -> 0 < frame_scale w.
Proof.
  intros Hw. unfold frame_scale.
  pose proof (angular_speed_pos w Hw) as HO.
  pose proof (perp1_not_parallel w Hw) as Hp.
  apply Rdiv_lt_0_compat; [|nra].
  pose proof (dot_self_nonneg (cross w (perp1 w))) as [H|H]; [exact H|].
  exfalso. apply Hp. apply norm_zero_iff. unfold norm. rewrite <- H. apply sqrt_0.
Qed.

(** The columns of the frame: mutually orthogonal, the third of length one,
    the first two of one length. *)
Lemma rot_matrix_columns w :
  w <> V3 0 0 0 ->
  let m := rot_matrix w in
  col2 m = vdiv w (angular_speed w) /\
  dot (col0 m) (col1 m) = 0 /\
  dot (col0 m) (col2 m) = 0 /\
  dot (col1 m) (col2 m) = 0 /\
  dot (col2 m) (col2 m) = 1 /\
  dot (col0 m) (col0 m) = frame_scale w /\
  dot (col1 m) (col1 m) = frame_scale w /\
  det3 m = frame_scale w.
Proof.
  intros Hw m. subst m. rewrite (rot_matrix_nonzero w Hw).
  pose proof (angular_speed_pos w Hw) as HO.
  pose proof (angular_speed_sqr w) as HOO.
  unfold frame_scale.
  set (O := angular_speed w) in *.
  destruct w as [a b c]. cbn [vx vy vz] in HOO.
  assert (HO2 : O ^ 2 = a ^ 2 + b ^ 2 + c ^ 2) by (rewrite <- HOO; ring).
  assert (HOn : O <> 0) by lra.
  destruct (perp1 (V3 a b c)) as [p q r].
  unfold col0, col1, col2, det3, dot, cross, vdiv, transpose3.
  cbn [row0 row1 row2 vx vy vz].
  split; [reflexivity|].
  assert (Hk : / O * / O * (a ^ 2 + b ^ 2 + c ^ 2) = 1).
  { rewrite <- HO2. field. exact HOn. }
  unfold Rdiv. rewrite HO2.
  assert (Hs : a ^ 2 + b ^ 2 + c ^ 2 <> 0) by (rewrite <- HO2; nra).
  assert (Hi : / (a ^ 2 + b ^ 2 + c ^ 2) = / O * / O).
  { rewrite <- HO2. field. exact HOn. }
  rewrite Hi. set (k := / O) in *. clearbody k. clear Hi HO2 HOO HO HOn O Hw.
  set (n2 := a ^ 2 + b ^ 2 + c ^ 2) in *.
  assert (Hn2 : n2 = a * a + b * b + c * c) by (unfold n2; ring).
  repeat split.
  - ring.
  - ring.
  - ring.
  - rewrite <- Hk, Hn2. ring.
  - ring.
  - match goal with |- _ = ?rhs => transitivity (rhs * (k * k * n2)) end;
      [rewrite Hn2; ring|rewrite Hk; ring].
  - match goal with |- _ = ?rhs => transitivity (rhs * (k * k * n2)) end;
      [rewrite Hn2; ring|rewrite Hk; ring].
Qed.

(** ** The step is a rigid transform *)

Lemma transpose3_cols m : m = transpose3 (M3 (col0 m) (col1 m) (col2 m)).
Proof. destruct m as [[a b c] [d e f] [g h i]]. reflexivity. Qed.

Lemma frame_norm m s q :
  dot (col0 m) (col1 m) = 0 ->
  dot (col0 m) (col2 m) = 0 ->
  dot (col1 m) (col2 m) = 0 ->
  dot (col2 m) (col2 m) = 1 ->
  dot (col0 m) (col0 m) = s ->
  dot (col1 m) (col1 m) = s ->
  dot (mat_vec3 m q) (mat_vec3 m q) = s * (vx q ^ 2 + vy q ^ 2) + vz q ^ 2.
Proof.
  intros H01 H02 H12 H22 H00 H11.
  transitivity
    (vx q ^ 2 * dot (col0 m) (col0 m) + vy q ^ 2 * dot (col1 m) (col1 m)
     + vz q ^ 2 * dot (col2 m) (col2 m)
     + 2 * vx q * vy q * dot (col0 m) (col1 m)
     + 2 * vx q * vz q * dot (col0 m) (col2 m)
     + 2 * vy q * vz q * dot (col1 m) (col2 m)).
  - destruct m as [[a b c] [d e f] [g h i]], q as [x y z].
    unfold col0, col1, col2, mat_vec3, dot, transpose3.
    cbn [row0 row1 row2 vx vy vz]. ring.
  - rewrite H01, H02, H12, H22, H00, H11. ring.
Qed.

Lemma turn_invariants delta q :
  vx (turn delta q) ^ 2 + vy (turn delta q) ^ 2 = vx q ^ 2 + vy q ^ 2 /\
  vz (turn delta q) = vz q.
Proof.
  unfold turn. cbn [vx vy vz]. split; [|reflexivity].
  pose proof (sin2_cos2 delta) as H. unfold Rsqr in H.
  transitivity ((vx q ^ 2 + vy q ^ 2) * (sin delta * sin delta + cos delta * cos delta)).
  - ring.
  - rewrite H. ring.
Qed.

Lemma turn_sub delta a b : vsub (turn delta a) (turn delta b) = turn delta (vsub a b).
Proof. apply vec3_eq; unfold turn, vsub; cbn [vx vy vz]; ring. Qed.

Lemma mat_vec3_sub m a b :
  vsub (mat_vec3 m a) (mat_vec3 m b) = mat_vec3 m (vsub a b).
Proof. apply vec3_eq; unfold mat_vec3, dot, vsub; cbn [vx vy vz]; ring. Qed.

Lemma vadd_vsub_cancel R a b : vsub (vadd R a) (vadd R b) = vsub a b.
Proof. apply vec3_eq; unfold vadd, vsub; cbn [vx vy vz]; ring. Qed.

Lemma vsub_vsub_cancel R a b : vsub (vsub a R) (vsub b R) = vsub a b.
Proof. apply vec3_eq; unfold vsub; cbn [vx vy vz]; ring. Qed.

Lemma turn_zero_angle q : turn 0 q = q.
Proof.
  apply vec3_eq; unfold turn; cbn [vx vy vz]; rewrite ?cos_0, ?sin_0; ring.
Qed.

(** For a non-zero angular velocity the frame is invertible. *)
Lemma rot_matrix_inverse w :
  exists mi, inv3 (rot_matrix w) = Ok mi /\
             (forall v, mat_vec3 (rot_matrix w) (mat_vec3 mi v) = v) /\
             (forall v, mat_vec3 mi (mat_vec3 (rot_matrix w) v) = v).
Proof.
  assert (Hd : det3 (rot_matrix w) <> 0).
  { destruct (vec3_eqb w (V3 0 0 0)) eqn:E.
    - apply vec3_eqb_true in E. subst w. rewrite rot_matrix_zero.
      unfold det3, identity3, dot, cross. cbn [row0 row1 row2 vx vy vz]. lra.
    - apply vec3_eqb_false in E.
      destruct (rot_matrix_columns w E) as (_ & _ & _ & _ & _ & _ & _ & Hdet).
      rewrite Hdet. pose proof (frame_scale_pos w E). lra. }
  destruct (inv3_ok _ Hd) as (mi & Hi & H1 & H2 & _). eauto.
Qed.

(** The two markers of a sphere with a non-zero angular velocity, after the
    step: their new offsets are at the distance of the old ones. *)
Lemma rotation_preserves_distance w mi timestep R0 R rb0 rb1 :
  w <> V3 0 0 0 ->
  inv3 (rot_matrix w) = Ok mi ->
  (forall v, mat_vec3 (rot_matrix w) (mat_vec3 mi v) = v) ->
  let new rb :=
    vadd R (mat_vec3 (rot_matrix w)
              (turn (timestep * angular_speed w) (mat_vec3 mi (vsub rb R0)))) in
  distance (new rb0) (new rb1) = distance rb0 rb1.
Proof.
  intros Hw Hi Hinv new. subst new. unfold distance, norm. f_equal.
  rewrite vadd_vsub_cancel, mat_vec3_sub, turn_sub, mat_vec3_sub, vsub_vsub_cancel.
  destruct (rot_matrix_columns w Hw) as (_ & H01 & H02 & H12 & H22 & H00 & H11 & _).
  cbv zeta in *.
  rewrite (frame_norm _ _ _ H01 H02 H12 H22 H00 H11).
  destruct (turn_invariants (timestep * angular_speed w) (mat_vec3 mi (vsub rb0 rb1)))
    as [-> ->].
  rewrite <- (frame_norm _ _ _ H01 H02 H12 H22 H00 H11).
  now rewrite Hinv.
Qed.

(** ** The loop on the spheres *)

Lemma store_ok {A} (l : list A) : forall i a,
  (i < length l)%nat ->
  exists l', store l i a = Ok l' /\
             length l' = length l /\
             nth_error l' i = Some a /\
             (forall j, j <> i -> nth_error l' j = nth_error l j).
Proof.
  induction l as [|h t IH]; intros [|i] a Hi; simpl in Hi; try lia.
  - exists (a :: t). repeat split; auto. intros [|j] Hj; [lia|reflexivity].
  - destruct (IH i a) as (t' & E & Hl & Hn & Ho); [lia|].
    exists (h :: t'). simpl. rewrite E. cbn [bind]. repeat split; simpl; auto.
    intros [|j] Hj; [reflexivity|]. apply Ho. lia.
Qed.

Lemma index_some {A} (l : list A) i a : nth_error l i = Some a -> index l i = Ok a.
Proof. intros H. unfold index. now rewrite H. Qed.

Lemma rotated_offset_total w timestep R0 rb0 :
  exists offset,
    rotated_offset (rot_matrix w) (angular_speed w) timestep R0 rb0 = Ok offset.
Proof.
  destruct (rot_matrix_inverse w) as (mi & Hi & H1 & _).
  rewrite (rotated_offset_value _ mi _ _ _ _ Hi H1). eauto.
Qed.

Lemma update_marker_0 rotations new_positions timestep i R0 O rot buf
  rb0 rb1 R offset b0 b1 :
  nth_error rotations i = Some (rb0, rb1) ->
  nth_error new_positions i = Some R ->
  nth_error buf i = Some (b0, b1) ->
  rotated_offset rot O timestep R0 rb0 = Ok offset ->
  exists buf',
    update_marker rotations new_positions timestep i R0 O rot 0 buf = Ok buf' /\
    length buf' = length buf /\
    nth_error buf' i = Some (translate R offset, b1) /\
    (forall j, j <> i -> nth_error buf' j = nth_error buf j).
Proof.
  intros Hm HR Hb E.
  assert (Hi : (i < length buf)%nat) by (apply nth_error_Some; congruence).
  destruct (store_ok buf i (translate R offset, b1) Hi) as (buf' & S1 & L1 & N1 & O1).
  exists buf'. unfold update_marker.
  rewrite (index_some _ _ _ Hm). cbn [bind marker fst]. rewrite E. cbn [bind].
  rewrite (index_some _ _ _ HR), (index_some _ _ _ Hb). cbn [bind set_marker snd].
  rewrite S1. auto.
Qed.

Lemma update_marker_1 rotations new_positions timestep i R0 O rot buf
  rb0 rb1 R offset b0 b1 :
  nth_error rotations i = Some (rb0, rb1) ->
  nth_error new_positions i = Some R ->
  nth_error buf i = Some (b0, b1) ->
  rotated_offset rot O timestep R0 rb1 = Ok offset ->
  exists buf',
    update_marker rotations new_positions timestep i R0 O rot 1 buf = Ok buf' /\
    length buf' = length buf /\
    nth_error buf' i = Some (b0, translate R offset) /\
    (forall j, j <> i -> nth_error buf' j = nth_error buf j).
Proof.
  intros Hm HR Hb E.
  assert (Hi : (i < length buf)%nat) by (apply nth_error_Some; congruence).
  destruct (store_ok buf i (b0, translate R offset) Hi) as (buf' & S1 & L1 & N1 & O1).
  exists buf'. unfold update_marker.
  rewrite (index_some _ _ _ Hm). cbn [bind marker snd]. rewrite E. cbn [bind].
  rewrite (index_some _ _ _ HR), (index_some _ _ _ Hb). cbn [bind set_marker fst].
  rewrite S1. auto.
Qed.

Lemma update_sphere_ok positions rotations new_positions Oa_out timestep i buf :
  (i < length positions)%nat -> (i < length rotations)%nat ->
  (i < length new_positions)%nat -> (i < length Oa_out)%nat ->
  (i < length buf)%nat ->
  exists buf' row,
    update_sphere positions rotations new_positions Oa_out timestep i buf = Ok buf' /\
    length buf' = length buf /\
    nth_error buf' i = Some row /\
    sphere_updated positions rotations new_positions Oa_out timestep i row /\
    (forall j, j <> i -> nth_error buf' j = nth_error buf j).
Proof.
  intros Hp Hr Hn Ho Hb.
  destruct (index_lt positions i Hp) as (R0 & ER0 & NR0).
  destruct (index_lt Oa_out i Ho) as (w & Ew & Nw).
  destruct (index_lt rotations i Hr) as ([rb0 rb1] & Em & Nm).
  destruct (index_lt new_positions i Hn) as (R & ER & NR).
  destruct (index_lt buf i Hb) as ([b0 b1] & Eb & Nb).
  destruct (rotated_offset_total w timestep R0 rb0) as [off0 E0].
  destruct (rotated_offset_total w timestep R0 rb1) as [off1 E1].
  destruct (update_marker_0 rotations new_positions timestep i R0
              (angular_speed w) (rot_matrix w) buf rb0 rb1 R off0 b0 b1 Nm NR Nb E0)
    as (buf1 & S1 & L1 & N1 & O1).
  destruct (update_marker_1 rotations new_positions timestep i R0
              (angular_speed w) (rot_matrix w) buf1 rb0 rb1 R off1 _ b1 Nm NR N1 E1)
    as (buf2 & S2 & L2 & N2 & O2).
  unfold update_sphere. rewrite ER0, Ew. cbn [bind]. cbv zeta.
  rewrite !for_range_S. cbn [for_range]. rewrite S1. cbn [bind]. rewrite S2. cbn [bind].
  exists buf2, (translate R off0, translate R off1).
  split; [reflexivity|]. split; [lia|]. split; [exact N2|]. split.
  - exists R0, w, rb0, rb1, R, off0, off1. repeat split; assumption.
  - intros j Hj. rewrite (O2 j Hj). apply O1, Hj.
Qed.

Lemma rotation_loop positions rotations new_positions Oa_out timestep :
  forall k i buf,
  (i + k <= length positions)%nat -> (i + k <= length rotations)%nat ->
  (i + k <= length new_positions)%nat -> (i + k <= length Oa_out)%nat ->
  (i + k <= length buf)%nat ->
  exists out,
    for_range i k
      (update_sphere positions rotations new_positions Oa_out timestep) buf = Ok out /\
    length out = length buf /\
    (forall j, (i <= j < i + k)%nat ->
       exists row, nth_error out j = Some row /\
         sphere_updated positions rotations new_positions Oa_out timestep j row) /\
    (forall j, (j < i \/ i + k <= j)%nat -> nth_error out j = nth_error buf j).
Proof.
  induction k as [|k IH]; intros i buf Hp Hr Hn Ho Hb.
  - exists buf. cbn [for_range]. repeat split; auto. intros j Hj. lia.
  - rewrite for_range_S.
    destruct (update_sphere_ok positions rotations new_positions Oa_out timestep i buf)
      as (buf1 & row & E & L & N & U & O); try lia.
    rewrite E. cbn [bind].
    destruct (IH (S i) buf1) as (out & E' & L' & U' & O'); try lia.
    exists out. split; [exact E'|]. split; [lia|]. split.
    + intros j Hj. destruct (Nat.eq_dec j i) as [->|Hne].
      * exists row. split; [|exact U]. rewrite O' by lia. exact N.
      * apply U'. lia.
    + intros j Hj. rewrite O' by lia. apply O. lia.
Qed.

(** With one row per sphere in every array, the step returns; row [i] of
    the result holds the two stepped markers of sphere [i]. *)
Lemma euler_timestep_rotation_rows positions rotations new_positions buf Oa_out timestep :
  (length positions <= length rotations)%nat ->
  (length positions <= length new_positions)%nat ->
  (length positions <= length Oa_out)%nat ->
  (length positions <= length buf)%nat ->
  exists out,
    euler_timestep_rotation positions rotations new_positions buf Oa_out timestep
    = Ok out /\
    length out = length buf /\
    (forall j, (j < length positions)%nat ->
       exists row, nth_error out j = Some row /\
         sphere_updated positions rotations new_positions Oa_out timestep j row) /\
    (forall j, (length positions <= j)%nat -> nth_error out j = nth_error buf j).
Proof.
  intros Hr Hn Ho Hb. unfold euler_timestep_rotation.
  destruct (rotation_loop positions rotations new_positions Oa_out timestep
              (length positions) 0 buf) as (out & E & L & U & O); try lia.
  exists out. split; [exact E|]. split; [exact L|]. split.
  - intros j Hj. apply U. lia.
  - intros j Hj. apply O. lia.
Qed.

(** C2, amended.  For every sphere with a non-zero angular velocity whose two
    marker endpoints are distinct from the sphere centre, one step of
    [euler_timestep_rotation] returns, leaves two finite markers in the
    sphere's row, and preserves the Euclidean distance between them. *)
Theorem rotation_step_preserves_marker_distance
  (sphere_positions : list vec3) (sphere_rotations : list (vec3 * vec3))
  (new_sphere_positions : list vec3) (new_sphere_rotations : list (fvec3 * fvec3))
  (Oa_out : list vec3) (timestep : R)
  (i : nat) (R0 Oa rb0 rb1 : vec3) :
  (length sphere_positions <= length sphere_rotations)%nat ->
  (length sphere_positions <= length new_sphere_positions)%nat ->
  (length sphere_positions <= length Oa_out)%nat ->
  (length sphere_positions <= length new_sphere_rotations)%nat ->
  nth_error sphere_positions i = Some R0 ->
  nth_error Oa_out i = Some Oa ->
  nth_error sphere_rotations i = Some (rb0, rb1) ->
  Oa <> V3 0 0 0 ->
  rb0 <> R0 -> rb1 <> R0 ->
  exists out new0 new1,
    euler_timestep_rotation sphere_positions sphere_rotations
      new_sphere_positions new_sphere_rotations Oa_out timestep = Ok out /\
    nth_error out i = Some (Finite new0, Finite new1) /\
    distance new0 new1 = distance rb0 rb1.
Proof.
  intros Hr Hn Ho Hb HR0 HOa Hm Hw H0 H1.
  destruct (euler_timestep_rotation_rows sphere_positions sphere_rotations
              new_sphere_positions new_sphere_rotations Oa_out timestep Hr Hn Ho Hb)
    as (out & E & _ & U & _).
  assert (Hi : (i < length sphere_positions)%nat).
  { apply nth_error_Some. congruence. }
  destruct (U i Hi) as (row & Nrow & R0' & w' & a & b & R & off0 & off1 &
                        HR0' & Hw' & Hm' & HR & E0 & E1 & ->).
  rewrite HR0 in HR0'. rewrite HOa in Hw'. rewrite Hm in Hm'.
  inversion HR0'; inversion Hw'; inversion Hm'; subst R0' w' a b.
  destruct (rot_matrix_inverse Oa) as (mi & Hinv & Hright & _).
  rewrite (rotated_offset_value _ mi _ _ _ _ Hinv Hright) in E0.
  rewrite (rotated_offset_value _ mi _ _ _ _ Hinv Hright) in E1.
  rewrite (proj2 (vec3_eqb_false _ _) H0) in E0.
  rewrite (proj2 (vec3_eqb_false _ _) H1) in E1.
  inversion E0; inversion E1; subst off0 off1. cbn [translate] in Nrow.
  eexists out, _, _. split; [exact E|]. split; [exact Nrow|].
  apply (rotation_preserves_distance Oa mi timestep R0 R rb0 rb1 Hw Hinv Hright).
Qed.

(** One sphere turning about the z axis, with markers on the x and y axes. *)
Lemma rotation_step_preserves_marker_distance_witness :
  exists out new0 new1,
    euler_timestep_rotation [V3 0 0 0] [(V3 1 0 0, V3 0 1 0)] [V3 0 0 0]
      [(Finite (V3 1 0 0), Finite (V3 0 1 0))] [V3 0 0 1] 1 = Ok out /\
    nth_error out 0 = Some (Finite new0, Finite new1) /\
    distance new0 new1 = distance (V3 1 0 0) (V3 0 1 0).
Proof.
  apply (rotation_step_preserves_marker_distance
           [V3 0 0 0] [(V3 1 0 0, V3 0 1 0)] [V3 0 0 0]
           [(Finite (V3 1 0 0), Finite (V3 0 1 0))] [V3 0 0 1] 1
           0 (V3 0 0 0) (V3 0 0 1) (V3 1 0 0) (V3 0 1 0));
    try (simpl; lia); try reflexivity; vec3_neq.
Defined.

(** C2 as stated fails for a marker on the sphere centre: with a non-zero
    angular velocity the step leaves a NaN in its place, so that no distance
    is preserved. *)
Lemma rotation_step_marker_on_centre :
  (exists new1,
     euler_timestep_rotation [V3 0 0 0] [(V3 0 0 0, V3 1 0 0)] [V3 0 0 0]
       [(Finite (V3 0 0 0), Finite (V3 1 0 0))] [V3 0 0 1] 1
     = Ok [(NaN3, new1)]) /\
  ~ (exists out new0 new1,
       euler_timestep_rotation [V3 0 0 0] [(V3 0 0 0, V3 1 0 0)] [V3 0 0 0]
         [(Finite (V3 0 0 0), Finite (V3 1 0 0))] [V3 0 0 1] 1 = Ok out /\
       nth_error out 0 = Some (Finite new0, Finite new1) /\
       distance new0 new1 = distance (V3 0 0 0) (V3 1 0 0)).
Proof.
  destruct (euler_timestep_rotation_rows [V3 0 0 0] [(V3 0 0 0, V3 1 0 0)]
              [V3 0 0 0] [(Finite (V3 0 0 0), Finite (V3 1 0 0))] [V3 0 0 1] 1)
    as (out & E & L & U & _); try (simpl; lia).
  destruct (U 0%nat) as (row & Nrow & R0 & w & a & b & R & off0 & off1 &
                         HR0 & Hw & Hm & HR & E0 & E1 & ->); [simpl; lia|].
  simpl in HR0, Hw, Hm, HR.
  inversion HR0; inversion Hw; inversion Hm; inversion HR; subst R0 w a b R.
  destruct (rot_matrix_inverse (V3 0 0 1)) as (mi & Hinv & Hright & _).
  rewrite (rotated_offset_value _ mi _ _ _ _ Hinv Hright) in E0.
  rewrite (proj2 (vec3_eqb_true _ _) eq_refl) in E0.
  inversion E0; subst off0. cbn [translate] in Nrow.
  assert (Hout : out = [(NaN3, translate (V3 0 0 0) off1)]).
  { destruct out as [|r [|r' t]]; simpl in L; try discriminate.
    simpl in Nrow. now inversion Nrow. }
  subst out. split.
  - eexists. exact E.
  - intros (out' & n0 & n1 & E' & N' & _).
    rewrite E in E'. inversion E'; subst out'.
    simpl in N'. inversion N'.
Qed.

(** C8.  For every sphere whose angular velocity is exactly the zero vector
    and whose marker endpoints are distinct from the sphere centre, the step
    returns finite markers (no division by zero) whose offsets from the new
    centre are the offsets of the old markers from the old centre. *)
Theorem rotation_step_zero_angular_velocity
  (sphere_positions : list vec3) (sphere_rotations : list (vec3 * vec3))
  (new_sphere_positions : list vec3) (new_sphere_rotations : list (fvec3 * fvec3))
  (Oa_out : list vec3) (timestep : R)
  (i : nat) (R0 R rb0 rb1 : vec3) :
  (length sphere_positions <= length sphere_rotations)%nat ->
  (length sphere_positions <= length new_sphere_positions)%nat ->
  (length sphere_positions <= length Oa_out)%nat ->
  (length sphere_positions <= length new_sphere_rotations)%nat ->
  nth_error sphere_positions i = Some R0 ->
  nth_error new_sphere_positions i = Some R ->
  nth_error Oa_out i = Some (V3 0 0 0) ->
  nth_error sphere_rotations i = Some (rb0, rb1) ->
  rb0 <> R0 -> rb1 <> R0 ->
  exists out new0 new1,
    euler_timestep_rotation sphere_positions sphere_rotations
      new_sphere_positions new_sphere_rotations Oa_out timestep = Ok out /\
    nth_error out i = Some (Finite new0, Finite new1) /\
    vsub new0 R = vsub rb0 R0 /\
    vsub new1 R = vsub rb1 R0.
Proof.
  intros Hr Hn Ho Hb HR0 HR HOa Hm H0 H1.
  destruct (euler_timestep_rotation_rows sphere_positions sphere_rotations
              new_sphere_positions new_sphere_rotations Oa_out timestep Hr Hn Ho Hb)
    as (out & E & _ & U & _).
  assert (Hi : (i < length sphere_positions)%nat).
  { apply nth_error_Some. congruence. }
  destruct (U i Hi) as (row & Nrow & R0' & w' & a & b & R' & off0 & off1 &
                        HR0' & Hw' & Hm' & HR' & E0 & E1 & ->).
  rewrite HR0 in HR0'. rewrite HOa in Hw'. rewrite Hm in Hm'. rewrite HR in HR'.
  inversion HR0'; inversion Hw'; inversion Hm'; inversion HR'; subst R0' w' a b R'.
  destruct (rot_matrix_inverse (V3 0 0 0)) as (mi & Hinv & Hright & _).
  rewrite (rotated_offset_value _ mi _ _ _ _ Hinv Hright) in E0.
  rewrite (rotated_offset_value _ mi _ _ _ _ Hinv Hright) in E1.
  rewrite (proj2 (vec3_eqb_false _ _) H0) in E0.
  rewrite (proj2 (vec3_eqb_false _ _) H1) in E1.
  assert (Hspeed : angular_speed (V3 0 0 0) = 0).
  { unfold angular_speed. cbn [vx vy vz]. now apply sqr_sum_zero. }
  rewrite Hspeed, Rmult_0_r in E0, E1. rewrite !turn_zero_angle, !Hright in E0, E1.
  inversion E0; inversion E1; subst off0 off1. cbn [translate] in Nrow.
  eexists out, _, _. split; [exact E|]. split; [exact Nrow|].
  split; apply vec3_eq; unfold vadd, vsub; cbn [vx vy vz]; ring.
Qed.

(** One sphere at rest that is moved along x, with markers on the x and y
    axes. *)
Lemma rotation_step_zero_angular_velocity_witness :
  exists out new0 new1,
    euler_timestep_rotation [V3 0 0 0] [(V3 1 0 0, V3 0 1 0)] [V3 5 0 0]
      [(Finite (V3 1 0 0), Finite (V3 0 1 0))] [V3 0 0 0] 1 = Ok out /\
    nth_error out 0 = Some (Finite new0, Finite new1) /\
    vsub new0 (V3 5 0 0) = vsub (V3 1 0 0) (V3 0 0 0) /\
    vsub new1 (V3 5 0 0) = vsub (V3 0 1 0) (V3 0 0 0).
Proof.
  apply (rotation_step_zero_angular_velocity
           [V3 0 0 0] [(V3 1 0 0, V3 0 1 0)] [V3 5 0 0]
           [(Finite (V3 1 0 0), Finite (V3 0 1 0))] [V3 0 0 0] 1
           0 (V3 0 0 0) (V3 5 0 0) (V3 1 0 0) (V3 0 1 0));
    try (simpl; lia); try reflexivity; vec3_neq.
Defined.

(** C5, amended.  For every non-zero angular velocity the frame of
    [euler_timestep_rotation] has the unit vector [Oa / O] as its third
    column; the helper axis is the x axis, and the z axis exactly when
    [abs(Oa / O)] is within [np.allclose] of [(1, 0, 0)], as it is when [Oa]
    is parallel to x; the helper axis is never parallel to [Oa]; the columns
    of the matrix are the three vectors of lines 94-96, they are mutually
    orthogonal, and the matrix has a positive determinant. *)
Theorem rotation_frame_properties (Oa : vec3) :
  Oa <> V3 0 0 0 ->
  let O := angular_speed Oa in
  let m := rot_matrix Oa in
  (perp1 Oa = V3 0 0 1 <-> allclose (vabs (vdiv Oa O)) (V3 1 0 0) = true) /\
  (perp1 Oa = V3 1 0 0 <-> allclose (vabs (vdiv Oa O)) (V3 1 0 0) = false) /\
  (vy Oa = 0 -> vz Oa = 0 -> perp1 Oa = V3 0 0 1) /\
  cross Oa (perp1 Oa) <> vzero /\
  col0 m = vdiv (cross Oa (perp1 Oa)) O /\
  col1 m = vdiv (cross Oa (cross Oa (perp1 Oa))) (O ^ 2) /\
  col2 m = vdiv Oa O /\
  dot (col2 m) (col2 m) = 1 /\
  dot (col0 m) (col1 m) = 0 /\
  dot (col0 m) (col2 m) = 0 /\
  dot (col1 m) (col2 m) = 0 /\
  0 < det3 m.
Proof.
  intros Hw O m.
  destruct (rot_matrix_columns Oa Hw) as (H2 & H01 & H02 & H12 & H22 & _ & _ & Hdet).
  cbv zeta in *. fold m in H2, H01, H02, H12, H22, Hdet.
  pose proof (perp1_not_parallel Oa Hw) as Hnp.
  assert (Hz : perp1 Oa = V3 0 0 1 <-> allclose (vabs (vdiv Oa O)) (V3 1 0 0) = true).
  { unfold perp1. fold O. destruct (allclose _ _); split; intros H; auto; try discriminate.
    exfalso. apply (f_equal vx) in H. simpl in H. lra. }
  assert (Hx : perp1 Oa = V3 1 0 0 <-> allclose (vabs (vdiv Oa O)) (V3 1 0 0) = false).
  { unfold perp1. fold O. destruct (allclose _ _); split; intros H; auto; try discriminate.
    exfalso. apply (f_equal vx) in H. simpl in H. lra. }
  split; [exact Hz|]. split; [exact Hx|]. split.
  { intros Hb Hc. destruct (perp1_cases Oa) as [E|E]; [exact E|].
    exfalso. apply Hnp. rewrite E. apply vec3_eq; unfold cross; cbn [vx vy vz vzero];
      rewrite ?Hb, ?Hc; ring. }
  split; [exact Hnp|].
  assert (Hm : m = transpose3 (M3 (vdiv (cross Oa (perp1 Oa)) O)
                 (vdiv (cross Oa (cross Oa (perp1 Oa))) (O ^ 2))
                 (vdiv Oa O))) by apply (rot_matrix_nonzero Oa Hw).
  split; [rewrite Hm; reflexivity|]. split; [rewrite Hm; reflexivity|].
  split; [exact H2|]. split; [exact H22|]. split; [exact H01|].
  split; [exact H02|]. split; [exact H12|].
  rewrite Hdet. apply frame_scale_pos, Hw.
Qed.

(** The frame of an angular velocity along the x axis. *)
Lemma rotation_frame_properties_witness :
  perp1 (V3 2 0 0) = V3 0 0 1 /\ 0 < det3 (rot_matrix (V3 2 0 0)).
Proof.
  assert (Hw : V3 2 0 0 <> V3 0 0 0) by vec3_neq.
  destruct (rotation_frame_properties (V3 2 0 0) Hw)
    as (_ & _ & Hpar & _ & _ & _ & _ & _ & _ & _ & _ & Hdet).
  split; [apply Hpar; reflexivity|exact Hdet].
Defined.

Lemma angular_speed_3_4_0 : angular_speed (V3 3 4 0) = 5.
Proof. unfold angular_speed. cbn [vx vy vz]. apply sqrt_lem_1; lra. Qed.

(** C5 as stated fails for the angular velocity (3, 4, 0): it is not
    parallel to z, yet the helper axis is the x axis, not the z axis; and the
    first column of the matrix has the squared length 16/25, which is also
    the determinant: the matrix is not orthogonal and its determinant is not
    1. *)
Lemma rotation_frame_not_orthonormal :
  cross (V3 3 4 0) (V3 0 0 1) <> vzero /\
  perp1 (V3 3 4 0) = V3 1 0 0 /\
  dot (col0 (rot_matrix (V3 3 4 0))) (col0 (rot_matrix (V3 3 4 0))) = 16 / 25 /\
  det3 (rot_matrix (V3 3 4 0)) = 16 / 25 /\
  det3 (rot_matrix (V3 3 4 0)) <> 1.
Proof.
  assert (Hw : V3 3 4 0 <> V3 0 0 0) by vec3_neq.
  assert (Hp : perp1 (V3 3 4 0) = V3 1 0 0).
  { unfold perp1. rewrite angular_speed_3_4_0.
    unfold allclose, isclose, vabs, vdiv. cbn [vx vy vz].
    replace (Rleb (Rabs (Rabs (3 / 5) - 1)) (atol + rtol * Rabs 1)) with false;
      [reflexivity|].
    symmetry. apply Rleb_false. unfold atol, rtol.
    rewrite Rabs_R1, (Rabs_right (3 / 5)) by lra.
    rewrite Rabs_left by lra. lra. }
  assert (Hs : frame_scale (V3 3 4 0) = 16 / 25).
  { unfold frame_scale. rewrite Hp, angular_speed_3_4_0.
    unfold dot, cross. cbn [vx vy vz]. field. }
  destruct (rot_matrix_columns (V3 3 4 0) Hw) as (_ & _ & _ & _ & _ & H00 & _ & Hdet).
  cbv zeta in *.
  split; [vec3_neq|]. split; [exact Hp|].
  split; [now rewrite H00|]. split; [now rewrite Hdet|].
  rewrite Hdet, Hs. lra.
Qed.

(** ** Periodic wrap *)

Lemma np_mod1_range x : 0 <= np_mod1 x < 1.
Proof.
  unfold np_mod1. pose proof (base_fp x) as [H1 H2]. unfold frac_part in *. lra.
Qed.

Lemma np_mod1_shift x (k : Z) : IZR k <= x < IZR k + 1 -> np_mod1 x = x - IZR k.
Proof.
  intros H. unfold np_mod1.
  rewrite <- (Int_part_spec x k); [reflexivity|]. lra.
Qed.

Lemma np_mod1_small x : 0 <= x < 1 -> np_mod1 x = x.
Proof. intros H. rewrite (np_mod1_shift x 0); [lra|lra]. Qed.

Lemma reduce_idempotent c : reduce (reduce c) = reduce c.
Proof.
  unfold reduce. f_equal.
  replace (np_mod1 (c + 0.5) - 0.5 + 0.5) with (np_mod1 (c + 0.5)) by ring.
  apply np_mod1_small, np_mod1_range.
Qed.

Lemma inv3_inversion m mi : inv3 m = Ok mi -> det3 m <> 0.
Proof.
  unfold inv3. destruct (Reqb (det3 m) 0) eqn:E; [discriminate|].
  intros _. now apply Reqb_false.
Qed.

Lemma wrap_around_value shear ps bl tr Ot Et qs :
  wrap_around shear ps bl tr Ot Et = Ok qs ->
  exists inv_basis,
    inv3 (shear (diag3 (vsub tr bl)) (vsub tr bl) Ot Et) = Ok inv_basis /\
    qs = map (wrap_position (shear (diag3 (vsub tr bl)) (vsub tr bl) Ot Et)
                inv_basis) ps.
Proof.
  unfold wrap_around.
  destruct (inv3 (shear (diag3 (vsub tr bl)) (vsub tr bl) Ot Et)) as [mi|e];
    cbn [bind]; [|discriminate].
  intros H. inversion H. exists mi. split; reflexivity.
Qed.

Lemma wrap_position_idempotent basis inv_basis x :
  inv3 basis = Ok inv_basis ->
  wrap_position basis inv_basis (wrap_position basis inv_basis x)
  = wrap_position basis inv_basis x.
Proof.
  intros Hi. pose proof (inv3_inversion _ _ Hi) as Hd.
  destruct (inv3_ok basis Hd) as (mi & Hi' & _ & _ & Hl & _).
  rewrite Hi in Hi'. inversion Hi'; subst mi.
  unfold wrap_position. rewrite Hl. f_equal.
  destruct (vec_mat3 x inv_basis) as [a b c]. unfold vmap. cbn [vx vy vz].
  now rewrite !reduce_idempotent.
Qed.

Lemma wrap_around_idempotent shear ps bl tr Ot Et qs :
  wrap_around shear ps bl tr Ot Et = Ok qs ->
  wrap_around shear qs bl tr Ot Et = Ok qs.
Proof.
  intros H. destruct (wrap_around_value _ _ _ _ _ _ _ H) as (mi & Hi & ->).
  unfold wrap_around. rewrite Hi. cbn [bind]. f_equal.
  rewrite map_map. apply map_ext. intros x.
  apply (wrap_position_idempotent _ _ x Hi).
Qed.

Lemma det3_diag3 d : det3 (diag3 d) = vx d * (vy d * vz d).
Proof. unfold det3, diag3, dot, cross. cbn [row0 row1 row2 vx vy vz]. ring. Qed.

Lemma wrap_position_diag d mi x :
  vx d <> 0 -> vy d <> 0 -> vz d <> 0 ->
  inv3 (diag3 d) = Ok mi ->
  wrap_position (diag3 d) mi x =
  V3 (wrap_coordinate (vx x) (vx d)) (wrap_coordinate (vy x) (vy d))
     (wrap_coordinate (vz x) (vz d)).
Proof.
  intros Hx Hy Hz Hi.
  assert (Hd : det3 (diag3 d) <> 0).
  { rewrite det3_diag3. intros H.
    apply Rmult_integral in H as [H|H]; [contradiction|].
    apply Rmult_integral in H as [H|H]; contradiction. }
  destruct (inv3_value _ Hd) as (mi' & Hi' & _ & Hv).
  rewrite Hi in Hi'. inversion Hi'; subst mi'.
  unfold wrap_position. rewrite Hv, det3_diag3.
  assert (Hq : vscale (/ (vx d * (vy d * vz d))) (vec_mat3 x (adjugate3 (diag3 d)))
               = V3 (vx x / vx d) (vy x / vy d) (vz x / vz d)).
  { destruct d as [dx dy dz], x as [a b c]. cbn [vx vy vz] in *.
    apply vec3_eq;
      cbv [vscale vec_mat3 mat_vec3 transpose3 adjugate3 diag3 dot cross
           row0 row1 row2 vx vy vz]; field; repeat split; assumption. }
  rewrite Hq. destruct d as [dx dy dz].
  apply vec3_eq;
    cbv [wrap_coordinate vec_mat3 mat_vec3 transpose3 vmap diag3 dot
         row0 row1 row2 vx vy vz]; ring.
Qed.

Lemma wrap_coordinate_next_image c L :
  0 < L -> L / 2 <= c < 3 * L / 2 -> wrap_coordinate c L = c - L.
Proof.
  intros HL Hc. unfold wrap_coordinate, reduce.
  rewrite (np_mod1_shift (c / L + 0.5) 1).
  - field. lra.
  - assert (H1 : 1 / 2 <= c / L).
    { apply Rmult_le_reg_r with L; [lra|].
      replace (c / L * L) with c by (field; lra). lra. }
    assert (H2 : c / L < 3 / 2).
    { apply Rmult_lt_reg_r with L; [lra|].
      replace (c / L * L) with c by (field; lra). lra. }
    lra.
Qed.

Lemma wrap_around_axis_aligned shear ps bl tr Ot Et :
  shear (diag3 (vsub tr bl)) (vsub tr bl) Ot Et = diag3 (vsub tr bl) ->
  vx tr - vx bl <> 0 -> vy tr - vy bl <> 0 -> vz tr - vz bl <> 0 ->
  wrap_around shear ps bl tr Ot Et =
  Ok (map (fun x =>
             V3 (wrap_coordinate (vx x) (vx tr - vx bl))
                (wrap_coordinate (vy x) (vy tr - vy bl))
                (wrap_coordinate (vz x) (vz tr - vz bl))) ps).
Proof.
  intros Hs Hx Hy Hz.
  assert (Hd : det3 (diag3 (vsub tr bl)) <> 0).
  { rewrite det3_diag3. cbn [vsub vx vy vz]. intros H.
    apply Rmult_integral in H as [H|H]; [contradiction|].
    apply Rmult_integral in H as [H|H]; contradiction. }
  destruct (inv3_ok _ Hd) as (mi & Hi & _).
  unfold wrap_around. rewrite Hs, Hi. cbn [bind]. f_equal.
  apply map_ext. intros x.
  apply (wrap_position_diag (vsub tr bl) mi x Hx Hy Hz Hi).
Qed.

(** C3, amended.  [wrap_around] is idempotent: applied to positions it has
    returned, it returns them unchanged.  For an axis-aligned box that is not
    sheared, of length [L] along an axis, a position at [box_top_right + eps]
    along that axis is mapped to [box_bottom_left + eps] along it whenever
    [L/2 <= box_top_right + eps < 3L/2] (for a box centred on the origin:
    whenever [0 <= eps < L]). *)
Theorem wrap_around_idempotent_and_modular
  (shear_basis_vectors : mat3 -> vec3 -> vec3 -> mat3 -> mat3)
  (new_sphere_positions : list vec3) (box_bottom_left box_top_right : vec3)
  (Ot_infinity : vec3) (Et_infinity : mat3) :
  (forall wrapped,
     wrap_around shear_basis_vectors new_sphere_positions
       box_bottom_left box_top_right Ot_infinity Et_infinity = Ok wrapped ->
     wrap_around shear_basis_vectors wrapped
       box_bottom_left box_top_right Ot_infinity Et_infinity = Ok wrapped) /\
  (shear_basis_vectors (diag3 (vsub box_top_right box_bottom_left))
     (vsub box_top_right box_bottom_left) Ot_infinity Et_infinity
   = diag3 (vsub box_top_right box_bottom_left) ->
   vx box_bottom_left < vx box_top_right ->
   vy box_bottom_left < vy box_top_right ->
   vz box_bottom_left < vz box_top_right ->
   forall (a : axis) (x : vec3) (eps : R),
     coord a x = coord a box_top_right + eps ->
     (coord a box_top_right - coord a box_bottom_left) / 2
       <= coord a box_top_right + eps
       < 3 * (coord a box_top_right - coord a box_bottom_left) / 2 ->
     exists y,
       wrap_around shear_basis_vectors [x]
         box_bottom_left box_top_right Ot_infinity Et_infinity = Ok [y] /\
       coord a y = coord a box_bottom_left + eps).
Proof.
  split.
  - intros wrapped. apply wrap_around_idempotent.
  - intros Hs Hx Hy Hz a x eps Hc Hr.
    rewrite (wrap_around_axis_aligned _ [x] _ _ _ _ Hs) by lra.
    eexists. split; [reflexivity|].
    destruct a; cbn [coord vx vy vz] in *;
      rewrite wrap_coordinate_next_image by lra; lra.
Qed.

(** A box centred on the origin with sides of length 10, a position one
    unit beyond the top along x. *)
Lemma wrap_around_idempotent_and_modular_witness :
  exists y,
    wrap_around (fun basis _ _ _ => basis) [V3 6 0 0]
      (V3 (-5) (-5) (-5)) (V3 5 5 5) default_Ot_infinity default_Et_infinity
    = Ok [y] /\
    vx y = -5 + 1.
Proof.
  destruct (wrap_around_idempotent_and_modular (fun basis _ _ _ => basis)
              [V3 6 0 0] (V3 (-5) (-5) (-5)) (V3 5 5 5)
              default_Ot_infinity default_Et_infinity) as [_ H].
  apply (H eq_refl) with (a := AxisX) (x := V3 6 0 0) (eps := 1);
    cbn [coord vx vy vz]; lra.
Defined.

(** C3 as stated fails for a box that is not centred on the origin: in the
    box from (10, 10, 10) to (20, 20, 20) the position at
    [box_top_right + 1] along x is mapped to 1, not to
    [box_bottom_left + 1 = 11]. *)
Lemma wrap_around_not_modular_off_centre :
  exists y,
    wrap_around (fun basis _ _ _ => basis) [V3 21 15 15]
      (V3 10 10 10) (V3 20 20 20) default_Ot_infinity default_Et_infinity
    = Ok [y] /\
    vx y = 1 /\ vx y <> 10 + 1.
Proof.
  rewrite wrap_around_axis_aligned; cbn [vx vy vz]; try reflexivity; try lra.
  eexists. split; [reflexivity|]. cbn [vx].
  assert (H : wrap_coordinate 21 (20 - 10) = 1).
  { unfold wrap_coordinate, reduce.
    rewrite (np_mod1_shift (21 / (20 - 10) + 0.5) 2); lra. }
  rewrite H. lra.
Qed.

Lemma reduce_range c : -0.5 <= reduce c < 0.5.
Proof. unfold reduce. pose proof (np_mod1_range (c + 0.5)). lra. Qed.

(** C9.  The result of [wrap_around] depends on the box corners only through
    their difference: translating both corners by the same vector changes
    nothing.  The cell the positions are wrapped into is centred on the
    origin: a wrapped position is a combination of the basis vectors of the
    box with coefficients in [[-0.5, 0.5)]. *)
Theorem wrap_around_translation_invariant
  (shear_basis_vectors : mat3 -> vec3 -> vec3 -> mat3 -> mat3)
  (new_sphere_positions : list vec3) (box_bottom_left box_top_right t : vec3)
  (Ot_infinity : vec3) (Et_infinity : mat3) :
  wrap_around shear_basis_vectors new_sphere_positions
    (vadd box_bottom_left t) (vadd box_top_right t) Ot_infinity Et_infinity
  = wrap_around shear_basis_vectors new_sphere_positions
      box_bottom_left box_top_right Ot_infinity Et_infinity /\
  match wrap_around shear_basis_vectors new_sphere_positions
          (vadd box_bottom_left t) (vadd box_top_right t)
          Ot_infinity Et_infinity with
  | Ok wrapped =>
      Forall (fun y =>
                exists q, in_centred_cell q /\
                  y = vec_mat3 q
                        (shear_basis_vectors
                           (diag3 (vsub box_top_right box_bottom_left))
                           (vsub box_top_right box_bottom_left)
                           Ot_infinity Et_infinity))
             wrapped
  | Raise _ => True
  end.
Proof.
  assert (H : vsub (vadd box_top_right t) (vadd box_bottom_left t)
              = vsub box_top_right box_bottom_left).
  { apply vec3_eq; unfold vsub, vadd; cbn [vx vy vz]; ring. }
  assert (E : wrap_around shear_basis_vectors new_sphere_positions
    (vadd box_bottom_left t) (vadd box_top_right t) Ot_infinity Et_infinity
  = wrap_around shear_basis_vectors new_sphere_positions
      box_bottom_left box_top_right Ot_infinity Et_infinity).
  { unfold wrap_around. now rewrite H. }
  split; [exact E|]. rewrite E. clear E.
  destruct (wrap_around shear_basis_vectors new_sphere_positions box_bottom_left
              box_top_right Ot_infinity Et_infinity) as [wrapped|e] eqn:W;
    [|exact I].
  destruct (wrap_around_value _ _ _ _ _ _ _ W) as (mi & Hi & ->).
  apply Forall_forall. intros y Hy. apply in_map_iff in Hy as (x & <- & _).
  exists (vmap reduce (vec_mat3 x mi)). split; [|reflexivity].
  unfold in_centred_cell, vmap. cbn [vx vy vz].
  repeat split; apply reduce_range.
Qed.

(** ** ETA estimator *)

Lemma comprehension_value {A B} (body : A -> outcome B) (cond : A -> outcome bool)
  (b : A -> B) (c : A -> bool) (l : list A) :
  (forall i, In i l -> cond i = Ok (c i)) ->
  (forall i, In i l -> c i = true -> body i = Ok (b i)) ->
  comprehension body cond l = Ok (map b (filter c l)).
Proof.
  induction l as [|i l IH]; intros Hc Hb; [reflexivity|].
  cbn [comprehension filter]. rewrite (Hc i) by now left. cbn [bind].
  assert (IHl : comprehension body cond l = Ok (map b (filter c l))).
  { apply IH.
    - intros j Hj. apply Hc. now right.
    - intros j Hj Hcj. apply Hb; [now right|exact Hcj]. }
  destruct (c i) eqn:E; [|exact IHl].
  rewrite (Hb i), IHl; [reflexivity|now left|exact E].
Qed.

Lemma in_range a b i : In i (range a b) <-> (a <= i < b)%Z.
Proof.
  unfold range. rewrite in_map_iff. split.
  - intros (k & <- & Hk). apply in_seq in Hk. lia.
  - intros H. exists (Z.to_nat (i - a)). split; [lia|]. apply in_seq. lia.
Qed.

Lemma py_mod_nonzero i n : n <> 0%Z -> py_mod i n = Ok (i mod n)%Z.
Proof. intros H. unfold py_mod. now rewrite (proj2 (Z.eqb_neq n 0) H). Qed.

Lemma py_index_in_range (times : list R) i :
  (0 <= i < Z.of_nat (length times))%Z -> py_index times i = Ok (time_of times i).
Proof.
  intros H. unfold py_index, time_of.
  rewrite (proj2 (Z.leb_le 0 i)) by lia.
  unfold index. rewrite (nth_error_nth' times 0) by lia. reflexivity.
Qed.


Lemma long_average_code DISABLE_JIT (longtimes : list R) :
  exists flag,
    (if negb DISABLE_JIT then
       if (2 <=? length longtimes)%nat then
         (EmptyString, sum (tl longtimes) / len (tl longtimes))
       else if (length longtimes =? 1)%nat then
         ("<"%string, hd 0 longtimes)
       else (EmptyString, 0)
     else
       if (0 <? length longtimes)%nat then
         (EmptyString, sum longtimes / len longtimes)
       else (EmptyString, 0))
    = (flag, long_average DISABLE_JIT longtimes).
Proof.
  unfold long_average, mean.
  destruct DISABLE_JIT; cbn [negb].
  - destruct longtimes as [|t l]; cbn [length Nat.ltb Nat.leb]; eauto.
  - destruct longtimes as [|t [|t' l]]; cbn [length Nat.leb Nat.eqb tl hd]; eauto.
Qed.

Lemma filter_ext_in_range {A} (f g : A -> bool) l :
  (forall i, In i l -> f i = g i) -> filter f l = filter g l.
Proof.
  induction l as [|a l IH]; intros H; [reflexivity|].
  cbn [filter]. rewrite (H a) by now left.
  rewrite IH by (intros; apply H; now right). reflexivity.
Qed.

(** C6.  For a run that started at frame [checkpoint_start_from_frame] and has
    timed every frame up to [frameno], [calculate_time_left] returns the
    estimate [(shortAvg * shortFramesLeft + longAvg * longFramesLeft) * 1.03],
    where the long frames are those with an index divisible by
    [invert_m_every], and the start frame, and the short frames are the rest;
    when no short frame has been timed, the long-time average stands for the
    short-time average. *)
Theorem calculate_time_left_estimate (DISABLE_JIT : bool) (times : list R)
  (frameno num_frames invert_m_every checkpoint_start_from_frame : Z) :
  invert_m_every <> 0%Z ->
  (0 <= checkpoint_start_from_frame <= frameno)%Z ->
  (frameno < Z.of_nat (length times))%Z ->
  (exists flags,
     calculate_time_left DISABLE_JIT times frameno num_frames invert_m_every
       checkpoint_start_from_frame
     = Ok (eta_estimate DISABLE_JIT times frameno num_frames invert_m_every
             checkpoint_start_from_frame, flags)) /\
  (filter (is_short_frame invert_m_every checkpoint_start_from_frame)
     (range checkpoint_start_from_frame (frameno + 1)) = [] ->
   let longtimeaverage :=
     long_average DISABLE_JIT
       (map (time_of times)
          (filter (is_long_frame invert_m_every checkpoint_start_from_frame)
             (range checkpoint_start_from_frame (frameno + 1)))) in
   eta_estimate DISABLE_JIT times frameno num_frames invert_m_every
     checkpoint_start_from_frame
   = (INR (length (filter (is_short_frame invert_m_every checkpoint_start_from_frame)
                     (range (frameno + 1) num_frames))) * longtimeaverage
      + INR (length (filter (is_long_frame invert_m_every checkpoint_start_from_frame)
                       (range (frameno + 1) num_frames))) * longtimeaverage) * 1.03).
Proof.
  intros Hn Hstart Hlen. split.
  - unfold calculate_time_left.
    set (done := range checkpoint_start_from_frame (frameno + 1)).
    set (left := range (frameno + 1) num_frames).
    set (long := is_long_frame invert_m_every checkpoint_start_from_frame).
    set (short := is_short_frame invert_m_every checkpoint_start_from_frame).
    assert (Hdone : forall i, In i done ->
                      py_index times i = Ok (time_of times i)).
    { intros i Hi. apply in_range in Hi. apply py_index_in_range. lia. }
    rewrite (comprehension_value _ _ (time_of times) long done).
    2:{ intros i _. rewrite py_mod_nonzero by exact Hn. reflexivity. }
    2:{ intros i Hi _. now apply Hdone. }
    cbn [bind].
    destruct (long_average_code DISABLE_JIT (map (time_of times) (filter long done)))
      as [flag ->].
    rewrite (comprehension_value _ _ (time_of times) short done).
    2:{ intros i _. rewrite py_mod_nonzero by exact Hn. cbn [bind].
        unfold short, is_short_frame, is_long_frame. now rewrite negb_orb. }
    2:{ intros i Hi _. now apply Hdone. }
    cbn [bind].
    rewrite (comprehension_value _ _ (fun i => i) (fun i => (i mod invert_m_every =? 0)%Z) left).
    2:{ intros i _. rewrite py_mod_nonzero by exact Hn. reflexivity. }
    2:{ reflexivity. }
    cbn [bind].
    rewrite (comprehension_value _ _ (fun i => i)
               (fun i => negb (i mod invert_m_every =? 0)%Z) left).
    2:{ intros i _. rewrite py_mod_nonzero by exact Hn. reflexivity. }
    2:{ reflexivity. }
    cbn [bind]. rewrite !map_id.
    assert (Hl : filter (fun i => (i mod invert_m_every =? 0)%Z) left = filter long left).
    { apply filter_ext_in_range. intros i Hi. apply in_range in Hi.
      unfold long, is_long_frame.
      rewrite (proj2 (Z.eqb_neq i checkpoint_start_from_frame)) by lia.
      now rewrite orb_false_r. }
    assert (Hs : filter (fun i => negb (i mod invert_m_every =? 0)%Z) left
                 = filter short left).
    { apply filter_ext_in_range. intros i Hi. apply in_range in Hi.
      unfold short, is_short_frame, is_long_frame.
      rewrite (proj2 (Z.eqb_neq i checkpoint_start_from_frame)) by lia.
      now rewrite orb_false_r. }
    rewrite Hl, Hs.
    eexists. f_equal. f_equal.
    unfold eta_estimate. fold done left long short. cbv zeta.
    destruct (map (time_of times) (filter short done)) as [|t l] eqn:E;
      cbn [length Nat.eqb negb]; reflexivity.
  - intros Hempty longtimeaverage. unfold eta_estimate. cbv zeta.
    rewrite Hempty. cbn [map]. reflexivity.
Qed.

(** Three timed frames of a run of ten with [invert_m_every = 5]: one long
    frame of 2 s and two short frames of 1 s are done, one long frame and
    six short frames are left, hence (6 * 1 + 1 * 2) * 1.03 seconds. *)
Lemma calculate_time_left_estimate_witness :
  exists flags,
    calculate_time_left true [2; 1; 1] 2 10 5 0 = Ok (8.24, flags).
Proof.
  destruct (calculate_time_left_estimate true [2; 1; 1] 2 10 5 0)
    as [[flags E] _]; [lia|lia|simpl; lia|].
  exists flags. rewrite E. do 2 f_equal.
  unfold eta_estimate, long_average, mean, sum, len.
  cbv [range is_short_frame is_long_frame time_of seq map filter
       Z.to_nat Z.sub Z.add Z.opp Z.pos_sub Z.succ_double Z.pred_double Z.double
       Pos.pred_double Pos.to_nat Pos.iter_op Pos.add Pos.succ Nat.add
       Z.of_nat Pos.of_succ_nat Z.modulo Z.div_eucl Z.pos_div_eucl Z.eqb Z.leb Z.ltb
       Z.compare Pos.compare Pos.compare_cont Z.mul Pos.mul Pos.sub Pos.sub_mask
       Pos.succ_double_mask Pos.double_mask Pos.double_pred_mask
       Pos.eqb orb negb nth length fold_left Pos.add_carry
       Z.sgn Z.abs].
  simpl. lra.
Defined.

(** ** Gaussian elimination *)

Lemma dotv_zeros a n : dotv a (repeat 0 n) = 0.
Proof.
  revert n. induction a as [|x a IH]; intros [|n]; cbn [dotv repeat]; try reflexivity.
  rewrite IH. ring.
Qed.

Lemma dotv_subv_scalev k : forall a b x,
  length a = length b ->
  dotv (subv a (scalev k b)) x = dotv a x - k * dotv b x.
Proof.
  induction a as [|u a IH]; intros [|v b] [|y x] H; simpl in H; try discriminate;
    cbn [dotv subv scalev map]; try ring.
  fold (scalev k b). rewrite IH by lia. ring.
Qed.

Lemma length_subv : forall a b, length a = length b -> length (subv a b) = length a.
Proof.
  induction a as [|u a IH]; intros [|v b] H; simpl in H; try discriminate;
    cbn [subv length]; auto.
Qed.

Lemma find_pivot_some eqs p others :
  find_pivot eqs = Some (p, others) ->
  lead p <> 0 /\
  length eqs = S (length others) /\
  (forall e, In e eqs <-> e = p \/ In e others).
Proof.
  revert p others. induction eqs as [|e eqs IH]; intros p others H; [discriminate|].
  cbn [find_pivot] in H. destruct (Reqb (lead e) 0) eqn:E.
  - destruct (find_pivot eqs) as [[p' others']|]; [|discriminate].
    inversion H; subst p' others. clear H.
    destruct (IH p others' eq_refl) as (Hp & Hl & Hin).
    split; [exact Hp|]. split; [simpl; lia|].
    intros e'. simpl. rewrite Hin. tauto.
  - inversion H; subst. apply Reqb_false in E.
    split; [exact E|]. split; [reflexivity|].
    intros e'. simpl. split; intros [H1|H1]; auto.
Qed.

Lemma find_pivot_none eqs :
  find_pivot eqs = None -> Forall (fun e => lead e = 0) eqs.
Proof.
  induction eqs as [|e eqs IH]; intros H; [constructor|].
  cbn [find_pivot] in H. destruct (Reqb (lead e) 0) eqn:E; [|discriminate].
  apply Reqb_true in E.
  destruct (find_pivot eqs) as [[p others]|]; [discriminate|].
  constructor; auto.
Qed.

Lemma equation_head n (e : equation) :
  length (fst e) = S n ->
  fst e = lead e :: tl (fst e) /\ length (tl (fst e)) = n.
Proof.
  unfold lead. destruct (fst e) as [|c cs]; simpl; intros H; [discriminate|].
  split; [reflexivity|lia].
Qed.

Lemma eliminate_length n pivot e :
  length (fst pivot) = S n -> length (fst e) = S n ->
  length (fst (eliminate pivot e)) = n.
Proof.
  intros Hp He. destruct (equation_head n pivot Hp) as [_ Lp].
  destruct (equation_head n e He) as [_ Le].
  unfold eliminate. cbn [fst]. rewrite length_subv; [exact Le|].
  unfold scalev. rewrite length_map. lia.
Qed.

(** What elimination returns solves every equation. *)
Lemma gauss_sound : forall n eqs x,
  Forall (fun e => length (fst e) = n) eqs ->
  length eqs = n ->
  gauss n eqs = Some x ->
  length x = n /\ Forall (satisfies x) eqs.
Proof.
  induction n as [|n IH]; intros eqs x Hshape Hlen H.
  - cbn [gauss] in H. inversion H; subst.
    destruct eqs; [|discriminate]. split; [reflexivity|constructor].
  - cbn [gauss] in H.
    destruct (find_pivot eqs) as [[pivot others]|] eqn:Ep; [|discriminate].
    destruct (find_pivot_some _ _ _ Ep) as (Hlead & Hl & Hin).
    destruct (gauss n (map (eliminate pivot) others)) as [xs|] eqn:Eg; [|discriminate].
    inversion H; subst x. clear H.
    rewrite Forall_forall in Hshape.
    assert (Hpl : length (fst pivot) = S n) by (apply Hshape, Hin; now left).
    destruct (IH (map (eliminate pivot) others) xs) as [Lx Hxs].
    + apply Forall_forall. intros e' He'. apply in_map_iff in He' as (e & <- & He).
      apply eliminate_length; [exact Hpl|]. apply Hshape, Hin. now right.
    + rewrite length_map. unfold equation, vector in *. lia.
    + exact Eg.
    + split; [simpl; lia|].
      destruct (equation_head n pivot Hpl) as [Hp _].
      apply Forall_forall. intros e He. apply Hin in He.
      assert (Hpivot : lead pivot *
                ((snd pivot - dotv (tl (fst pivot)) xs) / lead pivot)
                + dotv (tl (fst pivot)) xs = snd pivot) by (field; exact Hlead).
      destruct He as [->|He].
      * unfold satisfies. rewrite Hp at 1. cbn [dotv]. exact Hpivot.
      * assert (Hel : length (fst e) = S n) by (apply Hshape, Hin; now right).
        destruct (equation_head n e Hel) as [Hee Lt].
        destruct (equation_head n pivot Hpl) as [_ Lp].
        rewrite Forall_forall in Hxs.
        assert (Hs := Hxs (eliminate pivot e) (in_map _ _ _ He)).
        unfold satisfies, eliminate in Hs. cbn [fst snd] in Hs.
        rewrite dotv_subv_scalev in Hs by lia.
        unfold satisfies. rewrite Hee at 1. cbn [dotv].
        set (dp := dotv (tl (fst pivot)) xs) in *.
        set (de := dotv (tl (fst e)) xs) in *.
        assert (Hde : de = snd e - lead e / lead pivot * snd pivot
                           + lead e / lead pivot * dp) by lra.
        rewrite Hde. field. exact Hlead.
Qed.

(** Elimination returns whenever only the zero vector is annihilated by all
    the equations. *)
Lemma gauss_complete : forall n eqs,
  Forall (fun e => length (fst e) = n) eqs ->
  length eqs = n ->
  (forall v, length v = n -> Forall (annihilates v) eqs -> v = repeat 0 n) ->
  exists x, gauss n eqs = Some x.
Proof.
  induction n as [|n IH]; intros eqs Hshape Hlen Hker.
  - exists []. reflexivity.
  - cbn [gauss]. rewrite Forall_forall in Hshape.
    destruct (find_pivot eqs) as [[pivot others]|] eqn:Ep.
    + destruct (find_pivot_some _ _ _ Ep) as (Hlead & Hl & Hin).
      assert (Hpl : length (fst pivot) = S n) by (apply Hshape, Hin; now left).
      destruct (equation_head n pivot Hpl) as [Hp Lp].
      destruct (IH (map (eliminate pivot) others)) as [xs ->].
      * apply Forall_forall. intros e' He'. apply in_map_iff in He' as (e & <- & He).
        apply eliminate_length; [exact Hpl|]. apply Hshape, Hin. now right.
      * rewrite length_map. unfold equation, vector in *. lia.
      * intros v Lv Hv. rewrite Forall_forall in Hv.
        set (v0 := - dotv (tl (fst pivot)) v / lead pivot).
        assert (Hz : v0 :: v = repeat 0 (S n)).
        { apply Hker; [simpl; lia|]. apply Forall_forall. intros e He.
          apply Hin in He. destruct He as [->|He].
          - unfold annihilates. rewrite Hp at 1. cbn [dotv]. unfold v0.
            field. exact Hlead.
          - assert (Hel : length (fst e) = S n) by (apply Hshape, Hin; now right).
            destruct (equation_head n e Hel) as [Hee Lt].
            assert (Hs := Hv (eliminate pivot e) (in_map _ _ _ He)).
            unfold annihilates, eliminate in Hs. cbn [fst] in Hs.
            rewrite dotv_subv_scalev in Hs by lia.
            unfold annihilates. rewrite Hee at 1. cbn [dotv]. unfold v0.
            set (dp := dotv (tl (fst pivot)) v) in *.
            set (de := dotv (tl (fst e)) v) in *.
            assert (Hde : de = lead e / lead pivot * dp) by lra.
            rewrite Hde. field. exact Hlead. }
        cbn [repeat] in Hz. now inversion Hz.
      * eexists. reflexivity.
    + exfalso. apply find_pivot_none in Ep. rewrite Forall_forall in Ep.
      assert (Hz : 1 :: repeat 0 n = repeat 0 (S n)).
      { apply Hker; [simpl; rewrite repeat_length; lia|].
        apply Forall_forall. intros e He.
        assert (Hel : length (fst e) = S n) by (apply Hshape, He).
        destruct (equation_head n e Hel) as [Hee _].
        unfold annihilates. rewrite Hee. cbn [dotv].
        rewrite (Ep e He), dotv_zeros. ring. }
      cbn [repeat] in Hz. inversion Hz. lra.
Qed.

Lemma satisfies_combine x : forall (a : matrix) (b : vector),
  length b = length a ->
  Forall (satisfies x) (combine a b) -> mat_vec a x = b.
Proof.
  induction a as [|r a IH]; intros [|y b] H HF; simpl in H; try discriminate.
  - reflexivity.
  - cbn [combine] in HF. inversion HF as [|e l He Hl]; subst.
    unfold mat_vec. cbn [map]. unfold satisfies in He. cbn [fst snd] in He.
    rewrite He. f_equal. apply IH; [lia|exact Hl].
Qed.

Lemma combine_shape n : forall (a : matrix) (b : vector),
  Forall (fun r => length r = n) a ->
  Forall (fun e : equation => length (fst e) = n) (combine a b).
Proof.
  induction a as [|r a IH]; intros [|y b] H; cbn [combine]; try constructor.
  - inversion H; assumption.
  - apply IH. inversion H; assumption.
Qed.

(** [np.linalg.solve] on a non-singular matrix returns the solution of the
    system. *)
Lemma linalg_solve_nonsingular (a : matrix) (b : vector) :
  nonsingular a -> length b = length a ->
  exists x, linalg_solve a b = Ok x /\ length x = length a /\ mat_vec a x = b.
Proof.
  intros [[_ Hsq] Hker] Hb. unfold linalg_solve.
  assert (Hf : forallb (fun r => (length r =? length a)%nat) a = true).
  { apply forallb_forall. intros r Hr. rewrite Forall_forall in Hsq.
    apply Nat.eqb_eq. now apply Hsq. }
  rewrite Hf. cbn [negb]. rewrite (proj2 (Nat.eqb_eq _ _) Hb). cbn [negb].
  assert (Hshape := combine_shape (length a) a b Hsq).
  assert (Hlen : length (combine a b) = length a).
  { rewrite length_combine. unfold vector in *. lia. }
  destruct (gauss_complete (length a) (combine a b) Hshape Hlen) as [x Hx].
  { intros v Lv Hv. apply Hker; [exact Lv|].
    clear - Hv Hb. revert b Hb Hv.
    induction a as [|r a IH]; intros [|y b] Hb Hv; simpl in Hb; try discriminate.
    - reflexivity.
    - cbn [combine] in Hv. inversion Hv as [|e l He Hl]; subst.
      unfold mat_vec. cbn [map length repeat]. unfold annihilates in He.
      cbn [fst] in He. rewrite He. f_equal. apply (IH b); [lia|exact Hl]. }
  rewrite Hx. exists x. split; [reflexivity|].
  destruct (gauss_sound _ _ _ Hshape Hlen Hx) as [Lx Hs].
  split; [exact Lx|]. now apply satisfies_combine.
Qed.

Lemma linalg_solve_sound (a : matrix) (b x : vector) :
  linalg_solve a b = Ok x -> length x = length a /\ mat_vec a x = b.
Proof.
  unfold linalg_solve.
  destruct (forallb (fun r => (length r =? length a)%nat) a) eqn:Hf;
    cbn [negb]; [|discriminate].
  destruct (length b =? length a)%nat eqn:Hb; cbn [negb]; [|discriminate].
  apply Nat.eqb_eq in Hb.
  destruct (gauss (length a) (combine a b)) as [y|] eqn:Hg; [|discriminate].
  intros H. inversion H; subst y.
  assert (Hsq : Forall (fun r => length r = length a) a).
  { apply Forall_forall. intros r Hr. apply Nat.eqb_eq.
    now apply (proj1 (forallb_forall _ _) Hf). }
  assert (Hlen : length (combine a b) = length a).
  { rewrite length_combine. unfold vector in *. lia. }
  destruct (gauss_sound _ _ _ (combine_shape _ a b Hsq) Hlen Hg) as [Lx Hs].
  split; [exact Lx|]. now apply satisfies_combine.
Qed.

(** ** Mode [fts] *)

Lemma sequence_map_ok {A B} (f : A -> outcome B) (g : A -> B) (l : list A) :
  (forall x, In x l -> f x = Ok (g x)) -> sequence (map f l) = Ok (map g l).
Proof.
  induction l as [|x l IH]; intros H; [reflexivity|].
  cbn [map sequence]. rewrite (H x) by now left. cbn [bind].
  rewrite IH by (intros; apply H; now right). reflexivity.
Qed.

Lemma numbers_of_array e (a : matrix) : numbers e (of_array a) = Ok a.
Proof.
  unfold numbers, of_array. rewrite map_map.
  rewrite (sequence_map_ok _ (fun r => r)).
  - now rewrite map_id.
  - intros r _. rewrite map_map.
    rewrite (sequence_map_ok _ (fun x => x)); [now rewrite map_id|reflexivity].
Qed.

Lemma asarray_float_of_array (a : matrix) :
  is_array a -> asarray_float (of_array a) = Ok a.
Proof.
  intros [k Hk]. unfold asarray_float. rewrite numbers_of_array. cbn [bind].
  assert (H : forallb (fun r => (length r =? length (hd [] a))%nat) a = true).
  { apply forallb_forall. intros r Hr. apply Nat.eqb_eq.
    rewrite Forall_forall in Hk. rewrite (Hk r Hr).
    destruct a as [|r0 a']; [contradiction|]. cbn [hd]. symmetry. apply Hk. now left. }
  now rewrite H.
Qed.

Lemma asarray_float_prescribed t :
  prescribed t -> exists a, asarray_float t = Ok a /\ of_array a = t.
Proof.
  intros (a & Ha & ->). exists a. split; [now apply asarray_float_of_array|reflexivity].
Qed.

(** Linearity of the matrix-vector product, for the uniqueness of the
    solution. *)
Lemma dotv_subv_r : forall r v w,
  length v = length w ->
  dotv r (subv v w) = dotv r v - dotv r w.
Proof.
  induction r as [|c r IH]; intros [|x v] [|y w] H; simpl in H; try discriminate;
    cbn [dotv subv]; try ring.
  rewrite IH by lia. ring.
Qed.

Lemma subv_zero : forall v w,
  length v = length w -> subv v w = repeat 0 (length v) -> v = w.
Proof.
  induction v as [|x v IH]; intros [|y w] H Hz; simpl in H; try discriminate.
  - reflexivity.
  - cbn [subv length repeat] in Hz. inversion Hz as [[Hx Hv]].
    f_equal; [lra|]. apply IH; [lia|]. rewrite Hx in Hv. exact Hv.
Qed.

Lemma mat_vec_subv (m : matrix) (v w : vector) :
  length v = length w ->
  mat_vec m v = mat_vec m w ->
  mat_vec m (subv v w) = repeat 0 (length m).
Proof.
  intros L. unfold mat_vec.
  induction m as [|r m IH]; intros H; [reflexivity|].
  cbn [map] in H. inversion H as [[Hr Hm]].
  cbn [map length repeat]. rewrite dotv_subv_r by exact L.
  rewrite Hr, IH by exact Hm. f_equal. ring.
Qed.

Lemma nonsingular_unique (m : matrix) (v w : vector) :
  nonsingular m -> length v = length m -> length w = length m ->
  mat_vec m v = mat_vec m w -> v = w.
Proof.
  intros [_ Hker] Lv Lw H.
  apply subv_zero; [lia|].
  rewrite Lv. apply Hker.
  - rewrite length_subv; lia.
  - apply mat_vec_subv; [lia|exact H].
Qed.

Lemma convert_outputs_arrays i Fa Ta Sa Fb DFb Ua Oa Ea Ub HalfDUb log :
  is_array Fa -> is_array Ta -> is_array Ea -> is_array Ua -> is_array Oa ->
  is_array Ub -> is_array HalfDUb ->
  convert_outputs
    {| l_inputs := i;
       l_Fa_out := of_array Fa; l_Ta_out := of_array Ta; l_Sa_out := Sa;
       l_Fb_out := Fb; l_DFb_out := DFb;
       l_Ua_out := of_array Ua; l_Oa_out := of_array Oa;
       l_Ea_out := of_array Ea;
       l_Ub_out := of_array Ub; l_HalfDUb_out := of_array HalfDUb;
       l_log := log |}
  = Ok {| l_inputs := i;
          l_Fa_out := of_array Fa; l_Ta_out := of_array Ta; l_Sa_out := Sa;
          l_Fb_out := Fb; l_DFb_out := DFb;
          l_Ua_out := of_array Ua; l_Oa_out := of_array Oa;
          l_Ea_out := of_array Ea;
          l_Ub_out := of_array Ub; l_HalfDUb_out := of_array HalfDUb;
          l_log := log |}.
Proof.
  intros HFa HTa HEa HUa HOa HUb HH. unfold convert_outputs.
  cbn [l_inputs l_Fa_out l_Ta_out l_Sa_out l_Fb_out l_DFb_out l_Ua_out
       l_Oa_out l_Ea_out l_Ub_out l_HalfDUb_out l_log].
  rewrite !asarray_float_of_array by assumption. reflexivity.
Qed.

(** C1.  In mode [fts], with F, T and S prescribed for every particle (the
    force vector can be built; without spheres the strain rate is given as
    numbers too) and a non-singular grand resistance matrix
    [M], [generate_output_FTSUOE] returns; the velocities it returns are the
    arrays taken out of a vector [v] with [M . v = f], where [f] is the force
    vector built from the inputs; [v] is the only solution of the system;
    and [Fa_out], [Ta_out] and [Sa_out] are the prescribed inputs. *)
Theorem fts_mode_solves_linear_system
  (c : collaborators) (p : posdata) (frameno : Z) (timestep : R)
  (input_number : Z) (last_generated_Minfinity_inverse : matrix)
  (regenerate_Minfinity : bool) (cutoff_factor : R) (printout : Z)
  (use_drag_Minfinity use_Minfinity_only
   extract_force_on_wall_due_to_dumbbells : bool)
  (last_velocities : list matrix) (last_velocity_vector : vector)
  (box_bottom_left box_top_right : vec3) (feed_every_n_timesteps : Z)
  (i : inputs) (M : matrix) (heading : string) (cache : matrix)
  (times : list R) (f : vector) :
  input_ftsuoe c input_number p frameno timestep last_velocities "fts"
    (Some true) None = Ok i ->
  generate_matrix c p i frameno timestep last_generated_Minfinity_inverse
    regenerate_Minfinity cutoff_factor printout
    use_drag_Minfinity use_Minfinity_only = Ok (M, heading, cache, times) ->
  prescribed (Fa_in i) -> prescribed (Ta_in i) ->
  (length (Ua_in i) = 0%nat -> prescribed (Ea_in i)) ->
  construct_force_vector_from_fts c p
    (Fa_in i) (Ta_in i) (Sa_in i) (Fb_in i) (DFb_in i) = Ok f ->
  nonsingular M -> length f = length M ->
  (forall v, length v = length M ->
     exists Ua Oa Ea Ub HalfDUb,
       deconstruct_velocity_vector_for_fts c p v = Ok (Ua, Oa, Ea, Ub, HalfDUb) /\
       is_array Ua /\ is_array Oa /\ is_array Ea /\ is_array Ub /\
       is_array HalfDUb) ->
  exists log out v Ua Oa Ea Ub HalfDUb,
    generate_output_FTSUOE c p frameno timestep input_number
      last_generated_Minfinity_inverse regenerate_Minfinity "fts"
      cutoff_factor printout use_drag_Minfinity use_Minfinity_only
      extract_force_on_wall_due_to_dumbbells last_velocities
      last_velocity_vector box_bottom_left box_top_right
      feed_every_n_timesteps = Ok (log, out) /\
    mat_vec M v = f /\
    (forall w, length w = length M -> mat_vec M w = f -> w = v) /\
    deconstruct_velocity_vector_for_fts c p v = Ok (Ua, Oa, Ea, Ub, HalfDUb) /\
    Ua_out out = of_array Ua /\
    Oa_out out = of_array Oa /\
    Ea_out out = (if (length (Ua_in i) =? 0)%nat then Ea_in i else of_array Ea) /\
    Ub_out out = of_array Ub /\
    HalfDUb_out out = of_array HalfDUb /\
    Fa_out out = Fa_in i /\
    Ta_out out = Ta_in i /\
    Sa_out out = Sa_in i.
Proof.
  intros Hin Hgen (Fa & HFa & EFa) (Ta & HTa & ETa) HEin Hf HM Lf Hdec.
  destruct (linalg_solve_nonsingular M f HM Lf) as (v & Hsolve & Lv & Hv).
  destruct (Hdec v Lv) as (Ua & Oa & Ea & Ub & HalfDUb & Hd & HUa & HOa & HEa & HUb & HH).
  assert (HE : exists Eout, is_array Eout /\
            (if (length (Ua_in i) =? 0)%nat then Ea_in i else of_array Ea)
            = of_array Eout).
  { destruct (Nat.eqb_spec (length (Ua_in i)) 0) as [E0|_].
    - destruct (HEin E0) as (Ein & H1 & H2). now exists Ein.
    - now exists Ea. }
  destruct HE as (Eout & HEout & EEout).
  assert (Hmode : mode_fts c p i M (length (Ua_in i)) =
                  Ok {| l_inputs := i;
                        l_Fa_out := of_array Fa; l_Ta_out := of_array Ta;
                        l_Sa_out := Sa_in i;
                        l_Fb_out := Fb_in i; l_DFb_out := DFb_in i;
                        l_Ua_out := of_array Ua; l_Oa_out := of_array Oa;
                        l_Ea_out := of_array Eout;
                        l_Ub_out := of_array Ub;
                        l_HalfDUb_out := of_array HalfDUb;
                        l_log := [] |}).
  { unfold mode_fts. rewrite Hf. cbn [or_throw_error bind].
    rewrite Hsolve. cbn [bind]. rewrite Hd. cbn [bind].
    rewrite EEout, EFa, ETa. reflexivity. }
  eexists _, _, v, Ua, Oa, Ea, Ub, HalfDUb.
  split.
  - unfold generate_output_FTSUOE. rewrite Hin. cbn [bind].
    change (("fts" =? "stokes_drag_dumbbells_only")%string) with false. cbv iota.
    rewrite Hgen. cbn [bind].
    unfold solve_mode. change (("fts" =? "fts")%string) with true. cbv iota.
    rewrite Hmode. cbn [bind].
    rewrite convert_outputs_arrays by assumption. cbn [bind].
    reflexivity.
  - cbn [Ua_out Oa_out Ea_out Ub_out HalfDUb_out Fa_out Ta_out Sa_out
         l_Fa_out l_Ta_out l_Sa_out l_Ua_out l_Oa_out l_Ea_out l_Ub_out
         l_HalfDUb_out].
    split; [exact Hv|]. split.
    { intros w Lw Hw. apply (nonsingular_unique M w v HM Lw Lv). congruence. }
    split; [exact Hd|].
    repeat split; auto.
Qed.

Lemma one_sphere_matrix_nonsingular : nonsingular one_sphere_matrix.
Proof.
  split.
  - split; [reflexivity|]. repeat constructor.
  - intros [|x [|y [|z [|? ?]]]] L; try discriminate L.
    cbn. intros H. injection H as H1 H2 H3. repeat f_equal; lra.
Qed.

Lemma box_degenerate (b : vec3) : vec3_eqb (vsub b b) (V3 0 0 0) = true.
Proof.
  apply vec3_eqb_true. destruct b. unfold vsub; cbn. f_equal; ring.
Qed.

(** The sphere moves with the velocity [v] that solves the 3x3 system. *)
Lemma fts_mode_solves_linear_system_witness :
  exists log out v,
    generate_output_FTSUOE translation_only one_sphere 0 1 0 [] true "fts"
      2 0 false false false [] [] (V3 0 0 0) (V3 0 0 0) 1 = Ok (log, out) /\
    mat_vec one_sphere_matrix v = [4; 7; 0] /\
    Ua_out out = of_array [v] /\
    Fa_out out = [[Num 4; Num 7; Num 0]].
Proof.
  destruct (fts_mode_solves_linear_system translation_only one_sphere 0 1 0
              [] true 2 0 false false false [] [] (V3 0 0 0) (V3 0 0 0) 1
              one_sphere_inputs one_sphere_matrix "R" [] [0; 0] [4; 7; 0])
    as (log & out & v & Ua & Oa & Ea & Ub & HalfDUb & Hrun & Hv & _ & Hd
        & HUa & _ & _ & _ & _ & HFa & _).
  - reflexivity.
  - unfold generate_matrix. rewrite box_degenerate. reflexivity.
  - exists [[4; 7; 0]]. split; [exists 3%nat; repeat constructor|reflexivity].
  - exists [[0; 0; 0]]. split; [exists 3%nat; repeat constructor|reflexivity].
  - discriminate.
  - reflexivity.
  - exact one_sphere_matrix_nonsingular.
  - reflexivity.
  - intros v Lv. exists [v], [[0; 0; 0]], [[0; 0; 0; 0; 0]], [], [].
    split; [reflexivity|].
    repeat split;
      solve [ exists (length v); repeat constructor
            | exists 3%nat; repeat constructor
            | exists 5%nat; repeat constructor ].
  - exists log, out, v. cbn in Hd. inversion Hd; subst Ua.
    repeat split; assumption.
Defined.

(** ** Mode [ufteu] *)

Lemma mode_ufteu_extraction c p i M ns nd :
  mode_ufteu c p i M ns nd true
  = relog (mode_ufteu c p i M ns nd false) [MsgWarning warning_ufteu].
Proof.
  unfold mode_ufteu.
  do 5 step.
  match goal with
  | |- context [bind ?m _] => destruct m as [[[[[? ?] ?] ?] ?]|?]
  end; reflexivity.
Qed.

Lemma mode_ufteu_silent c p i M ns nd l :
  mode_ufteu c p i M ns nd false = Ok l -> l_log l = [].
Proof.
  unfold mode_ufteu.
  repeat match goal with
  | |- context [bind ?m _] =>
      lazymatch m with
      | context [bind _ _] => fail
      | _ => destruct m as [?|?]; cbn [bind]; [|discriminate]
      end
  end.
  repeat match goal with v : velocities |- _ => destruct v as [[[[? ?] ?] ?] ?] end.
  cbn. intros H. injection H as <-. reflexivity.
Qed.

Lemma convert_outputs_relog l log :
  convert_outputs (with_log l log) = relog (convert_outputs l) log.
Proof.
  unfold convert_outputs.
  cbn [with_log l_inputs l_Fa_out l_Ta_out l_Sa_out l_Fb_out l_DFb_out
       l_Ua_out l_Oa_out l_Ea_out l_Ub_out l_HalfDUb_out l_log].
  do 7 step. reflexivity.
Qed.

Lemma convert_outputs_log l l' :
  convert_outputs l = Ok l' -> l_log l' = l_log l.
Proof.
  unfold convert_outputs.
  repeat match goal with
  | |- context [bind ?m _] =>
      lazymatch m with
      | context [bind _ _] => fail
      | _ => destruct m as [?|?]; cbn [bind]; [|discriminate]
      end
  end.
  intros H. injection H as <-. reflexivity.
Qed.

(** C7.  In mode [ufteu] a request for the force on the wall changes one
    thing: the warning is written first.  The run fails with the same error
    or returns the same tuple as without the request, and
    [force_on_wall_due_to_dumbbells] in it is the integer 0 the function
    starts with. *)
Theorem ufteu_extraction_warns_and_returns_initial_zero
  (c : collaborators) (p : posdata) (frameno : Z) (timestep : R)
  (input_number : Z) (last_generated_Minfinity_inverse : matrix)
  (regenerate_Minfinity : bool) (cutoff_factor : R) (printout : Z)
  (use_drag_Minfinity use_Minfinity_only : bool)
  (last_velocities : list matrix) (last_velocity_vector : vector)
  (box_bottom_left box_top_right : vec3) (feed_every_n_timesteps : Z) :
  let run extract_force_on_wall_due_to_dumbbells :=
    generate_output_FTSUOE c p frameno timestep input_number
      last_generated_Minfinity_inverse regenerate_Minfinity "ufteu"
      cutoff_factor printout use_drag_Minfinity use_Minfinity_only
      extract_force_on_wall_due_to_dumbbells last_velocities
      last_velocity_vector box_bottom_left box_top_right
      feed_every_n_timesteps in
  match run true, run false with
  | Ok (log1, out1), Ok (log0, out0) =>
      log1 = MsgWarning warning_ufteu :: log0 /\
      out1 = out0 /\
      force_on_wall_due_to_dumbbells out1 = WallInt 0
  | Raise e1, Raise e0 => e1 = e0
  | _, _ => False
  end.
Proof.
  intros run. unfold run, generate_output_FTSUOE.
  destruct (input_ftsuoe c _ _ _ _ _ _ _ _) as [i|e]; cbn [bind]; [|reflexivity].
  change (("ufteu" =? "stokes_drag_dumbbells_only")%string) with false. cbv iota.
  destruct (generate_matrix _ _ _ _ _ _ _ _ _ _ _) as [[[[M h] cache] times]|e];
    cbn [bind]; [|reflexivity].
  unfold solve_mode.
  change (("ufteu" =? "fts")%string) with false.
  change (("ufteu" =? "fte")%string) with false.
  change (("ufteu" =? "ufte")%string) with false.
  change (("ufteu" =? "ufteu")%string) with true. cbv iota.
  rewrite mode_ufteu_extraction.
  destruct (mode_ufteu _ _ _ _ _ _ false) as [l|e] eqn:E; cbn [relog bind];
    [|reflexivity].
  rewrite convert_outputs_relog.
  destruct (convert_outputs l) as [l'|e] eqn:E'; cbn [relog bind]; [|reflexivity].
  cbn [with_log l_inputs l_Fa_out l_Ta_out l_Sa_out l_Fb_out l_DFb_out
       l_Ua_out l_Oa_out l_Ea_out l_Ub_out l_HalfDUb_out l_log
       force_on_wall_due_to_dumbbells].
  rewrite (convert_outputs_log _ _ E'), (mode_ufteu_silent _ _ _ _ _ _ _ E).
  repeat split.
Qed.

(** One sphere with its force given and its velocity unknown, solved in
    mode [ufteu] with the force on the wall requested: the run returns, the
    warning is all it writes, and the wall force is the integer 0. *)
Lemma ufteu_extraction_returns_zero :
  exists out,
    generate_output_FTSUOE translation_only one_sphere 0 1 0 [] true "ufteu"
      2 0 false false true [] [] (V3 0 0 0) (V3 0 0 0) 1
    = Ok ([MsgWarning warning_ufteu], out) /\
    force_on_wall_due_to_dumbbells out = WallInt 0.
Proof.
  destruct (linalg_solve_nonsingular one_sphere_matrix [4; 7; 0]
              one_sphere_matrix_nonsingular eq_refl) as (v & Hsolve & Lv & _).
  assert (Hv : asarray_float [map Num v] = Ok [v]).
  { apply (asarray_float_of_array [v]). exists (length v). repeat constructor. }
  unfold generate_output_FTSUOE.
  cbn [translation_only input_ftsuoe bind].
  change (("ufteu" =? "stokes_drag_dumbbells_only")%string) with false. cbv iota.
  unfold generate_matrix. cbn [one_sphere_inputs box_bottom_left box_top_right].
  rewrite box_degenerate.
  cbn [negb generate_grand_resistance_matrix bind].
  unfold solve_mode.
  change (("ufteu" =? "fts")%string) with false.
  change (("ufteu" =? "fte")%string) with false.
  change (("ufteu" =? "ufte")%string) with false.
  change (("ufteu" =? "ufteu")%string) with true. cbv iota.
  unfold mode_ufteu.
  cbn -[linalg_solve asarray_float].
  rewrite Hsolve. cbn [bind].
  unfold convert_outputs.
  cbn [l_inputs l_Fa_out l_Ta_out l_Sa_out l_Fb_out l_DFb_out
       l_Ua_out l_Oa_out l_Ea_out l_Ub_out l_HalfDUb_out l_log].
  unfold row. rewrite Hv. cbn.
  eexists. split; reflexivity.
Qed.

(** ** Integrator *)

(** AB2 with the velocity of the previous step equal to the current one is
    the Euler step; and the AB2 step is exact for a velocity that varies
    linearly in time, [u(t) = v0 + a t], for which the position is
    [x0 + v0 t + a t^2 / 2]. *)
Theorem ab2_timestep_consistent_and_second_order :
  (forall x u timestep, ab2_timestep x u u timestep = euler_timestep x u timestep) /\
  (forall x0 v0 a t timestep,
     let position s := x0 + v0 * s + a * s ^ 2 / 2 in
     let velocity s := v0 + a * s in
     ab2_timestep (position t) (velocity t) (velocity (t - timestep)) timestep
     = position (t + timestep)).
Proof.
  split.
  - intros. unfold ab2_timestep, euler_timestep. lra.
  - intros. subst position velocity. unfold ab2_timestep. cbv beta.
    replace 1.5 with (3 / 2) by lra. replace 0.5 with (1 / 2) by lra. field.
Qed.

(** ** The rotation of a marker about the angular velocity *)

Lemma cross_triple w h :
  cross w (cross w (cross w h)) = vscale (- dot w w) (cross w h).
Proof. apply vec3_eq; unfold cross, vscale, dot; cbn [vx vy vz]; ring. Qed.

Lemma frame_cross w :
  w <> V3 0 0 0 ->
  let m := rot_matrix w in
  cross (col2 m) (col0 m) = col1 m /\
  cross (col2 m) (col1 m) = vscale (-1) (col0 m).
Proof.
  intros Hw m. unfold m. rewrite (rot_matrix_nonzero w Hw).
  pose proof (angular_speed_pos w Hw) as HO.
  pose proof (angular_speed_sqr w) as HOO.
  set (O := angular_speed w) in *.
  unfold col0, col1, col2. rewrite transpose3_involutive. cbn [row0 row1 row2].
  split.
  - apply vec3_eq; unfold cross, vdiv; cbn [vx vy vz]; field; lra.
  - assert (HT := cross_triple w (perp1 w)).
    assert (Hd : dot w w = O * O).
    { rewrite HOO. unfold dot. ring. }
    rewrite Hd in HT.
    apply vec3_eq;
      [apply (f_equal vx) in HT|apply (f_equal vy) in HT|apply (f_equal vz) in HT];
      unfold cross, vdiv, vscale in *; cbn [vx vy vz] in *;
      apply (Rmult_eq_reg_r (O ^ 3)); try (apply pow_nonzero; lra);
      match type of HT with
      | ?l = ?r => transitivity l; [field; lra|rewrite HT; field; lra]
      end.
Qed.

Lemma frame_rodrigues m theta q :
  cross (col2 m) (col0 m) = col1 m ->
  cross (col2 m) (col1 m) = vscale (-1) (col0 m) ->
  dot (col0 m) (col2 m) = 0 ->
  dot (col1 m) (col2 m) = 0 ->
  dot (col2 m) (col2 m) = 1 ->
  mat_vec3 m (turn theta q) = rodrigues (col2 m) theta (mat_vec3 m q).
Proof.
  destruct m as [[a b c] [d e f] [g h i]]. destruct q as [qx qy qz].
  unfold col0, col1, col2, transpose3. cbn [row0 row1 row2 vx vy vz].
  intros H1 H2 D0 D1 D2.
  pose proof (f_equal vx H1) as H1x. pose proof (f_equal vy H1) as H1y.
  pose proof (f_equal vz H1) as H1z.
  pose proof (f_equal vx H2) as H2x. pose proof (f_equal vy H2) as H2y.
  pose proof (f_equal vz H2) as H2z.
  clear H1 H2.
  unfold cross, vscale, dot in *. cbn [vx vy vz] in *.
  set (C := cos theta). set (S := sin theta).
  apply vec3_eq;
    unfold mat_vec3, turn, rodrigues, vadd, vscale, cross, dot;
    cbn [row0 row1 row2 vx vy vz]; fold C; fold S;
    apply Rminus_diag_uniq.
  - transitivity (S * qx * (b - (f * g - i * d)) + S * qy * (- 1 * a - (f * h - i * e))
                  + (1 - C) * c * (qz * (1 - (c * c + f * f + i * i))
                                   - qx * (a * c + d * f + g * i)
                                   - qy * (b * c + e * f + h * i))); [ring|].
    rewrite H1x, H2x, D0, D1, D2. ring.
  - transitivity (S * qx * (e - (i * a - c * g)) + S * qy * (- 1 * d - (i * b - c * h))
                  + (1 - C) * f * (qz * (1 - (c * c + f * f + i * i))
                                   - qx * (a * c + d * f + g * i)
                                   - qy * (b * c + e * f + h * i))); [ring|].
    rewrite H1y, H2y, D0, D1, D2. ring.
  - transitivity (S * qx * (h - (c * d - f * a)) + S * qy * (- 1 * g - (c * e - f * b))
                  + (1 - C) * i * (qz * (1 - (c * c + f * f + i * i))
                                   - qx * (a * c + d * f + g * i)
                                   - qy * (b * c + e * f + h * i))); [ring|].
    rewrite H1z, H2z, D0, D1, D2. ring.
Qed.

(** The row the step leaves for sphere [i], in the frame of the angular
    velocity. *)
Lemma rotation_step_row_frame
  (sphere_positions : list vec3) (sphere_rotations : list (vec3 * vec3))
  (new_sphere_positions : list vec3) (new_sphere_rotations : list (fvec3 * fvec3))
  (Oa_out : list vec3) (timestep : R)
  (i : nat) (R0 R Oa rb0 rb1 : vec3) :
  (length sphere_positions <= length sphere_rotations)%nat ->
  (length sphere_positions <= length new_sphere_positions)%nat ->
  (length sphere_positions <= length Oa_out)%nat ->
  (length sphere_positions <= length new_sphere_rotations)%nat ->
  nth_error sphere_positions i = Some R0 ->
  nth_error new_sphere_positions i = Some R ->
  nth_error Oa_out i = Some Oa ->
  nth_error sphere_rotations i = Some (rb0, rb1) ->
  rb0 <> R0 -> rb1 <> R0 ->
  exists out mi,
    euler_timestep_rotation sphere_positions sphere_rotations
      new_sphere_positions new_sphere_rotations Oa_out timestep = Ok out /\
    inv3 (rot_matrix Oa) = Ok mi /\
    (forall v, mat_vec3 (rot_matrix Oa) (mat_vec3 mi v) = v) /\
    let new rb :=
      vadd R (mat_vec3 (rot_matrix Oa)
                (turn (timestep * angular_speed Oa) (mat_vec3 mi (vsub rb R0)))) in
    nth_error out i = Some (Finite (new rb0), Finite (new rb1)).
Proof.
  intros Hr Hn Ho Hb HR0 HR HOa Hm H0 H1.
  destruct (euler_timestep_rotation_rows sphere_positions sphere_rotations
              new_sphere_positions new_sphere_rotations Oa_out timestep Hr Hn Ho Hb)
    as (out & E & _ & U & _).
  assert (Hi : (i < length sphere_positions)%nat).
  { apply nth_error_Some. congruence. }
  destruct (U i Hi) as (row & Nrow & R0' & w' & a & b & R' & off0 & off1 &
                        HR0' & Hw' & Hm' & HR' & E0 & E1 & ->).
  rewrite HR0 in HR0'. rewrite HOa in Hw'. rewrite Hm in Hm'. rewrite HR in HR'.
  inversion HR0'; inversion Hw'; inversion Hm'; inversion HR'; subst R0' w' a b R'.
  destruct (rot_matrix_inverse Oa) as (mi & Hinv & Hright & _).
  rewrite (rotated_offset_value _ mi _ _ _ _ Hinv Hright) in E0.
  rewrite (rotated_offset_value _ mi _ _ _ _ Hinv Hright) in E1.
  rewrite (proj2 (vec3_eqb_false _ _) H0) in E0.
  rewrite (proj2 (vec3_eqb_false _ _) H1) in E1.
  inversion E0; inversion E1; subst off0 off1. cbn [translate] in Nrow.
  exists out, mi. repeat split; assumption.
Qed.

Lemma rot_matrix_rodrigues w mi theta d :
  w <> V3 0 0 0 ->
  (forall v, mat_vec3 (rot_matrix w) (mat_vec3 mi v) = v) ->
  mat_vec3 (rot_matrix w) (turn theta (mat_vec3 mi d))
  = rodrigues (vdiv w (angular_speed w)) theta d.
Proof.
  intros Hw Hright.
  destruct (rot_matrix_columns w Hw) as (H2 & H01 & H02 & H12 & H22 & _).
  destruct (frame_cross w Hw) as (C1 & C2). cbv zeta in *.
  rewrite (frame_rodrigues _ theta (mat_vec3 mi d) C1 C2 H02 H12 H22).
  now rewrite Hright, H2.
Qed.

Lemma rodrigues_on_axis w theta k :
  w <> V3 0 0 0 ->
  rodrigues (vdiv w (angular_speed w)) theta (vscale k w) = vscale k w.
Proof.
  intros Hw.
  pose proof (angular_speed_pos w Hw) as HO.
  pose proof (angular_speed_sqr w) as HOO.
  set (O := angular_speed w) in *.
  assert (Hd : dot (vdiv w O) (vscale k w) = k * O).
  { unfold dot, vdiv, vscale. cbn [vx vy vz].
    transitivity (k * (vx w ^ 2 + vy w ^ 2 + vz w ^ 2) / O); [field; lra|].
    rewrite <- HOO. field; lra. }
  unfold rodrigues. rewrite Hd.
  apply vec3_eq; unfold vadd, vscale, cross, vdiv; cbn [vx vy vz]; field; lra.
Qed.

Lemma mat_vec3_identity v : mat_vec3 identity3 v = v.
Proof.
  apply vec3_eq; unfold mat_vec3, identity3, dot; cbn [row0 row1 row2 vx vy vz]; ring.
Qed.

Lemma turn_dot theta q : dot (turn theta q) (turn theta q) = dot q q.
Proof.
  destruct (turn_invariants theta q) as [Hxy Hz]. unfold dot.
  transitivity ((vx (turn theta q) ^ 2 + vy (turn theta q) ^ 2)
                + vz (turn theta q) * vz (turn theta q)); [ring|].
  rewrite Hxy, Hz. ring.
Qed.

Lemma frame_radius w mi theta d :
  (forall v, mat_vec3 (rot_matrix w) (mat_vec3 mi v) = v) ->
  norm (mat_vec3 (rot_matrix w) (turn theta (mat_vec3 mi d))) = norm d.
Proof.
  intros Hright. unfold norm. f_equal.
  destruct (vec3_eqb w (V3 0 0 0)) eqn:Ew.
  - apply vec3_eqb_true in Ew. subst w. rewrite rot_matrix_zero in *.
    rewrite mat_vec3_identity, turn_dot.
    rewrite <- (Hright d) at 3 4. now rewrite mat_vec3_identity.
  - apply vec3_eqb_false in Ew.
    destruct (rot_matrix_columns w Ew) as (_ & H01 & H02 & H12 & H22 & H00 & H11 & _).
    cbv zeta in *.
    rewrite <- (Hright d) at 3 4.
    rewrite (frame_norm _ _ _ H01 H02 H12 H22 H00 H11).
    rewrite (frame_norm _ _ _ H01 H02 H12 H22 H00 H11).
    destruct (turn_invariants theta (mat_vec3 mi d)) as [Hxy Hz].
    rewrite Hxy, Hz. reflexivity.
Qed.

Lemma vsub_vadd_cancel a b : vsub (vadd a b) a = b.
Proof. apply vec3_eq; unfold vsub, vadd; cbn [vx vy vz]; ring. Qed.

(** For a sphere with a non-zero angular velocity [Oa] and markers off its
    centre, the step returns, and each new marker is the new centre plus the
    old offset rotated about [Oa / O] by the angle [timestep * O]. *)
Theorem rotation_step_is_rotation_about_angular_velocity
  (sphere_positions : list vec3) (sphere_rotations : list (vec3 * vec3))
  (new_sphere_positions : list vec3) (new_sphere_rotations : list (fvec3 * fvec3))
  (Oa_out : list vec3) (timestep : R)
  (i : nat) (R0 R Oa rb0 rb1 : vec3) :
  (length sphere_positions <= length sphere_rotations)%nat ->
  (length sphere_positions <= length new_sphere_positions)%nat ->
  (length sphere_positions <= length Oa_out)%nat ->
  (length sphere_positions <= length new_sphere_rotations)%nat ->
  nth_error sphere_positions i = Some R0 ->
  nth_error new_sphere_positions i = Some R ->
  nth_error Oa_out i = Some Oa ->
  nth_error sphere_rotations i = Some (rb0, rb1) ->
  Oa <> V3 0 0 0 ->
  rb0 <> R0 -> rb1 <> R0 ->
  let O := angular_speed Oa in
  let new rb := vadd R (rodrigues (vdiv Oa O) (timestep * O) (vsub rb R0)) in
  exists out,
    euler_timestep_rotation sphere_positions sphere_rotations
      new_sphere_positions new_sphere_rotations Oa_out timestep = Ok out /\
    nth_error out i = Some (Finite (new rb0), Finite (new rb1)).
Proof.
  intros Hr Hn Ho Hb HR0 HR HOa Hm Hw H0 H1 O new.
  destruct (rotation_step_row_frame _ _ _ _ _ timestep i R0 R Oa rb0 rb1
              Hr Hn Ho Hb HR0 HR HOa Hm H0 H1)
    as (out & mi & E & _ & Hright & Hrow).
  cbv beta zeta in Hrow.
  rewrite !(rot_matrix_rodrigues Oa mi _ _ Hw Hright) in Hrow.
  exists out. split; [exact E|exact Hrow].
Qed.

(** A quarter turn about the z axis: the marker on the x axis goes to the y
    axis. *)
Lemma rotation_step_is_rotation_about_angular_velocity_witness :
  exists out,
    euler_timestep_rotation [V3 0 0 0] [(V3 1 0 0, V3 0 0 1)] [V3 5 0 0]
      [(Finite (V3 1 0 0), Finite (V3 0 0 1))] [V3 0 0 (PI / 2)] 1 = Ok out /\
    nth_error out 0
    = Some (Finite (vadd (V3 5 0 0)
                      (rodrigues (vdiv (V3 0 0 (PI / 2)) (angular_speed (V3 0 0 (PI / 2))))
                         (1 * angular_speed (V3 0 0 (PI / 2)))
                         (vsub (V3 1 0 0) (V3 0 0 0)))),
            Finite (vadd (V3 5 0 0)
                      (rodrigues (vdiv (V3 0 0 (PI / 2)) (angular_speed (V3 0 0 (PI / 2))))
                         (1 * angular_speed (V3 0 0 (PI / 2)))
                         (vsub (V3 0 0 1) (V3 0 0 0))))).
Proof.
  pose proof PI_RGT_0 as Hpi.
  apply (rotation_step_is_rotation_about_angular_velocity
           [V3 0 0 0] [(V3 1 0 0, V3 0 0 1)] [V3 5 0 0]
           [(Finite (V3 1 0 0), Finite (V3 0 0 1))] [V3 0 0 (PI / 2)] 1
           0 (V3 0 0 0) (V3 5 0 0) (V3 0 0 (PI / 2)) (V3 1 0 0) (V3 0 0 1));
    try (simpl; lia); try reflexivity; vec3_neq.
Defined.

(** Whatever the angular velocity, a marker off the centre of its sphere
    stays at the same distance from the centre: the distance from the new
    marker to the new centre is the distance from the old marker to the old
    centre. *)
Theorem rotation_step_keeps_marker_on_sphere
  (sphere_positions : list vec3) (sphere_rotations : list (vec3 * vec3))
  (new_sphere_positions : list vec3) (new_sphere_rotations : list (fvec3 * fvec3))
  (Oa_out : list vec3) (timestep : R)
  (i : nat) (R0 R Oa rb0 rb1 : vec3) :
  (length sphere_positions <= length sphere_rotations)%nat ->
  (length sphere_positions <= length new_sphere_positions)%nat ->
  (length sphere_positions <= length Oa_out)%nat ->
  (length sphere_positions <= length new_sphere_rotations)%nat ->
  nth_error sphere_positions i = Some R0 ->
  nth_error new_sphere_positions i = Some R ->
  nth_error Oa_out i = Some Oa ->
  nth_error sphere_rotations i = Some (rb0, rb1) ->
  rb0 <> R0 -> rb1 <> R0 ->
  exists out new0 new1,
    euler_timestep_rotation sphere_positions sphere_rotations
      new_sphere_positions new_sphere_rotations Oa_out timestep = Ok out /\
    nth_error out i = Some (Finite new0, Finite new1) /\
    distance new0 R = distance rb0 R0 /\
    distance new1 R = distance rb1 R0.
Proof.
  intros Hr Hn Ho Hb HR0 HR HOa Hm H0 H1.
  destruct (rotation_step_row_frame _ _ _ _ _ timestep i R0 R Oa rb0 rb1
              Hr Hn Ho Hb HR0 HR HOa Hm H0 H1)
    as (out & mi & E & _ & Hright & Hrow).
  cbv beta zeta in Hrow.
  eexists out, _, _. split; [exact E|]. split; [exact Hrow|].
  unfold distance. rewrite !vsub_vadd_cancel.
  split; apply frame_radius; exact Hright.
Qed.

(** A sphere carried from the origin to (5, 0, 0) while turning about (1, 1, 0). *)
Lemma rotation_step_keeps_marker_on_sphere_witness :
  exists out new0 new1,
    euler_timestep_rotation [V3 0 0 0] [(V3 1 0 0, V3 0 0 2)] [V3 5 0 0]
      [(Finite (V3 1 0 0), Finite (V3 0 0 2))] [V3 1 1 0] 3 = Ok out /\
    nth_error out 0 = Some (Finite new0, Finite new1) /\
    distance new0 (V3 5 0 0) = distance (V3 1 0 0) (V3 0 0 0) /\
    distance new1 (V3 5 0 0) = distance (V3 0 0 2) (V3 0 0 0).
Proof.
  apply (rotation_step_keeps_marker_on_sphere
           [V3 0 0 0] [(V3 1 0 0, V3 0 0 2)] [V3 5 0 0]
           [(Finite (V3 1 0 0), Finite (V3 0 0 2))] [V3 1 1 0] 3
           0 (V3 0 0 0) (V3 5 0 0) (V3 1 1 0) (V3 1 0 0) (V3 0 0 2));
    try (simpl; lia); try reflexivity; vec3_neq.
Defined.



(** A marker on the axis of rotation, at the offset [k Oa] from the centre,
    keeps that offset for every timestep. *)
Theorem rotation_step_fixes_axis_marker
  (sphere_positions : list vec3) (sphere_rotations : list (vec3 * vec3))
  (new_sphere_positions : list vec3) (new_sphere_rotations : list (fvec3 * fvec3))
  (Oa_out : list vec3) (timestep k : R)
  (i : nat) (R0 R Oa rb1 : vec3) :
  (length sphere_positions <= length sphere_rotations)%nat ->
  (length sphere_positions <= length new_sphere_positions)%nat ->
  (length sphere_positions <= length Oa_out)%nat ->
  (length sphere_positions <= length new_sphere_rotations)%nat ->
  nth_error sphere_positions i = Some R0 ->
  nth_error new_sphere_positions i = Some R ->
  nth_error Oa_out i = Some Oa ->
  nth_error sphere_rotations i = Some (vadd R0 (vscale k Oa), rb1) ->
  Oa <> V3 0 0 0 -> k <> 0 -> rb1 <> R0 ->
  exists out new1,
    euler_timestep_rotation sphere_positions sphere_rotations
      new_sphere_positions new_sphere_rotations Oa_out timestep = Ok out /\
    nth_error out i = Some (Finite (vadd R (vscale k Oa)), Finite new1).
Proof.
  intros Hr Hn Ho Hb HR0 HR HOa Hm Hw Hk H1.
  assert (H0 : vadd R0 (vscale k Oa) <> R0).
  { intros H. apply Hw. apply (f_equal (fun v => vsub v R0)) in H.
    rewrite vsub_vadd_cancel in H.
    destruct Oa as [a b c]. unfold vscale, vsub in H. cbn [vx vy vz] in H.
    injection H as Ha Hb' Hc.
    f_equal; nra. }
  destruct (rotation_step_row_frame _ _ _ _ _ timestep i R0 R Oa _ rb1
              Hr Hn Ho Hb HR0 HR HOa Hm H0 H1)
    as (out & mi & E & _ & Hright & Hrow).
  cbv beta zeta in Hrow.
  rewrite !(rot_matrix_rodrigues Oa mi _ _ Hw Hright) in Hrow.
  rewrite vsub_vadd_cancel, (rodrigues_on_axis Oa _ k Hw) in Hrow.
  eexists out, _. split; [exact E|exact Hrow].
Qed.

Lemma rotation_step_fixes_axis_marker_witness :
  exists out new1,
    euler_timestep_rotation [V3 0 0 0]
      [(vadd (V3 0 0 0) (vscale 2 (V3 1 1 0)), V3 0 0 2)] [V3 5 0 0]
      [(Finite (V3 1 0 0), Finite (V3 0 0 2))] [V3 1 1 0] 3 = Ok out /\
    nth_error out 0
    = Some (Finite (vadd (V3 5 0 0) (vscale 2 (V3 1 1 0))), Finite new1).
Proof.
  apply (rotation_step_fixes_axis_marker
           [V3 0 0 0] [(vadd (V3 0 0 0) (vscale 2 (V3 1 1 0)), V3 0 0 2)] [V3 5 0 0]
           [(Finite (V3 1 0 0), Finite (V3 0 0 2))] [V3 1 1 0] 3 2
           0 (V3 0 0 0) (V3 5 0 0) (V3 1 1 0) (V3 0 0 2));
    try (simpl; lia); try reflexivity; try lra; vec3_neq.
Defined.

(** ** Shapes *)

(** With one row per sphere, at least, in every array, the step returns,
    whatever the values (a zero angular velocity and a marker on the centre
    included); the result has the rows of [new_sphere_rotations], and the
    rows past the last sphere are those of [new_sphere_rotations]. *)
Theorem rotation_step_shape
  (sphere_positions : list vec3) (sphere_rotations : list (vec3 * vec3))
  (new_sphere_positions : list vec3) (new_sphere_rotations : list (fvec3 * fvec3))
  (Oa_out : list vec3) (timestep : R) :
  (length sphere_positions <= length sphere_rotations)%nat ->
  (length sphere_positions <= length new_sphere_positions)%nat ->
  (length sphere_positions <= length Oa_out)%nat ->
  (length sphere_positions <= length new_sphere_rotations)%nat ->
  exists out,
    euler_timestep_rotation sphere_positions sphere_rotations
      new_sphere_positions new_sphere_rotations Oa_out timestep = Ok out /\
    length out = length new_sphere_rotations /\
    (forall j, (length sphere_positions <= j)%nat ->
               nth_error out j = nth_error new_sphere_rotations j).
Proof.
  intros Hr Hn Ho Hb.
  destruct (euler_timestep_rotation_rows sphere_positions sphere_rotations
              new_sphere_positions new_sphere_rotations Oa_out timestep Hr Hn Ho Hb)
    as (out & E & L & _ & K).
  exists out. repeat split; assumption.
Qed.

(** One sphere with a marker on its centre and no angular velocity, and a
    spare row in the array of the new markers. *)
Lemma rotation_step_shape_witness :
  exists out,
    euler_timestep_rotation [V3 0 0 0] [(V3 0 0 0, V3 0 0 2)] [V3 5 0 0]
      [(Finite (V3 1 0 0), Finite (V3 0 0 2)); (NaN3, Finite (V3 7 7 7))]
      [V3 0 0 0] 3 = Ok out /\
    length out = 2%nat /\
    nth_error out 1 = Some (NaN3, Finite (V3 7 7 7)).
Proof.
  destruct (rotation_step_shape [V3 0 0 0] [(V3 0 0 0, V3 0 0 2)] [V3 5 0 0]
              [(Finite (V3 1 0 0), Finite (V3 0 0 2)); (NaN3, Finite (V3 7 7 7))]
              [V3 0 0 0] 3) as (out & E & L & K); try (simpl; lia).
  exists out. split; [exact E|]. split; [exact L|].
  apply (K 1%nat). simpl. lia.
Defined.

Lemma for_range_app {St} (body : nat -> St -> outcome St) : forall k1 k2 i s,
  for_range i (k1 + k2) body s
  = (s' <- for_range i k1 body s ;; for_range (i + k1) k2 body s').
Proof.
  induction k1 as [|k1 IH]; intros k2 i s.
  - cbn [for_range Nat.add bind]. now rewrite Nat.add_0_r.
  - cbn [for_range Nat.add]. destruct (body i s) as [s'|e]; cbn [bind]; [|reflexivity].
    rewrite IH. now rewrite Nat.add_succ_r.
Qed.

Lemma index_none {A} (l : list A) i :
  (length l <= i)%nat -> index l i = Raise IndexError.
Proof.
  intros H. unfold index. now rewrite (proj2 (nth_error_None l i) H).
Qed.

Lemma update_sphere_short positions rotations new_positions Oa_out timestep i buf :
  (i < length positions)%nat ->
  (length rotations <= i \/ length new_positions <= i \/
   length Oa_out <= i \/ length buf <= i)%nat ->
  update_sphere positions rotations new_positions Oa_out timestep i buf
  = Raise IndexError.
Proof.
  intros Hi Hshort. unfold update_sphere.
  destruct (nth_error positions i) as [R0|] eqn:EP;
    [|apply nth_error_None in EP; lia].
  rewrite (index_some _ _ _ EP). cbn [bind].
  destruct (Nat.le_gt_cases (length Oa_out) i) as [Ho|Ho].
  { now rewrite index_none. }
  destruct (nth_error Oa_out i) as [Oa|] eqn:EO;
    [|apply nth_error_None in EO; lia].
  rewrite (index_some _ _ _ EO). cbn [bind for_range].
  unfold update_marker at 1.
  destruct (Nat.le_gt_cases (length rotations) i) as [Hr|Hr].
  { now rewrite index_none. }
  destruct (nth_error rotations i) as [[rb0 rb1]|] eqn:ER;
    [|apply nth_error_None in ER; lia].
  rewrite (index_some _ _ _ ER). cbn [bind marker fst].
  destruct (rotated_offset_total Oa timestep R0 rb0) as [offset ->]. cbn [bind].
  destruct (Nat.le_gt_cases (length new_positions) i) as [Hn|Hn].
  { now rewrite index_none. }
  destruct (nth_error new_positions i) as [R|] eqn:EN;
    [|apply nth_error_None in EN; lia].
  rewrite (index_some _ _ _ EN). cbn [bind].
  rewrite index_none by lia. reflexivity.
Qed.

(** When one of [sphere_rotations], [new_sphere_positions], [Oa_out] and
    [new_sphere_rotations] has fewer rows than [sphere_positions], the step
    raises [IndexError]. *)
Theorem rotation_step_missing_row
  (sphere_positions : list vec3) (sphere_rotations : list (vec3 * vec3))
  (new_sphere_positions : list vec3) (new_sphere_rotations : list (fvec3 * fvec3))
  (Oa_out : list vec3) (timestep : R) :
  (length sphere_rotations < length sphere_positions \/
   length new_sphere_positions < length sphere_positions \/
   length Oa_out < length sphere_positions \/
   length new_sphere_rotations < length sphere_positions)%nat ->
  euler_timestep_rotation sphere_positions sphere_rotations
    new_sphere_positions new_sphere_rotations Oa_out timestep
  = Raise IndexError.
Proof.
  intros Hshort. unfold euler_timestep_rotation.
  set (k := Nat.min (Nat.min (length sphere_rotations) (length new_sphere_positions))
                    (Nat.min (length Oa_out) (length new_sphere_rotations))).
  assert (Hk : (k < length sphere_positions)%nat) by (unfold k; lia).
  replace (length sphere_positions)
    with (k + S (length sphere_positions - k - 1))%nat by lia.
  rewrite for_range_app.
  destruct (rotation_loop sphere_positions sphere_rotations new_sphere_positions
              Oa_out timestep k 0 new_sphere_rotations)
    as (buf & -> & L & _); try (unfold k; lia).
  cbn [bind for_range Nat.add].
  rewrite update_sphere_short; [reflexivity|exact Hk|].
  rewrite L. unfold k. lia.
Qed.

(** Two spheres and one angular velocity. *)
Lemma rotation_step_missing_row_witness :
  euler_timestep_rotation [V3 0 0 0; V3 3 0 0]
    [(V3 1 0 0, V3 0 0 1); (V3 4 0 0, V3 3 0 1)] [V3 0 0 0; V3 3 0 0]
    [(Finite (V3 1 0 0), Finite (V3 0 0 1)); (Finite (V3 4 0 0), Finite (V3 3 0 1))]
    [V3 0 0 1] 1
  = Raise IndexError.
Proof.
  apply rotation_step_missing_row. simpl. lia.
Defined.

(** ** AB2 rotation *)

Lemma combine_same {A} (f : A -> A -> A) (l : list A) :
  (forall a, f a a = a) ->
  map (fun p => f (fst p) (snd p)) (combine l l) = l.
Proof.
  intros H. induction l as [|a l IH]; [reflexivity|].
  cbn [combine map fst snd]. now rewrite H, IH.
Qed.

(** With the angular velocities of the previous step equal to the current
    ones, the AB2 rotation step is the Euler rotation step. *)
Theorem ab2_timestep_rotation_same_velocity
  (sphere_positions : list vec3) (sphere_rotations : list (vec3 * vec3))
  (new_sphere_positions : list vec3) (new_sphere_rotations : list (fvec3 * fvec3))
  (Oa_out : list vec3) (timestep : R) :
  ab2_timestep_rotation sphere_positions sphere_rotations
    new_sphere_positions new_sphere_rotations Oa_out Oa_out timestep
  = euler_timestep_rotation sphere_positions sphere_rotations
      new_sphere_positions new_sphere_rotations Oa_out timestep.
Proof.
  unfold ab2_timestep_rotation. rewrite zip_rows_ok by reflexivity. cbn [bind].
  rewrite (combine_same (fun o op => vsub (vscale 1.5 o) (vscale 0.5 op)));
    [reflexivity|].
  intros a. apply vec3_eq; unfold vsub, vscale; cbn [vx vy vz]; lra.
Qed.

(** ** ETA estimator: edge and error behaviour *)

Lemma calculate_time_left_value (DISABLE_JIT : bool) (times : list R)
  (frameno num_frames invert_m_every checkpoint_start_from_frame : Z) :
  invert_m_every <> 0%Z ->
  (0 <= checkpoint_start_from_frame <= frameno)%Z ->
  (frameno < Z.of_nat (length times))%Z ->
  exists flags,
    calculate_time_left DISABLE_JIT times frameno num_frames invert_m_every
      checkpoint_start_from_frame
    = Ok (eta_estimate DISABLE_JIT times frameno num_frames invert_m_every
            checkpoint_start_from_frame, flags).
Proof.
  intros Hn Hstart Hlen.
  unfold calculate_time_left.
  set (done := range checkpoint_start_from_frame (frameno + 1)).
  set (left := range (frameno + 1) num_frames).
  set (long := is_long_frame invert_m_every checkpoint_start_from_frame).
  set (short := is_short_frame invert_m_every checkpoint_start_from_frame).
  assert (Hdone : forall i, In i done ->
                    py_index times i = Ok (time_of times i)).
  { intros i Hi. apply in_range in Hi. apply py_index_in_range. lia. }
  rewrite (comprehension_value _ _ (time_of times) long done).
  2:{ intros i _. rewrite py_mod_nonzero by exact Hn. reflexivity. }
  2:{ intros i Hi _. now apply Hdone. }
  cbn [bind].
  destruct (long_average_code DISABLE_JIT (map (time_of times) (filter long done)))
    as [flag ->].
  rewrite (comprehension_value _ _ (time_of times) short done).
  2:{ intros i _. rewrite py_mod_nonzero by exact Hn. cbn [bind].
      unfold short, is_short_frame, is_long_frame. now rewrite negb_orb. }
  2:{ intros i Hi _. now apply Hdone. }
  cbn [bind].
  rewrite (comprehension_value _ _ (fun i => i) (fun i => (i mod invert_m_every =? 0)%Z) left).
  2:{ intros i _. rewrite py_mod_nonzero by exact Hn. reflexivity. }
  2:{ reflexivity. }
  cbn [bind].
  rewrite (comprehension_value _ _ (fun i => i)
             (fun i => negb (i mod invert_m_every =? 0)%Z) left).
  2:{ intros i _. rewrite py_mod_nonzero by exact Hn. reflexivity. }
  2:{ reflexivity. }
  cbn [bind]. rewrite !map_id.
  assert (Hl : filter (fun i => (i mod invert_m_every =? 0)%Z) left = filter long left).
  { apply filter_ext_in_range. intros i Hi. apply in_range in Hi.
    unfold long, is_long_frame.
    rewrite (proj2 (Z.eqb_neq i checkpoint_start_from_frame)) by lia.
    now rewrite orb_false_r. }
  assert (Hs : filter (fun i => negb (i mod invert_m_every =? 0)%Z) left
               = filter short left).
  { apply filter_ext_in_range. intros i Hi. apply in_range in Hi.
    unfold short, is_short_frame, is_long_frame.
    rewrite (proj2 (Z.eqb_neq i checkpoint_start_from_frame)) by lia.
    now rewrite orb_false_r. }
  rewrite Hl, Hs.
  eexists. f_equal. f_equal.
  unfold eta_estimate. fold done left long short. cbv zeta.
  destruct (map (time_of times) (filter short done)) as [|t l] eqn:E;
    cbn [length Nat.eqb negb]; reflexivity.
Qed.

Lemma range_empty a b : (b <= a)%Z -> range a b = [].
Proof.
  intros H. unfold range. replace (Z.to_nat (b - a)) with 0%nat by lia. reflexivity.
Qed.

(** At the last frame of a run ([frameno + 1 >= num_frames]) no time is
    left: the estimate is 0. *)
Theorem calculate_time_left_last_frame (DISABLE_JIT : bool) (times : list R)
  (frameno num_frames invert_m_every checkpoint_start_from_frame : Z) :
  invert_m_every <> 0%Z ->
  (0 <= checkpoint_start_from_frame <= frameno)%Z ->
  (frameno < Z.of_nat (length times))%Z ->
  (num_frames <= frameno + 1)%Z ->
  exists flags,
    calculate_time_left DISABLE_JIT times frameno num_frames invert_m_every
      checkpoint_start_from_frame = Ok (0, flags).
Proof.
  intros Hn Hstart Hlen Hlast.
  destruct (calculate_time_left_value DISABLE_JIT times frameno num_frames
              invert_m_every checkpoint_start_from_frame Hn Hstart Hlen)
    as [flags E].
  exists flags. rewrite E. do 2 f_equal.
  unfold eta_estimate. cbv zeta.
  rewrite (range_empty (frameno + 1) num_frames) by lia.
  cbn [filter length INR]. lra.
Qed.

Lemma calculate_time_left_last_frame_witness :
  exists flags, calculate_time_left false [2; 1; 1] 2 3 5 0 = Ok (0, flags).
Proof.
  apply (calculate_time_left_last_frame false [2; 1; 1] 2 3 5 0);
    try lia; simpl; lia.
Defined.

Lemma sum_from acc (l : list R) : fold_left Rplus l acc = acc + sum l.
Proof.
  unfold sum. revert acc. induction l as [|x l IH]; intros acc; cbn [fold_left].
  - lra.
  - rewrite IH, (IH (0 + x)). lra.
Qed.

Lemma sum_nonneg (l : list R) : Forall (fun t => 0 <= t) l -> 0 <= sum l.
Proof.
  induction 1 as [|x l Hx _ IH]; unfold sum; cbn [fold_left]; [lra|].
  rewrite sum_from. lra.
Qed.

Lemma mean_nonneg (l : list R) :
  l <> [] -> Forall (fun t => 0 <= t) l -> 0 <= mean l.
Proof.
  intros Hl H. unfold mean, len.
  assert (0 < INR (length l)).
  { apply lt_0_INR. destruct l; [congruence|simpl; lia]. }
  apply Rmult_le_pos; [now apply sum_nonneg|].
  left. now apply Rinv_0_lt_compat.
Qed.

Lemma long_average_nonneg DISABLE_JIT (l : list R) :
  Forall (fun t => 0 <= t) l -> 0 <= long_average DISABLE_JIT l.
Proof.
  intros H. unfold long_average.
  destruct DISABLE_JIT.
  - destruct l as [|t l]; [lra|]. apply mean_nonneg; [discriminate|exact H].
  - destruct l as [|t [|t' l]]; [lra|now inversion H|].
    apply mean_nonneg; [discriminate|now inversion H].
Qed.

Lemma times_nonneg (times : list R) (l : list Z) :
  Forall (fun t => 0 <= t) times ->
  Forall (fun t => 0 <= t) (map (time_of times) l).
Proof.
  intros H. apply Forall_forall. intros t Ht.
  apply in_map_iff in Ht as (i & <- & _). unfold time_of.
  destruct (nth_in_or_default (Z.to_nat i) times 0) as [Hin| ->]; [|lra].
  rewrite Forall_forall in H. now apply H.
Qed.

(** For recorded times that are not negative the estimate is not
    negative. *)
Theorem calculate_time_left_nonnegative (DISABLE_JIT : bool) (times : list R)
  (frameno num_frames invert_m_every checkpoint_start_from_frame : Z) :
  invert_m_every <> 0%Z ->
  (0 <= checkpoint_start_from_frame <= frameno)%Z ->
  (frameno < Z.of_nat (length times))%Z ->
  Forall (fun t => 0 <= t) times ->
  exists timeleft flags,
    calculate_time_left DISABLE_JIT times frameno num_frames invert_m_every
      checkpoint_start_from_frame = Ok (timeleft, flags) /\
    0 <= timeleft.
Proof.
  intros Hn Hstart Hlen Hpos.
  destruct (calculate_time_left_value DISABLE_JIT times frameno num_frames
              invert_m_every checkpoint_start_from_frame Hn Hstart Hlen)
    as [flags E].
  eexists _, flags. split; [exact E|].
  unfold eta_estimate. cbv zeta.
  set (la := long_average DISABLE_JIT _).
  assert (Hla : 0 <= la) by (apply long_average_nonneg, times_nonneg, Hpos).
  set (st := map (time_of times) _).
  assert (Hst : Forall (fun t => 0 <= t) st) by (apply times_nonneg, Hpos).
  assert (Hsa : 0 <= match st with [] => la | _ :: _ => mean st end).
  { destruct st as [|t l]; [exact Hla|]. apply mean_nonneg; [discriminate|exact Hst]. }
  apply Rmult_le_pos; [|lra].
  apply Rplus_le_le_0_compat; apply Rmult_le_pos; auto using pos_INR.
Qed.

Lemma calculate_time_left_nonnegative_witness :
  exists timeleft flags,
    calculate_time_left false [2; 1; 1] 2 10 5 0 = Ok (timeleft, flags) /\
    0 <= timeleft.
Proof.
  apply (calculate_time_left_nonnegative false [2; 1; 1] 2 10 5 0);
    try lia; [simpl; lia|].
  repeat constructor; lra.
Defined.

Lemma range_cons a b : (a < b)%Z -> range a b = a :: range (a + 1) b.
Proof.
  intros H. unfold range.
  replace (Z.to_nat (b - a)) with (S (Z.to_nat (b - (a + 1)))) by lia.
  cbn [seq map]. f_equal; [lia|].
  rewrite <- seq_shift, map_map. apply map_ext. intros k. lia.
Qed.

(** With [invert_m_every = 0] the remainder of line 499 (or 524) cannot be
    taken: the function raises [ZeroDivisionError] as soon as there is a
    frame to look at, done or left. *)
Theorem calculate_time_left_zero_period (DISABLE_JIT : bool) (times : list R)
  (frameno num_frames checkpoint_start_from_frame : Z) :
  (checkpoint_start_from_frame <= frameno \/ frameno + 1 < num_frames)%Z ->
  calculate_time_left DISABLE_JIT times frameno num_frames 0
    checkpoint_start_from_frame = Raise ZeroDivisionError.
Proof.
  intros H. unfold calculate_time_left.
  destruct (Z_le_gt_dec checkpoint_start_from_frame frameno) as [Hle|Hgt].
  - rewrite (range_cons checkpoint_start_from_frame (frameno + 1)) by lia.
    reflexivity.
  - rewrite (range_empty checkpoint_start_from_frame (frameno + 1)) by lia.
    cbn [comprehension bind].
    rewrite (range_cons (frameno + 1) num_frames) by lia.
    destruct (negb DISABLE_JIT); reflexivity.
Qed.

Lemma calculate_time_left_zero_period_witness :
  calculate_time_left true [2; 1; 1] 2 10 0 0 = Raise ZeroDivisionError.
Proof.
  apply calculate_time_left_zero_period. lia.
Defined.

Lemma comprehension_cases {A B} (body : A -> outcome B) (cond : A -> outcome bool)
  (c : A -> bool) (e : failure) (l : list A) :
  (forall i, In i l -> cond i = Ok (c i)) ->
  (forall i, In i l -> c i = true -> (exists b, body i = Ok b) \/ body i = Raise e) ->
  (exists bs, comprehension body cond l = Ok bs) \/
  comprehension body cond l = Raise e.
Proof.
  induction l as [|i l IH]; intros Hc Hb; [left; now exists []|].
  cbn [comprehension]. rewrite (Hc i) by now left. cbn [bind].
  assert (IHl : (exists bs, comprehension body cond l = Ok bs) \/
                comprehension body cond l = Raise e).
  { apply IH; intros j Hj; [apply Hc|apply Hb]; now right. }
  destruct (c i) eqn:E; [|exact IHl].
  destruct (Hb i (or_introl eq_refl) E) as [[b ->]| ->]; cbn [bind]; [|now right].
  destruct IHl as [[bs ->]| ->]; cbn [bind]; [left; eauto|now right].
Qed.

Lemma comprehension_raise {A B} (body : A -> outcome B) (cond : A -> outcome bool)
  (c : A -> bool) (e : failure) (l : list A) :
  (forall i, In i l -> cond i = Ok (c i)) ->
  (forall i, In i l -> c i = true -> (exists b, body i = Ok b) \/ body i = Raise e) ->
  (exists i, In i l /\ c i = true /\ body i = Raise e) ->
  comprehension body cond l = Raise e.
Proof.
  induction l as [|i l IH]; intros Hc Hb (k & Hk & Ck & Bk); [contradiction|].
  cbn [comprehension]. rewrite (Hc i) by now left. cbn [bind].
  assert (Hl : (exists bs, comprehension body cond l = Ok bs) \/
               comprehension body cond l = Raise e).
  { apply (comprehension_cases body cond c e);
      intros j Hj; [apply Hc|apply Hb]; now right. }
  destruct Hk as [<-|Hk].
  - rewrite Ck, Bk. reflexivity.
  - assert (IHl : comprehension body cond l = Raise e).
    { apply IH; [intros j Hj; apply Hc; now right
                |intros j Hj; apply Hb; now right
                |exists k; auto]. }
    destruct (c i) eqn:E; [|exact IHl].
    destruct (Hb i (or_introl eq_refl) E) as [[b ->]| ->]; cbn [bind]; [|reflexivity].
    now rewrite IHl.
Qed.

Lemma py_index_cases (times : list R) i :
  (0 <= i)%Z ->
  (exists t, py_index times i = Ok t) \/ py_index times i = Raise IndexError.
Proof.
  intros H. unfold py_index. rewrite (proj2 (Z.leb_le 0 i)) by lia.
  unfold index. destruct (nth_error times (Z.to_nat i)); [left; eauto|now right].
Qed.

Lemma py_index_past_end (times : list R) i :
  (Z.of_nat (length times) <= i)%Z -> py_index times i = Raise IndexError.
Proof.
  intros H. unfold py_index. rewrite (proj2 (Z.leb_le 0 i)) by lia.
  apply index_none. lia.
Qed.

(** When the time of the current frame has not been recorded
    ([frameno >= len(times)]), the function raises [IndexError]. *)
Theorem calculate_time_left_missing_time (DISABLE_JIT : bool) (times : list R)
  (frameno num_frames invert_m_every checkpoint_start_from_frame : Z) :
  invert_m_every <> 0%Z ->
  (0 <= checkpoint_start_from_frame <= frameno)%Z ->
  (Z.of_nat (length times) <= frameno)%Z ->
  calculate_time_left DISABLE_JIT times frameno num_frames invert_m_every
    checkpoint_start_from_frame = Raise IndexError.
Proof.
  intros Hn Hstart Hlen. unfold calculate_time_left.
  set (done := range checkpoint_start_from_frame (frameno + 1)).
  set (long := is_long_frame invert_m_every checkpoint_start_from_frame).
  set (short := is_short_frame invert_m_every checkpoint_start_from_frame).
  assert (Hin : In frameno done) by (apply in_range; lia).
  assert (Hcl : forall i, In i done ->
            (m <- py_mod i invert_m_every ;;
             Ok ((m =? 0)%Z || (i =? checkpoint_start_from_frame)%Z)) = Ok (long i)).
  { intros i _. rewrite py_mod_nonzero by exact Hn. reflexivity. }
  assert (Hcs : forall i, In i done ->
            (m <- py_mod i invert_m_every ;;
             Ok (negb (m =? 0)%Z && negb (i =? checkpoint_start_from_frame)%Z))
            = Ok (short i)).
  { intros i _. rewrite py_mod_nonzero by exact Hn. cbn [bind].
    unfold short, is_short_frame, is_long_frame. now rewrite negb_orb. }
  assert (Hb : forall (c : Z -> bool) i, In i done -> c i = true ->
            (exists t, py_index times i = Ok t) \/ py_index times i = Raise IndexError).
  { intros c i Hi _. apply in_range in Hi. apply py_index_cases. lia. }
  destruct (long frameno) eqn:Elong.
  - rewrite (comprehension_raise _ _ long IndexError done Hcl (Hb long));
      [reflexivity|].
    exists frameno. repeat split; [exact Hin|exact Elong|].
    now apply py_index_past_end.
  - destruct (comprehension_cases _ _ long IndexError done Hcl (Hb long))
      as [[longtimes ->]| ->]; [|reflexivity].
    cbn [bind].
    match goal with
    | |- context [let '(_, _) := ?x in _] => destruct x as [flag average]
    end.
    rewrite (comprehension_raise _ _ short IndexError done Hcs (Hb short));
      [reflexivity|].
    exists frameno. repeat split; [exact Hin| |now apply py_index_past_end].
    unfold short, is_short_frame. fold long. now rewrite Elong.
Qed.

Lemma calculate_time_left_missing_time_witness :
  calculate_time_left true [2; 1] 2 10 5 0 = Raise IndexError.
Proof.
  apply calculate_time_left_missing_time; simpl; lia.
Defined.

(** ** Size ratios: one direction is enough *)








(** ** The orchestrator: modes that cannot return, and what every returned
    tuple holds *)

Lemma mode_stokes_drag_dumbbells_only_raises p i :
  exists e, mode_stokes_drag_dumbbells_only p i = Raise e.
Proof.
  unfold mode_stokes_drag_dumbbells_only.
  repeat match goal with
  | |- context [bind ?m _] =>
      lazymatch m with
      | context [bind _ _] => fail
      | _ => destruct m as [?|?]; cbn [bind]; [|eauto]
      end
  end.
  eauto.
Qed.

(** Mode [stokes_drag_dumbbells_only] never returns: whatever the inputs,
    the call ends in an exception (at the latest at line 258, where the
    float [Nbeads/2] is used as a slice bound). *)
Theorem stokes_drag_dumbbells_only_never_returns
  (c : collaborators) (p : posdata) (frameno : Z) (timestep : R)
  (input_number : Z) (last_generated_Minfinity_inverse : matrix)
  (regenerate_Minfinity : bool) (cutoff_factor : R) (printout : Z)
  (use_drag_Minfinity use_Minfinity_only
   extract_force_on_wall_due_to_dumbbells : bool)
  (last_velocities : list matrix) (last_velocity_vector : vector)
  (box_bottom_left box_top_right : vec3) (feed_every_n_timesteps : Z) :
  exists e,
    generate_output_FTSUOE c p frameno timestep input_number
      last_generated_Minfinity_inverse regenerate_Minfinity
      "stokes_drag_dumbbells_only"
      cutoff_factor printout use_drag_Minfinity use_Minfinity_only
      extract_force_on_wall_due_to_dumbbells last_velocities
      last_velocity_vector box_bottom_left box_top_right
      feed_every_n_timesteps = Raise e.
Proof.
  unfold generate_output_FTSUOE.
  destruct (input_ftsuoe c _ _ _ _ _ _ _ _) as [i|e]; cbn [bind]; [|eauto].
  change (("stokes_drag_dumbbells_only" =? "stokes_drag_dumbbells_only")%string)
    with true. cbv iota.
  destruct (mode_stokes_drag_dumbbells_only_raises p i) as [e ->].
  cbn [bind]. eauto.
Qed.

Lemma mode_ufte_extraction_raises c p i M ns :
  exists e, mode_ufte c p i M ns true = Raise e.
Proof.
  unfold mode_ufte.
  repeat match goal with
  | |- context [bind ?m _] =>
      lazymatch m with
      | context [bind _ _] => fail
      | _ => destruct m as [?|?]; cbn [bind]; [|eauto]
      end
  end.
  eauto.
Qed.

(** In mode [ufte] a request for the force on the wall never returns: the
    call ends in an exception (at the latest at line 368, where the float
    [len(...)/3] is passed to [reshape]). *)
Theorem ufte_extraction_never_returns
  (c : collaborators) (p : posdata) (frameno : Z) (timestep : R)
  (input_number : Z) (last_generated_Minfinity_inverse : matrix)
  (regenerate_Minfinity : bool) (cutoff_factor : R) (printout : Z)
  (use_drag_Minfinity use_Minfinity_only : bool)
  (last_velocities : list matrix) (last_velocity_vector : vector)
  (box_bottom_left box_top_right : vec3) (feed_every_n_timesteps : Z) :
  exists e,
    generate_output_FTSUOE c p frameno timestep input_number
      last_generated_Minfinity_inverse regenerate_Minfinity "ufte"
      cutoff_factor printout use_drag_Minfinity use_Minfinity_only
      true last_velocities
      last_velocity_vector box_bottom_left box_top_right
      feed_every_n_timesteps = Raise e.
Proof.
  unfold generate_output_FTSUOE.
  destruct (input_ftsuoe c _ _ _ _ _ _ _ _) as [i|e]; cbn [bind]; [|eauto].
  change (("ufte" =? "stokes_drag_dumbbells_only")%string) with false. cbv iota.
  destruct (generate_matrix _ _ _ _ _ _ _ _ _ _ _) as [[[[M h] cache] times]|e];
    cbn [bind]; [|eauto].
  unfold solve_mode.
  change (("ufte" =? "fts")%string) with false.
  change (("ufte" =? "fte")%string) with false.
  change (("ufte" =? "ufte")%string) with true. cbv iota.
  destruct (mode_ufte_extraction_raises c p i M (length (Ua_in i))) as [e ->].
  cbn [bind]. eauto.
Qed.

Lemma solve_mode_unknown c p i input_number frameno timestep last_velocities
  input_form M ns nd extract :
  ~ In input_form input_forms ->
  solve_mode c p i input_number frameno timestep last_velocities input_form
    M ns nd extract = Raise UnboundLocalError.
Proof.
  intros H. unfold solve_mode.
  repeat match goal with
  | |- context [(input_form =? ?s)%string] =>
      rewrite (proj2 (String.eqb_neq input_form s))
        by (intros ->; apply H; cbn; tauto)
  end.
  reflexivity.
Qed.

(** With an [input_form] that is none of the six names, the inputs are read
    and the grand resistance matrix is generated, and then the function
    raises [UnboundLocalError]: no branch has assigned the outputs that line
    446 converts. *)
Theorem unknown_input_form_raises
  (c : collaborators) (p : posdata) (frameno : Z) (timestep : R)
  (input_number : Z) (last_generated_Minfinity_inverse : matrix)
  (regenerate_Minfinity : bool) (input_form : string)
  (cutoff_factor : R) (printout : Z)
  (use_drag_Minfinity use_Minfinity_only
   extract_force_on_wall_due_to_dumbbells : bool)
  (last_velocities : list matrix) (last_velocity_vector : vector)
  (box_bottom_left box_top_right : vec3) (feed_every_n_timesteps : Z)
  (i : inputs) (g : generated) :
  ~ In input_form input_forms ->
  input_ftsuoe c input_number p frameno timestep last_velocities input_form
    (Some true) None = Ok i ->
  generate_matrix c p i frameno timestep last_generated_Minfinity_inverse
    regenerate_Minfinity cutoff_factor printout
    use_drag_Minfinity use_Minfinity_only = Ok g ->
  generate_output_FTSUOE c p frameno timestep input_number
    last_generated_Minfinity_inverse regenerate_Minfinity input_form
    cutoff_factor printout use_drag_Minfinity use_Minfinity_only
    extract_force_on_wall_due_to_dumbbells last_velocities
    last_velocity_vector box_bottom_left box_top_right
    feed_every_n_timesteps = Raise UnboundLocalError.
Proof.
  intros Hform Hin Hgen. unfold generate_output_FTSUOE.
  rewrite Hin. cbn [bind].
  rewrite (proj2 (String.eqb_neq input_form "stokes_drag_dumbbells_only"))
    by (intros ->; apply Hform; cbn; tauto).
  rewrite Hgen. destruct g as [[[M h] cache] times]. cbn [bind].
  rewrite solve_mode_unknown by exact Hform. reflexivity.
Qed.

Lemma unknown_input_form_raises_witness :
  generate_output_FTSUOE translation_only one_sphere 0 1 0 [] true "FTS"
    2 0 false false false [] [] (V3 0 0 0) (V3 0 0 0) 1
  = Raise UnboundLocalError.
Proof.
  apply (unknown_input_form_raises translation_only one_sphere 0 1 0 [] true "FTS"
           2 0 false false false [] [] (V3 0 0 0) (V3 0 0 0) 1
           one_sphere_inputs (one_sphere_matrix, "R"%string, [], [0; 0])).
  - cbn. intros H. repeat (destruct H as [H|H]; [discriminate H|]). exact H.
  - reflexivity.
  - unfold generate_matrix. rewrite box_degenerate. reflexivity.
Defined.

(** *** Conversion to a float array and back *)

Lemma sequence_entries_inv e : forall (r : row) (x : vector),
  sequence (map (entry_float e) r) = Ok x -> map Num x = r.
Proof.
  induction r as [|en r IH]; intros x H; cbn [map sequence] in H.
  - injection H as <-. reflexivity.
  - destruct en as [v| |]; cbn [entry_float bind] in H; try discriminate.
    destruct (sequence (map (entry_float e) r)) as [x'|e'] eqn:E;
      cbn [bind] in H; [|discriminate].
    injection H as <-. cbn [map]. f_equal. now apply IH.
Qed.

Lemma numbers_inv e : forall (t : table) (a : matrix),
  numbers e t = Ok a -> of_array a = t.
Proof.
  unfold numbers, of_array.
  induction t as [|r t IH]; intros a H; cbn [map sequence] in H.
  - injection H as <-. reflexivity.
  - destruct (sequence (map (entry_float e) r)) as [x|e'] eqn:Er;
      cbn [bind] in H; [|discriminate].
    destruct (sequence (map (fun r0 => sequence (map (entry_float e) r0)) t))
      as [a'|e'] eqn:Et; cbn [bind] in H; [|discriminate].
    injection H as <-. cbn [map].
    now rewrite (sequence_entries_inv e r x Er), (IH a' eq_refl).
Qed.

Lemma asarray_float_inv (t : table) (a : matrix) :
  asarray_float t = Ok a -> of_array a = t /\ is_array a.
Proof.
  unfold asarray_float. intros H.
  destruct (numbers ValueError t) as [a'|e] eqn:E; cbn [bind] in H; [|discriminate].
  destruct (forallb (fun r => (length r =? length (hd [] a'))%nat) a') eqn:F;
    [|discriminate].
  injection H as <-. split; [now apply (numbers_inv ValueError)|].
  exists (length (hd [] a')). apply Forall_forall. intros r Hr.
  rewrite forallb_forall in F. now apply Nat.eqb_eq, F.
Qed.

Lemma asarray_float_prescribes (t : table) (a : matrix) :
  asarray_float t = Ok a -> prescribed t.
Proof.
  intros H. apply asarray_float_inv in H as [<- Ha]. now exists a.
Qed.

Lemma convert_outputs_inv l l' :
  convert_outputs l = Ok l' ->
  l' = l /\
  prescribed (l_Fa_out l) /\ prescribed (l_Ta_out l) /\ prescribed (l_Ea_out l) /\
  prescribed (l_Ua_out l) /\ prescribed (l_Oa_out l) /\
  prescribed (l_Ub_out l) /\ prescribed (l_HalfDUb_out l).
Proof.
  unfold convert_outputs. intros H.
  destruct (asarray_float (l_Fa_out l)) as [Fa|e] eqn:EFa; cbn [bind] in H; [|discriminate].
  destruct (asarray_float (l_Ta_out l)) as [Ta|e] eqn:ETa; cbn [bind] in H; [|discriminate].
  destruct (asarray_float (l_Ea_out l)) as [Ea|e] eqn:EEa; cbn [bind] in H; [|discriminate].
  destruct (asarray_float (l_Ua_out l)) as [Ua|e] eqn:EUa; cbn [bind] in H; [|discriminate].
  destruct (asarray_float (l_Oa_out l)) as [Oa|e] eqn:EOa; cbn [bind] in H; [|discriminate].
  destruct (asarray_float (l_Ub_out l)) as [Ub|e] eqn:EUb; cbn [bind] in H; [|discriminate].
  destruct (asarray_float (l_HalfDUb_out l)) as [HD|e] eqn:EHD; cbn [bind] in H;
    [|discriminate].
  injection H as <-.
  split.
  - rewrite (proj1 (asarray_float_inv _ _ EFa)), (proj1 (asarray_float_inv _ _ ETa)),
      (proj1 (asarray_float_inv _ _ EEa)), (proj1 (asarray_float_inv _ _ EUa)),
      (proj1 (asarray_float_inv _ _ EOa)), (proj1 (asarray_float_inv _ _ EUb)),
      (proj1 (asarray_float_inv _ _ EHD)).
    now destruct l.
  - repeat split; eauto using asarray_float_prescribes.
Qed.

(** What a call that returns went through. *)
Lemma generate_output_FTSUOE_inv
  (c : collaborators) (p : posdata) (frameno : Z) (timestep : R)
  (input_number : Z) (last_generated_Minfinity_inverse : matrix)
  (regenerate_Minfinity : bool) (input_form : string)
  (cutoff_factor : R) (printout : Z)
  (use_drag_Minfinity use_Minfinity_only
   extract_force_on_wall_due_to_dumbbells : bool)
  (last_velocities : list matrix) (last_velocity_vector : vector)
  (box_bottom_left box_top_right : vec3) (feed_every_n_timesteps : Z)
  (log : list message) (out : output) :
  generate_output_FTSUOE c p frameno timestep input_number
    last_generated_Minfinity_inverse regenerate_Minfinity input_form
    cutoff_factor printout use_drag_Minfinity use_Minfinity_only
    extract_force_on_wall_due_to_dumbbells last_velocities
    last_velocity_vector box_bottom_left box_top_right
    feed_every_n_timesteps = Ok (log, out) ->
  exists i M heading cache times l,
    input_ftsuoe c input_number p frameno timestep last_velocities input_form
      (Some true) None = Ok i /\
    generate_matrix c p i frameno timestep last_generated_Minfinity_inverse
      regenerate_Minfinity cutoff_factor printout
      use_drag_Minfinity use_Minfinity_only = Ok (M, heading, cache, times) /\
    solve_mode c p i input_number frameno timestep last_velocities input_form
      M (length (Ua_in i)) (length (Ub_in i))
      extract_force_on_wall_due_to_dumbbells = Ok l /\
    convert_outputs l = Ok l /\
    Fa_out out = l_Fa_out l /\ Ta_out out = l_Ta_out l /\
    Sa_out out = l_Sa_out l /\ Fb_out out = l_Fb_out l /\
    DFb_out out = l_DFb_out l /\ Ua_out out = l_Ua_out l /\
    Oa_out out = l_Oa_out l /\ Ea_out out = l_Ea_out l /\
    Ub_out out = l_Ub_out l /\ HalfDUb_out out = l_HalfDUb_out l /\
    out_last_generated_Minfinity_inverse out = cache /\
    gen_times out = times ++ [elapsed_solve_time c] /\
    force_on_wall_due_to_dumbbells out = WallInt 0 /\
    out_last_velocity_vector out = last_velocity_vector.
Proof.
  unfold generate_output_FTSUOE. intros H.
  destruct (input_ftsuoe c _ _ _ _ _ _ _ _) as [i|e] eqn:Ein; cbn [bind] in H;
    [|discriminate].
  destruct (input_form =? "stokes_drag_dumbbells_only")%string.
  { destruct (mode_stokes_drag_dumbbells_only_raises p i) as [e E].
    rewrite E in H. discriminate. }
  destruct (generate_matrix _ _ _ _ _ _ _ _ _ _ _) as [[[[M h] cache] times]|e] eqn:Eg;
    cbn [bind] in H; [|discriminate].
  destruct (solve_mode _ _ _ _ _ _ _ _ _ _ _ _) as [l|e] eqn:Es; cbn [bind] in H;
    [|discriminate].
  destruct (convert_outputs l) as [l'|e] eqn:Ec; cbn [bind] in H; [|discriminate].
  destruct (convert_outputs_inv _ _ Ec) as [-> _].
  injection H as _ <-.
  exists i, M, h, cache, times, l. repeat split; auto.
Qed.

Lemma one_sphere_velocity :
  exists v, linalg_solve one_sphere_matrix [4; 7; 0] = Ok v /\
            asarray_float [map Num v] = Ok [v].
Proof.
  destruct (linalg_solve_nonsingular one_sphere_matrix [4; 7; 0]
              one_sphere_matrix_nonsingular eq_refl) as (v & Hsolve & Lv & _).
  exists v. split; [exact Hsolve|].
  apply (asarray_float_of_array [v]). exists (length v). repeat constructor.
Qed.

(** The sphere of [one_sphere], solved in mode [fts]. *)
Lemma one_sphere_fts_returns :
  exists log out,
    generate_output_FTSUOE translation_only one_sphere 0 1 0 [] true "fts"
      2 0 false false false [] [9] (V3 0 0 0) (V3 0 0 0) 1 = Ok (log, out).
Proof.
  destruct one_sphere_velocity as (v & Hsolve & Hv).
  unfold generate_output_FTSUOE.
  cbn [translation_only input_ftsuoe bind].
  change (("fts" =? "stokes_drag_dumbbells_only")%string) with false. cbv iota.
  unfold generate_matrix. cbn [one_sphere_inputs box_bottom_left box_top_right].
  rewrite box_degenerate.
  cbn [negb generate_grand_resistance_matrix bind].
  unfold solve_mode. change (("fts" =? "fts")%string) with true. cbv iota.
  unfold mode_fts.
  cbn -[linalg_solve asarray_float].
  rewrite Hsolve. cbn [bind].
  unfold convert_outputs.
  cbn [l_inputs l_Fa_out l_Ta_out l_Sa_out l_Fb_out l_DFb_out
       l_Ua_out l_Oa_out l_Ea_out l_Ub_out l_HalfDUb_out l_log].
  unfold row. rewrite Hv. cbn.
  eexists _, _. reflexivity.
Qed.


(** Every tuple the function returns holds the integer 0 as
    [force_on_wall_due_to_dumbbells] and the [last_velocity_vector] it was
    given; its [gen_times] end with the time of the solve; and the seven
    outputs of lines 446-452 are float arrays: no ['pippa'] and no ['chen']
    is left in them. *)
Theorem returned_tuple_invariants
  (c : collaborators) (p : posdata) (frameno : Z) (timestep : R)
  (input_number : Z) (last_generated_Minfinity_inverse : matrix)
  (regenerate_Minfinity : bool) (input_form : string)
  (cutoff_factor : R) (printout : Z)
  (use_drag_Minfinity use_Minfinity_only
   extract_force_on_wall_due_to_dumbbells : bool)
  (last_velocities : list matrix) (last_velocity_vector : vector)
  (box_bottom_left box_top_right : vec3) (feed_every_n_timesteps : Z)
  (log : list message) (out : output) :
  generate_output_FTSUOE c p frameno timestep input_number
    last_generated_Minfinity_inverse regenerate_Minfinity input_form
    cutoff_factor printout use_drag_Minfinity use_Minfinity_only
    extract_force_on_wall_due_to_dumbbells last_velocities
    last_velocity_vector box_bottom_left box_top_right
    feed_every_n_timesteps = Ok (log, out) ->
  force_on_wall_due_to_dumbbells out = WallInt 0 /\
  out_last_velocity_vector out = last_velocity_vector /\
  (exists times, gen_times out = times ++ [elapsed_solve_time c]) /\
  prescribed (Fa_out out) /\ prescribed (Ta_out out) /\ prescribed (Ea_out out) /\
  prescribed (Ua_out out) /\ prescribed (Oa_out out) /\
  prescribed (Ub_out out) /\ prescribed (HalfDUb_out out).
Proof.
  intros H.
  destruct (generate_output_FTSUOE_inv _ _ _ _ _ _ _ _ _ _ _ _ _ _ _ _ _ _ _ _ H)
    as (i & M & h & cache & times & l & _ & _ & _ & Hc &
        -> & -> & _ & _ & _ & -> & -> & -> & -> & -> & _ & Ht & Hw & Hv).
  destruct (convert_outputs_inv _ _ Hc) as (_ & ? & ? & ? & ? & ? & ? & ?).
  repeat split; eauto.
Qed.

Lemma returned_tuple_invariants_witness :
  exists log out,
    generate_output_FTSUOE translation_only one_sphere 0 1 0 [] true "fts"
      2 0 false false false [] [9] (V3 0 0 0) (V3 0 0 0) 1 = Ok (log, out) /\
    force_on_wall_due_to_dumbbells out = WallInt 0 /\
    out_last_velocity_vector out = [9] /\
    prescribed (Ua_out out).
Proof.
  destruct one_sphere_fts_returns as (log & out & E).
  destruct (returned_tuple_invariants _ _ _ _ _ _ _ _ _ _ _ _ _ _ _ _ _ _ _ _ E)
    as (Hw & Hv & _ & _ & _ & _ & HUa & _).
  exists log, out. repeat split; assumption.
Defined.

(** *** Spheres of unknown velocity come last *)











(** ** Background flow *)

Lemma map_nth_seq {A} (l : list A) (d : A) :
  map (fun i => nth i l d) (seq 0 (length l)) = l.
Proof.
  apply nth_ext with (d := d) (d' := d).
  - now rewrite length_map, length_seq.
  - intros n Hn. rewrite length_map, length_seq in Hn.
    rewrite (nth_indep _ d (nth 0 l d)) by (rewrite length_map, length_seq; lia).
    rewrite (map_nth (fun i => nth i l d)), seq_nth by lia. reflexivity.
Qed.

Lemma combine_map_same {A B C D} (f : B -> C -> D) (g : A -> B) (h : A -> C) l :
  map (fun q => f (fst q) (snd q)) (combine (map g l) (map h l))
  = map (fun i => f (g i) (h i)) l.
Proof. induction l as [|a l IH]; [reflexivity|]. cbn. now rewrite IH. Qed.

Lemma broadcast_add_same {A} (g h : A -> vec3) (l : list A) :
  broadcast_add (map g l) (map h l) = Ok (map (fun i => vadd (g i) (h i)) l).
Proof.
  unfold broadcast_add. rewrite !length_map, Nat.eqb_refl.
  now rewrite (combine_map_same vadd).
Qed.

Lemma index_nth {A} (l : list A) (d : A) i :
  (i < length l)%nat -> index l i = Ok (nth i l d).
Proof.
  intros H. unfold index. now rewrite (nth_error_nth' l d H).
Qed.

Lemma add_background_flow_spheres_value
  (Ua_out_k1 Oa_out_k1 : list vec3) (Ea_out_k1 : list mat3)
  (U_infinity_k1 O_infinity_k1 : vec3)
  (sphere_positions : list vec3) (centre_of_background_flow : vec3) :
  length Ua_out_k1 = length sphere_positions ->
  (length sphere_positions <= length Ea_out_k1)%nat ->
  add_background_flow_spheres Ua_out_k1 Oa_out_k1 Ea_out_k1
    U_infinity_k1 O_infinity_k1 sphere_positions centre_of_background_flow
  = Ok (map (sphere_in_flow Ua_out_k1 Ea_out_k1 U_infinity_k1 O_infinity_k1
               sphere_positions centre_of_background_flow)
            (seq 0 (length sphere_positions)),
        add_vector Oa_out_k1 O_infinity_k1).
Proof.
  intros HU HE. unfold add_background_flow_spheres.
  set (n := length sphere_positions) in *.
  set (c := centre_of_background_flow).
  rewrite (sequence_map_ok _
             (fun i => mat_vec3 (nth i Ea_out_k1 identity3)
                         (vsub (nth i sphere_positions vzero) c))).
  2:{ intros i Hi. apply in_seq in Hi.
      rewrite (index_nth Ea_out_k1 identity3) by lia. cbn [bind].
      rewrite (index_nth sphere_positions vzero) by (fold n; lia). reflexivity. }
  cbn [bind].
  assert (HUa : add_vector Ua_out_k1 U_infinity_k1
                = map (fun i => vadd (nth i Ua_out_k1 vzero) U_infinity_k1) (seq 0 n)).
  { unfold add_vector. rewrite <- (map_nth_seq Ua_out_k1 vzero) at 1.
    rewrite map_map, HU. reflexivity. }
  assert (HO : map (fun x => cross O_infinity_k1 (vsub x c)) sphere_positions
               = map (fun i => cross O_infinity_k1
                                 (vsub (nth i sphere_positions vzero) c)) (seq 0 n)).
  { rewrite <- (map_nth_seq sphere_positions vzero) at 1.
    rewrite map_map. reflexivity. }
  rewrite HUa, HO, broadcast_add_same. cbn [bind].
  rewrite broadcast_add_same. cbn [bind]. reflexivity.
Qed.

Lemma vadd_zero_r a : vadd a vzero = a.
Proof. apply vec3_eq; unfold vadd, vzero; cbn [vx vy vz]; ring. Qed.

Lemma cross_zero_l a : cross vzero a = vzero.
Proof. apply vec3_eq; unfold cross, vzero; cbn [vx vy vz]; ring. Qed.

Lemma mat_vec3_zero3 a : mat_vec3 zero3 a = vzero.
Proof.
  apply vec3_eq; unfold mat_vec3, zero3, dot, vzero; cbn [row0 row1 row2 vx vy vz]; ring.
Qed.

Lemma add_vector_zero (a : list vec3) : add_vector a vzero = a.
Proof.
  unfold add_vector. rewrite <- (map_id a) at 2. apply map_ext, vadd_zero_r.
Qed.

(** Without a background flow (no velocity, no rotation, no strain) the
    velocities and the angular velocities come back unchanged. *)
Theorem add_background_flow_spheres_no_flow
  (Ua_out_k1 Oa_out_k1 : list vec3) (Ea_out_k1 : list mat3)
  (sphere_positions : list vec3) (centre_of_background_flow : vec3) :
  length Ua_out_k1 = length sphere_positions ->
  (length sphere_positions <= length Ea_out_k1)%nat ->
  Forall (fun E => E = zero3) Ea_out_k1 ->
  add_background_flow_spheres Ua_out_k1 Oa_out_k1 Ea_out_k1
    vzero vzero sphere_positions centre_of_background_flow
  = Ok (Ua_out_k1, Oa_out_k1).
Proof.
  intros HU HE Hz.
  rewrite add_background_flow_spheres_value by assumption.
  rewrite add_vector_zero. do 2 f_equal.
  rewrite <- (map_nth_seq Ua_out_k1 vzero) at 2. rewrite HU.
  apply map_ext_in. intros i Hi. apply in_seq in Hi.
  unfold sphere_in_flow. cbv zeta.
  rewrite Forall_forall in Hz.
  rewrite (Hz (nth i Ea_out_k1 identity3)) by (apply nth_In; lia).
  now rewrite cross_zero_l, mat_vec3_zero3, !vadd_zero_r.
Qed.

Lemma add_background_flow_spheres_no_flow_witness :
  add_background_flow_spheres [V3 1 2 3; V3 4 5 6] [V3 0 0 1] [zero3; zero3]
    vzero vzero [V3 0 0 0; V3 3 0 0] (V3 1 1 1)
  = Ok ([V3 1 2 3; V3 4 5 6], [V3 0 0 1]).
Proof.
  apply add_background_flow_spheres_no_flow; [reflexivity|simpl; lia|].
  repeat constructor.
Defined.

Lemma vsub_shift x c t : vsub (vadd x t) (vadd c t) = vsub x c.
Proof. apply vec3_eq; unfold vsub, vadd; cbn [vx vy vz]; ring. Qed.

(** The result depends on the positions through their offsets from the
    centre of the background flow only: moving the spheres and the centre by
    one vector changes nothing, for any arguments (an exception
    included). *)
Theorem add_background_flow_spheres_translation
  (Ua_out_k1 Oa_out_k1 : list vec3) (Ea_out_k1 : list mat3)
  (U_infinity_k1 O_infinity_k1 : vec3)
  (sphere_positions : list vec3) (centre_of_background_flow t : vec3) :
  add_background_flow_spheres Ua_out_k1 Oa_out_k1 Ea_out_k1
    U_infinity_k1 O_infinity_k1
    (add_vector sphere_positions t) (vadd centre_of_background_flow t)
  = add_background_flow_spheres Ua_out_k1 Oa_out_k1 Ea_out_k1
      U_infinity_k1 O_infinity_k1 sphere_positions centre_of_background_flow.
Proof.
  unfold add_background_flow_spheres.
  change (add_vector sphere_positions t)
    with (map (fun x => vadd x t) sphere_positions).
  rewrite length_map, map_map.
  assert (HO : map (fun x => cross O_infinity_k1
                               (vsub (vadd x t) (vadd centre_of_background_flow t)))
                   sphere_positions
               = map (fun x => cross O_infinity_k1 (vsub x centre_of_background_flow))
                   sphere_positions).
  { apply map_ext. intros x. now rewrite vsub_shift. }
  rewrite HO.
  assert (HE : map (fun i =>
                      E <- index Ea_out_k1 i ;;
                      x <- index (map (fun x => vadd x t) sphere_positions) i ;;
                      Ok (mat_vec3 E (vsub x (vadd centre_of_background_flow t))))
                   (seq 0 (length sphere_positions))
               = map (fun i =>
                        E <- index Ea_out_k1 i ;;
                        x <- index sphere_positions i ;;
                        Ok (mat_vec3 E (vsub x centre_of_background_flow)))
                     (seq 0 (length sphere_positions))).
  { apply map_ext. intros i.
    destruct (index Ea_out_k1 i) as [E|e]; cbn [bind]; [|reflexivity].
    unfold index. rewrite nth_error_map.
    destruct (nth_error sphere_positions i) as [x|]; cbn [option_map bind];
      [|reflexivity].
    now rewrite vsub_shift. }
  rewrite HE. reflexivity.
Qed.

Lemma nth_map_seq {A} (f : nat -> A) (d : A) n i :
  (i < n)%nat -> nth i (map f (seq 0 n)) d = f i.
Proof.
  intros H. rewrite (nth_indep _ d (f 0%nat)) by (rewrite length_map, length_seq; lia).
  rewrite (map_nth f), seq_nth by lia. reflexivity.
Qed.

Lemma nth_combine_map {A B C} (f : A -> B -> C) (a : list A) (b : list B)
  (da : A) (db : B) (dc : C) i :
  (i < length a)%nat -> (i < length b)%nat ->
  nth i (map (fun q => f (fst q) (snd q)) (combine a b)) dc
  = f (nth i a da) (nth i b db).
Proof.
  revert b i. induction a as [|x a IH]; intros [|y b] i Ha Hb; simpl in *; try lia.
  destruct i as [|i]; [reflexivity|]. apply IH; lia.
Qed.

(** Background flows add up: adding a second flow to the result of a first
    is adding the sum of the two flows. *)
Theorem add_background_flow_spheres_superposition
  (Ua_out_k1 Oa_out_k1 : list vec3) (Ea1 Ea2 : list mat3)
  (U1 O1 U2 O2 : vec3)
  (sphere_positions : list vec3) (centre_of_background_flow : vec3) :
  length Ua_out_k1 = length sphere_positions ->
  (length sphere_positions <= length Ea1)%nat ->
  (length sphere_positions <= length Ea2)%nat ->
  exists Ua1 Oa1,
    add_background_flow_spheres Ua_out_k1 Oa_out_k1 Ea1 U1 O1
      sphere_positions centre_of_background_flow = Ok (Ua1, Oa1) /\
    add_background_flow_spheres Ua1 Oa1 Ea2 U2 O2
      sphere_positions centre_of_background_flow
    = add_background_flow_spheres Ua_out_k1 Oa_out_k1
        (map (fun q => madd3 (fst q) (snd q)) (combine Ea1 Ea2))
        (vadd U1 U2) (vadd O1 O2)
        sphere_positions centre_of_background_flow.
Proof.
  intros HU H1 H2.
  rewrite (add_background_flow_spheres_value _ _ Ea1) by assumption.
  eexists _, _. split; [reflexivity|].
  rewrite (add_background_flow_spheres_value _ _ Ea2)
    by (rewrite ?length_map, ?length_seq; auto).
  rewrite add_background_flow_spheres_value
    by (rewrite ?length_map, ?length_combine; auto; lia).
  f_equal. f_equal.
  - apply map_ext_in. intros i Hi. apply in_seq in Hi.
    unfold sphere_in_flow at 1 3. cbv zeta.
    rewrite nth_map_seq by lia. unfold sphere_in_flow. cbv zeta.
    rewrite (nth_combine_map madd3 Ea1 Ea2 identity3 identity3) by lia.
    apply vec3_eq; unfold madd3, mat_vec3, dot, cross, vadd;
      cbn [row0 row1 row2 vx vy vz]; ring.
  - unfold add_vector. rewrite map_map. apply map_ext. intros o.
    apply vec3_eq; unfold vadd; cbn [vx vy vz]; ring.
Qed.

(** A uniform flow, then a rotation, on one sphere away from the centre. *)
Lemma add_background_flow_spheres_superposition_witness :
  exists Ua1 Oa1,
    add_background_flow_spheres [V3 1 2 3] [V3 0 0 1] [zero3] (V3 1 0 0) vzero
      [V3 3 0 0] (V3 1 1 1) = Ok (Ua1, Oa1) /\
    add_background_flow_spheres Ua1 Oa1 [zero3] vzero (V3 0 0 2)
      [V3 3 0 0] (V3 1 1 1)
    = add_background_flow_spheres [V3 1 2 3] [V3 0 0 1]
        (map (fun q => madd3 (fst q) (snd q)) (combine [zero3] [zero3]))
        (vadd (V3 1 0 0) vzero) (vadd vzero (V3 0 0 2))
        [V3 3 0 0] (V3 1 1 1).
Proof.
  apply add_background_flow_spheres_superposition; simpl; lia.
Defined.

Lemma sequence_raise {A B} (f : A -> outcome B) (e : failure) (l : list A) :
  (forall x, In x l -> (exists b, f x = Ok b) \/ f x = Raise e) ->
  (exists x, In x l /\ f x = Raise e) ->
  sequence (map f l) = Raise e.
Proof.
  induction l as [|a l IH]; intros Hall (x & Hx & Ex); [contradiction|].
  cbn [map sequence].
  destruct Hx as [<-|Hx].
  - now rewrite Ex.
  - assert (IHl : sequence (map f l) = Raise e).
    { apply IH; [intros y Hy; apply Hall; now right|eauto]. }
    destruct (Hall a (or_introl eq_refl)) as [[b ->]| ->]; cbn [bind]; [|reflexivity].
    now rewrite IHl.
Qed.

(** With fewer strain rates than spheres the function raises [IndexError]
    (line 619), whatever the shapes of the velocities. *)
Theorem add_background_flow_spheres_missing_strain
  (Ua_out_k1 Oa_out_k1 : list vec3) (Ea_out_k1 : list mat3)
  (U_infinity_k1 O_infinity_k1 : vec3)
  (sphere_positions : list vec3) (centre_of_background_flow : vec3) :
  (length Ea_out_k1 < length sphere_positions)%nat ->
  add_background_flow_spheres Ua_out_k1 Oa_out_k1 Ea_out_k1
    U_infinity_k1 O_infinity_k1 sphere_positions centre_of_background_flow
  = Raise IndexError.
Proof.
  intros H. unfold add_background_flow_spheres.
  rewrite (sequence_raise _ IndexError); [reflexivity| |].
  - intros i Hi. apply in_seq in Hi.
    destruct (Nat.lt_ge_cases i (length Ea_out_k1)) as [Hlt|Hge].
    + rewrite (index_nth Ea_out_k1 identity3) by exact Hlt. cbn [bind].
      rewrite (index_nth sphere_positions vzero) by lia. cbn [bind]. left. eauto.
    + rewrite index_none by exact Hge. now right.
  - exists (length Ea_out_k1). split; [apply in_seq; lia|].
    now rewrite index_none.
Qed.

Lemma add_background_flow_spheres_missing_strain_witness :
  add_background_flow_spheres [V3 1 2 3; V3 4 5 6] [V3 0 0 1] [zero3]
    vzero vzero [V3 0 0 0; V3 3 0 0] (V3 1 1 1)
  = Raise IndexError.
Proof.
  apply add_background_flow_spheres_missing_strain. simpl. lia.
Defined.

(** *** Dumbbells *)

Lemma add_background_flow_dumbbells_value
  (Ub_out_k1 HalfDUb_out_k1 : list vec3) (E : mat3) (rest : list mat3)
  (U_infinity_k1 O_infinity_k1 : vec3)
  (dumbbell_positions dumbbell_deltax : list vec3)
  (centre_of_background_flow : vec3) :
  length Ub_out_k1 = length dumbbell_positions ->
  length HalfDUb_out_k1 = length dumbbell_positions ->
  length dumbbell_deltax = length dumbbell_positions ->
  add_background_flow_dumbbells Ub_out_k1 HalfDUb_out_k1 (E :: rest)
    U_infinity_k1 O_infinity_k1 dumbbell_positions dumbbell_deltax
    centre_of_background_flow
  = Ok (map (dumbbell_in_flow Ub_out_k1 E U_infinity_k1 O_infinity_k1
               dumbbell_positions centre_of_background_flow)
            (seq 0 (length dumbbell_positions)),
        map (half_difference_in_flow HalfDUb_out_k1 E O_infinity_k1 dumbbell_deltax)
            (seq 0 (length dumbbell_positions))).
Proof.
  intros HU HH HD. unfold add_background_flow_dumbbells.
  set (n := length dumbbell_positions) in *.
  set (c := centre_of_background_flow).
  rewrite (sequence_map_ok _
             (fun i => (mat_vec3 E (vsub (nth i dumbbell_positions vzero) c),
                        mat_vec3 E (nth i dumbbell_deltax vzero)))).
  2:{ intros i Hi. apply in_seq in Hi. cbn [index nth_error bind].
      rewrite (index_nth dumbbell_positions vzero) by (fold n; lia). cbn [bind].
      rewrite (index_nth dumbbell_deltax vzero) by lia. reflexivity. }
  cbn [bind]. rewrite !map_map. cbn [fst snd].
  assert (HUb : add_vector Ub_out_k1 U_infinity_k1
                = map (fun i => vadd (nth i Ub_out_k1 vzero) U_infinity_k1) (seq 0 n)).
  { unfold add_vector. rewrite <- (map_nth_seq Ub_out_k1 vzero) at 1.
    rewrite map_map, HU. reflexivity. }
  assert (HO : map (fun x => cross O_infinity_k1 (vsub x c)) dumbbell_positions
               = map (fun i => cross O_infinity_k1
                                 (vsub (nth i dumbbell_positions vzero) c)) (seq 0 n)).
  { rewrite <- (map_nth_seq dumbbell_positions vzero) at 1.
    rewrite map_map. reflexivity. }
  assert (HOd : map (fun d => cross O_infinity_k1 d) dumbbell_deltax
                = map (fun i => cross O_infinity_k1 (nth i dumbbell_deltax vzero))
                    (seq 0 n)).
  { rewrite <- (map_nth_seq dumbbell_deltax vzero) at 1.
    rewrite map_map, HD. reflexivity. }
  assert (HHD : HalfDUb_out_k1
                = map (fun i => nth i HalfDUb_out_k1 vzero) (seq 0 n)).
  { rewrite <- HH. symmetry. apply map_nth_seq. }
  rewrite HUb, HO, HOd, broadcast_add_same. cbn [bind].
  rewrite broadcast_add_same. cbn [bind].
  rewrite broadcast_add_same. cbn [bind]. rewrite map_map.
  rewrite HHD at 1. rewrite broadcast_add_same. cbn [bind].
  reflexivity.
Qed.

(** The mean and half-difference form agrees with the velocities of the
    points of the dumbbell: for every [s], the velocity [Ub + s HalfDUb] with
    the background flow added is what [add_background_flow_spheres] gives
    for a sphere of velocity [Ub + s HalfDUb] at [x + (s / 2) deltax] with
    the strain rate [Ea_out_k1[0]]; [s = 1] and [s = -1] are the two
    beads. *)
Theorem add_background_flow_dumbbells_agrees_with_spheres
  (Ub_out_k1 HalfDUb_out_k1 Oa : list vec3) (E : mat3) (rest : list mat3)
  (U_infinity_k1 O_infinity_k1 : vec3)
  (dumbbell_positions dumbbell_deltax : list vec3)
  (centre_of_background_flow : vec3) (s : R) :
  length Ub_out_k1 = length dumbbell_positions ->
  length HalfDUb_out_k1 = length dumbbell_positions ->
  length dumbbell_deltax = length dumbbell_positions ->
  let along (a b : list vec3) (k : R) :=
    map (fun q => vadd (fst q) (vscale k (snd q))) (combine a b) in
  exists Ub_plus HalfDUb_plus,
    add_background_flow_dumbbells Ub_out_k1 HalfDUb_out_k1 (E :: rest)
      U_infinity_k1 O_infinity_k1 dumbbell_positions dumbbell_deltax
      centre_of_background_flow = Ok (Ub_plus, HalfDUb_plus) /\
    add_background_flow_spheres (along Ub_out_k1 HalfDUb_out_k1 s) Oa
      (repeat E (length dumbbell_positions)) U_infinity_k1 O_infinity_k1
      (along dumbbell_positions dumbbell_deltax (s / 2))
      centre_of_background_flow
    = Ok (along Ub_plus HalfDUb_plus s, add_vector Oa O_infinity_k1).
Proof.
  intros HU HH HD along.
  rewrite add_background_flow_dumbbells_value by assumption.
  eexists _, _. split; [reflexivity|].
  set (n := length dumbbell_positions) in *.
  assert (Lx : length (along dumbbell_positions dumbbell_deltax (s / 2)) = n).
  { unfold along. rewrite length_map, length_combine. lia. }
  rewrite add_background_flow_spheres_value;
    [|unfold along; rewrite !length_map, !length_combine; lia
     |rewrite Lx, repeat_length; lia].
  rewrite Lx. f_equal. f_equal.
  unfold along at 3. rewrite (combine_map_same (fun a b => vadd a (vscale s b))).
  apply map_ext_in. intros i Hi. apply in_seq in Hi.
  unfold sphere_in_flow, dumbbell_in_flow, half_difference_in_flow, along.
  cbv zeta.
  rewrite (nth_combine_map (fun a b => vadd a (vscale s b))
             Ub_out_k1 HalfDUb_out_k1 vzero vzero) by lia.
  rewrite (nth_combine_map (fun a b => vadd a (vscale (s / 2) b))
             dumbbell_positions dumbbell_deltax vzero vzero) by lia.
  rewrite nth_repeat_lt by lia.
  apply vec3_eq; unfold mat_vec3, dot, cross, vsub, vadd, vscale;
    cbn [row0 row1 row2 vx vy vz]; lra.
Qed.

(** One dumbbell in a shear flow, and its first bead ([s = 1]). *)
Lemma add_background_flow_dumbbells_agrees_with_spheres_witness :
  exists Ub_plus HalfDUb_plus,
    add_background_flow_dumbbells [V3 1 0 0] [V3 0 1 0]
      [M3 (V3 0 1 0) (V3 1 0 0) (V3 0 0 0)] (V3 0 0 1) (V3 0 0 2)
      [V3 3 0 0] [V3 0 2 0] (V3 1 1 1) = Ok (Ub_plus, HalfDUb_plus) /\
    add_background_flow_spheres
      (map (fun q => vadd (fst q) (vscale 1 (snd q)))
           (combine [V3 1 0 0] [V3 0 1 0]))
      []
      (repeat (M3 (V3 0 1 0) (V3 1 0 0) (V3 0 0 0)) (length [V3 3 0 0]))
      (V3 0 0 1) (V3 0 0 2)
      (map (fun q => vadd (fst q) (vscale (1 / 2) (snd q)))
           (combine [V3 3 0 0] [V3 0 2 0]))
      (V3 1 1 1)
    = Ok (map (fun q => vadd (fst q) (vscale 1 (snd q)))
              (combine Ub_plus HalfDUb_plus),
          add_vector [] (V3 0 0 2)).
Proof.
  apply (add_background_flow_dumbbells_agrees_with_spheres
           [V3 1 0 0] [V3 0 1 0] [] (M3 (V3 0 1 0) (V3 1 0 0) (V3 0 0 0)) []
           (V3 0 0 1) (V3 0 0 2) [V3 3 0 0] [V3 0 2 0] (V3 1 1 1) 1);
    reflexivity.
Defined.

(** Without a strain rate the function raises [IndexError] (line 642) as
    soon as there is a dumbbell; without dumbbells the strain rates are not
    read. *)
Theorem add_background_flow_dumbbells_no_strain
  (Ub_out_k1 HalfDUb_out_k1 : list vec3)
  (U_infinity_k1 O_infinity_k1 : vec3)
  (dumbbell_positions dumbbell_deltax : list vec3)
  (centre_of_background_flow : vec3) :
  dumbbell_positions <> [] ->
  add_background_flow_dumbbells Ub_out_k1 HalfDUb_out_k1 []
    U_infinity_k1 O_infinity_k1 dumbbell_positions dumbbell_deltax
    centre_of_background_flow = Raise IndexError /\
  add_background_flow_dumbbells [] [] []
    U_infinity_k1 O_infinity_k1 [] [] centre_of_background_flow = Ok ([], []).
Proof.
  intros H. split; [|reflexivity].
  destruct dumbbell_positions as [|x l]; [congruence|]. reflexivity.
Qed.

Lemma add_background_flow_dumbbells_no_strain_witness :
  add_background_flow_dumbbells [V3 1 0 0] [V3 0 1 0] []
    (V3 0 0 1) (V3 0 0 2) [V3 3 0 0] [V3 0 2 0] (V3 1 1 1) = Raise IndexError /\
  add_background_flow_dumbbells [] [] []
    (V3 0 0 1) (V3 0 0 2) [] [] (V3 1 1 1) = Ok ([], []).
Proof.
  apply add_background_flow_dumbbells_no_strain. discriminate.
Defined.

(** The half difference of the velocities sees [dumbbell_deltax],
    [O_infinity] and the strain rate only: the mean velocities, the uniform
    flow, the positions of the dumbbells and the centre of the flow do not
    enter it. *)
Theorem add_background_flow_dumbbells_half_difference
  (Ub_out_k1 Ub_out_k1' HalfDUb_out_k1 : list vec3) (E : mat3) (rest : list mat3)
  (U_infinity_k1 U_infinity_k1' O_infinity_k1 : vec3)
  (dumbbell_positions dumbbell_positions' dumbbell_deltax : list vec3)
  (centre_of_background_flow centre_of_background_flow' : vec3) :
  length Ub_out_k1 = length dumbbell_positions ->
  length Ub_out_k1' = length dumbbell_positions ->
  length dumbbell_positions' = length dumbbell_positions ->
  length HalfDUb_out_k1 = length dumbbell_positions ->
  length dumbbell_deltax = length dumbbell_positions ->
  exists Ub_plus Ub_plus' HalfDUb_plus,
    add_background_flow_dumbbells Ub_out_k1 HalfDUb_out_k1 (E :: rest)
      U_infinity_k1 O_infinity_k1 dumbbell_positions dumbbell_deltax
      centre_of_background_flow = Ok (Ub_plus, HalfDUb_plus) /\
    add_background_flow_dumbbells Ub_out_k1' HalfDUb_out_k1 (E :: rest)
      U_infinity_k1' O_infinity_k1 dumbbell_positions' dumbbell_deltax
      centre_of_background_flow' = Ok (Ub_plus', HalfDUb_plus) /\
    length HalfDUb_plus = length dumbbell_positions.
Proof.
  intros HU HU' HP HH HD.
  rewrite add_background_flow_dumbbells_value by assumption.
  rewrite add_background_flow_dumbbells_value by congruence.
  rewrite HP. eexists _, _, _. split; [reflexivity|]. split; [reflexivity|].
  now rewrite length_map, length_seq.
Qed.

Lemma add_background_flow_dumbbells_half_difference_witness :
  exists Ub_plus Ub_plus' HalfDUb_plus,
    add_background_flow_dumbbells [V3 1 0 0] [V3 0 1 0] [zero3]
      (V3 0 0 1) (V3 0 0 2) [V3 3 0 0] [V3 0 2 0] (V3 1 1 1)
    = Ok (Ub_plus, HalfDUb_plus) /\
    add_background_flow_dumbbells [V3 7 7 7] [V3 0 1 0] [zero3]
      (V3 5 5 5) (V3 0 0 2) [V3 9 9 9] [V3 0 2 0] (V3 4 4 4)
    = Ok (Ub_plus', HalfDUb_plus) /\
    length HalfDUb_plus = length [V3 3 0 0].
Proof.
  apply add_background_flow_dumbbells_half_difference; reflexivity.
Defined.
